(** * ENACT frontend: eco score, activity breakdown and timer display

  A shallow embedding of the numeric routines of the ENACT dashboard:
  - [Dashboard.ecoScore]          (pages/Dashboard.jsx, the [useMemo] callback),
  - [EmissionChart.breakdown]     (components/EmissionChart.jsx, ActivityBreakdownChart),
  - [Analyzer.formatTime], [Analyzer.elapsed] (pages/Analyzer.jsx, the tracker's timer),
  - [Estimator.estimate]          (the backend estimator, known only from its description).

  JavaScript numbers are IEEE 754 binary64 values; they are modelled by the
  primitive type [float], whose operations are specified by [SpecFloat]. *)

From Stdlib Require Import ZArith NArith Lia Bool List String Ascii Floats.
From Stdlib Require Import DecimalString DecimalN Permutation.
Import ListNotations.

Set Warnings "-inexact-float".

Local Open Scope float_scope.

(** ** JavaScript numbers *)

Module JS.

(** The Number value of a mathematical integer ([n] is exact up to 2^53). *)
Definition Z2float (n : Z) : float :=
  SF2Prim (binary_normalize prec emax n 0 false).

(** ToBoolean on a Number: [NaN], [+0] and [-0] are falsy. *)
Definition truthy (x : float) : bool :=
  negb (is_nan x || is_zero x).

(** [v || d] where [v] is a Number-valued property that may be missing
    ([undefined]) or [null]: both are falsy, as are [NaN] and the zeros. *)
Definition or_default (v : option float) (d : float) : float :=
  match v with
  | Some x => if truthy x then x else d
  | None => d
  end.

(** [a === b] on Numbers. *)
Definition strict_eq (a b : float) : bool := a =? b.

(** [a > b] on Numbers. *)
Definition gt (a b : float) : bool := b <? a.

Definition isNaN (x : float) : bool := is_nan x.
Definition isFinite (x : float) : bool := is_finite x.

(** [Math.max(a, b)]: [NaN] if either argument is, and [+0] is larger than [-0]. *)
Definition Math_max (a b : float) : float :=
  if is_nan a || is_nan b then nan
  else if a <? b then b
  else if b <? a then a
  else if get_sign a then b else a.

(** [Math.min(a, b)]: [NaN] if either argument is, and [-0] is smaller than [+0]. *)
Definition Math_min (a b : float) : float :=
  if is_nan a || is_nan b then nan
  else if a <? b then a
  else if b <? a then b
  else if get_sign a then a else b.

(** The mathematical value [floor (x + 1/2)] of a finite number [(-1)^s * m * 2^e]
    with [e < 0], computed exactly on integers. *)
Definition round_half_up (s : bool) (m : positive) (e : Z) : Z :=
  ((cond_Zopp s (Zpos m~0) + 2 ^ (- e)) / 2 ^ (1 - e))%Z.

(** [Math.round(x)]: the integral Number closest to [x], ties towards
    [+Infinity]; [NaN], the infinities, the zeros and integral values are
    returned as they are, and a value in [[-0.5, 0)] rounds to [-0]. *)
Definition Math_round (x : float) : float :=
  match Prim2SF x with
  | S754_finite s m e =>
      if (0 <=? e)%Z then x
      else
        let n := round_half_up s m e in
        if (n =? 0)%Z then (if s then neg_zero else zero)
        else Z2float n
  | _ => x
  end.

End JS.

(** ** pages/Dashboard.jsx *)

Module Dashboard.
Import JS.

(** One entry of [daily_summaries]. *)
Record DailySummary := {
  date : string;
  emissions_grams : float;
  energy_kwh : float;
  activity_count : Z
}.

(** The object returned by [getEmissionSummary]; a numeric property that is
    missing or [null] is [None]. *)
Record Summary := {
  period_days : option float;
  daily_summaries : list DailySummary;
  total_emissions_grams : option float;
  total_energy_kwh : option float
}.

(** Modelled from the spec: the total of a list of daily summaries, which
    the backend computes ([backend/main.py] is not among the sources) and
    reports as [total_emissions_grams]. *)
Definition totalOf (l : list DailySummary) : float :=
  fold_left (fun sum d => sum + emissions_grams d) l 0.

(** Lines 190-205: the piecewise score of a daily average; [score] is the
    value the variable holds on entry (100). *)
Definition bracketScore (avgDailyEmissions : float) (score : float) : float :=
  if gt avgDailyEmissions 0 then
    if avgDailyEmissions <=? 0.1 then 100
    else if avgDailyEmissions <=? 0.5 then 100 - (avgDailyEmissions * 20)
    else if avgDailyEmissions <=? 1 then 90 - ((avgDailyEmissions - 0.5) * 10)
    else if avgDailyEmissions <=? 2 then 85 - ((avgDailyEmissions - 1) * 5)
    else if avgDailyEmissions <=? 5 then 80 - ((avgDailyEmissions - 2) * 10)
    else Math_max 0 (50 - ((avgDailyEmissions - 5) * 10))
  else score.

(** Lines 188-213: from the daily average to the value returned. *)
Definition scoreOfAverage (avgDailyEmissions : float) : float :=
  let score := 100 in
  let score := bracketScore avgDailyEmissions score in
  let score := Math_max 0 (Math_min 100 score) in
  let result := Math_round score in
  if isNaN result || negb (isFinite result) then 85 else result.

(** Line 183. *)
Definition avgDaily (totalEmissions periodDays : float) : float :=
  totalEmissions / periodDays.

(** The [useMemo] callback of lines 169-214; [None] is a [summary] that is
    [null] (nothing loaded yet). *)
Definition ecoScore (summary : option Summary) : float :=
  match summary with
  | None => 85
  | Some s =>
      let totalEmissions := or_default (total_emissions_grams s) 0 in
      let periodDays := or_default (period_days s) 7 in
      if strict_eq totalEmissions 0 then 100
      else if strict_eq periodDays 0 || isNaN periodDays then 85
      else scoreOfAverage (avgDaily totalEmissions periodDays)
  end.

End Dashboard.

(** ** components/EmissionChart.jsx (ActivityBreakdownChart) *)

Module EmissionChart.
Import JS.
Local Open Scope string_scope.

(** One element of [data]: a tracked activity as the API returns it.  A
    property that is missing or [null] is [None]. *)
Record ActivityLog := {
  activity_type : option string;
  duration_seconds : option float;
  co2_grams : option float
}.

(** An entry of [activityMap], later of [chartData]. *)
Record Slice := {
  name : string;
  value : float;
  emissions : float;
  type : string;
  percent : float
}.

Definition lower_ascii (c : ascii) : ascii :=
  let n := nat_of_ascii c in
  if (65 <=? n)%nat && (n <=? 90)%nat then ascii_of_nat (n + 32) else c.

(** [String.prototype.toLowerCase], on ASCII text. *)
Fixpoint toLowerCase (s : string) : string :=
  match s with
  | EmptyString => EmptyString
  | String c r => String (lower_ascii c) (toLowerCase r)
  end.

(** [log.activity_type || 'unknown']: the empty string is falsy. *)
Definition type_or_unknown (t : option string) : string :=
  match t with
  | Some EmptyString | None => "unknown"
  | Some s => s
  end.

Definition nameMap (t : string) : option string :=
  if String.eqb t "youtube" then Some "YouTube"
  else if String.eqb t "ott" then Some "OTT Streaming"
  else if String.eqb t "gmail" then Some "Gmail"
  else if String.eqb t "browsing" then Some "Browsing"
  else if String.eqb t "code_execution" then Some "Code Execution"
  else if String.eqb t "idle" then Some "Idle"
  else if String.eqb t "unknown" then Some "Unknown"
  else None.

Definition upper_ascii (c : ascii) : ascii :=
  let n := nat_of_ascii c in
  if (97 <=? n)%nat && (n <=? 122)%nat then ascii_of_nat (n - 32) else c.

(** [nameMap[type] || type.charAt(0).toUpperCase() + type.slice(1)]. *)
Definition display_name (t : string) : string :=
  match nameMap t with
  | Some n => n
  | None => match t with
            | EmptyString => EmptyString
            | String c r => String (upper_ascii c) r
            end
  end.

(** [activityMap] is an object literal [{}]: its own properties, in creation
    order, are the association list; [activityMap[type]] also finds the two
    lower-case names inherited from [Object.prototype], which are truthy and
    so are never initialised as own properties. *)
Definition ActivityMap := list (string * Slice).

Definition inherited (key : string) : bool :=
  String.eqb key "constructor" || String.eqb key "__proto__".

Fixpoint own (m : ActivityMap) (key : string) : option Slice :=
  match m with
  | [] => None
  | (k, v) :: r => if String.eqb k key then Some v else own r key
  end.

Fixpoint update (m : ActivityMap) (key : string) (f : Slice -> Slice) : ActivityMap :=
  match m with
  | [] => []
  | (k, v) :: r => if String.eqb k key then (k, f v) :: r else (k, v) :: update r key f
  end.

(** The two [+=] of lines 223-224. *)
Definition accumulate (log : ActivityLog) (item : Slice) : Slice :=
  {| name := name item;
     value := value item + or_default (duration_seconds log) 0;
     emissions := emissions item + or_default (co2_grams log) 0;
     type := type item;
     percent := percent item |}.

(** The body of [data.forEach] (lines 203-225).  For an inherited name the
    two [+=] write to the prototype's object and [activityMap] gains no own
    property. *)
Definition addLog (m : ActivityMap) (log : ActivityLog) : ActivityMap :=
  let t := toLowerCase (type_or_unknown (activity_type log)) in
  if inherited t then m
  else
    let m' :=
      match own m t with
      | Some _ => m
      | None => (m ++ [(t, {| name := display_name t; value := 0; emissions := 0;
                              type := t; percent := 0 |})])%list
      end in
    update m' t (accumulate log).

Definition aggregate (data : list ActivityLog) : ActivityMap :=
  fold_left addLog data [].

(** Property keys that are array indices (canonical decimal numerals below
    2^32 - 1) are enumerated first, in ascending order. *)
Definition array_index (key : string) : option N :=
  match NilEmpty.uint_of_string key with
  | Some u =>
      let n := N.of_uint u in
      if String.eqb (NilZero.string_of_uint (N.to_uint n)) key && (n <? 4294967295)%N
      then Some n else None
  | None => None
  end.

Fixpoint insert_index (e : N * Slice) (l : list (N * Slice)) : list (N * Slice) :=
  match l with
  | [] => [e]
  | h :: r => if (fst e <? fst h)%N then e :: l else h :: insert_index e r
  end.

(** [Object.values(activityMap)]. *)
Definition Object_values (m : ActivityMap) : list Slice :=
  let indexed :=
    fold_right (fun kv acc => match array_index (fst kv) with
                              | Some i => insert_index (i, snd kv) acc
                              | None => acc
                              end) [] m in
  let named := filter (fun kv => match array_index (fst kv) with
                                 | Some _ => false | None => true end) m in
  (map snd indexed ++ map snd named)%list.

(** Lines 227-234: keep the activities with data and convert to minutes. *)
Definition toMinutes (item : Slice) : Slice :=
  {| name := name item;
     value := Math_round (value item / 60);
     emissions := emissions item;
     type := type item;
     percent := 0 |}.

Definition chartData (m : ActivityMap) : list Slice :=
  map toMinutes (filter (fun item => gt (value item) 0) (Object_values m)).

(** Line 237. *)
Definition totalMinutes (items : list Slice) : float :=
  fold_left (fun sum item => sum + value item) items 0.

(** Line 239. *)
Definition percentOf (total : float) (item : Slice) : float :=
  if gt total 0 then (value item / total) * 100 else 0.

Definition withPercent (total : float) (item : Slice) : Slice :=
  {| name := name item;
     value := value item;
     emissions := emissions item;
     type := type item;
     percent := percentOf total item |}.

(** The chart's data (lines 193-240); with no data the component returns
    before anything is computed. *)
Definition breakdown (data : list ActivityLog) : list Slice :=
  match data with
  | [] => []
  | _ =>
      let items := chartData (aggregate data) in
      let total := totalMinutes items in
      map (withPercent total) items
  end.

End EmissionChart.

(** ** pages/Analyzer.jsx (the tracker's timer) *)

Module Analyzer.
Import JS.
Local Open Scope string_scope.

(** [Math.floor(x)]: [NaN], the infinities, the zeros and integral values
    are returned as they are; a value in (0, 1) gives [+0]. *)
Definition Math_floor (x : float) : float :=
  match Prim2SF x with
  | S754_finite s m e =>
      if (0 <=? e)%Z then x
      else
        let n := (cond_Zopp s (Zpos m) / 2 ^ (- e))%Z in
        if (n =? 0)%Z then zero else Z2float n
  | _ => x
  end.

(** [n % d] on Numbers: the remainder of the truncating division, computed
    exactly, with the sign of the dividend. *)
Definition rem (n d : float) : float :=
  match Prim2SF n, Prim2SF d with
  | S754_nan, _ | _, S754_nan => nan
  | S754_infinity _, _ => nan
  | _, S754_infinity _ => n
  | _, S754_zero _ => nan
  | S754_zero _, _ => n
  | S754_finite sn mn en, S754_finite _ md ed =>
      let e := Z.min en ed in
      let r := ((Zpos mn * 2 ^ (en - e)) mod (Zpos md * 2 ^ (ed - e)))%Z in
      if (r =? 0)%Z then (if sn then neg_zero else zero)
      else SF2Prim (binary_normalize prec emax (cond_Zopp sn r) e false)
  end.

(** The decimal digits of a non-negative integer. *)
Definition digits (n : Z) : string :=
  NilZero.string_of_uint (N.to_uint (Z.to_N n)).

(** [Number.prototype.toString] where its result is a plain numeral: [NaN],
    the infinities, the zeros, and the integers of magnitude below 2^53,
    which print all their digits.  [None] stands for the results that are
    not spelled out here: those of a value that is not an integer, or of an
    integer from 2^53 on (the shortest digits that read back as the value,
    in exponent notation from 1e21). *)
Definition toString (x : float) : option string :=
  match Prim2SF x with
  | S754_nan => Some "NaN"
  | S754_infinity s => Some (if s then "-Infinity" else "Infinity")
  | S754_zero _ => Some "0"
  | S754_finite s m e =>
      let sign := if s then "-" else "" in
      if (0 <=? e)%Z then
        (if (e =? 0)%Z then Some (sign ++ digits (Zpos m)) else None)
      else if (Zpos m mod 2 ^ (- e) =? 0)%Z
           then Some (sign ++ digits (Zpos m / 2 ^ (- e)))
           else None
  end.

Fixpoint zeros (k : nat) : string :=
  match k with
  | O => EmptyString
  | S k' => String "0" (zeros k')
  end.

(** [s.padStart(targetLength, '0')]. *)
Definition padStart (s : string) (targetLength : nat) : string :=
  zeros (targetLength - String.length s) ++ s.

(** Lines 590-595, on the Number [seconds].  The result is [None] where
    [toString] is: when a field is not an integer below 2^53. *)
Definition formatTime (seconds : float) : option string :=
  let hrs := Math_floor (seconds / 3600) in
  let mins := Math_floor (rem seconds 3600 / 60) in
  let secs := rem seconds 60 in
  match toString hrs, toString mins, toString secs with
  | Some h, Some m, Some s =>
      Some (padStart h 2 ++ ":" ++ padStart m 2 ++ ":" ++ padStart s 2)
  | _, _, _ => None
  end.

(** The interval callback of the tracker (lines 534-537): the whole seconds
    between [startTime] and [now], both in milliseconds, which becomes the
    [duration] that is displayed. *)
Definition elapsed (now startTime : float) : float :=
  Math_floor ((now - startTime) / 1000).

End Analyzer.

(** ** The backend estimator *)

Module Estimator.
Local Open Scope string_scope.
Local Open Scope float_scope.

(** The error taxonomy of the estimation core. *)
Inductive Error :=
| InvalidActivityType
| InvalidDuration
| InvalidPeriod
| EstimationError.

Inductive Quality := low | medium | high.
Inductive DeviceType := mobile | desktop | server.

Record Metadata := {
  quality : option Quality;
  device_type : option DeviceType
}.

Record EmissionResult := {
  energy_kwh : float;
  co2_grams : float;
  power_watts : float;
  cpu_load_factor : float
}.

(** Modelled from the spec: the backend constant [GRID_INTENSITY] of
    [backend/main.py], which is not among the sources; grams of CO2 per kWh,
    default 475. *)
Definition GRID_INTENSITY : float := 475.

(** Modelled from the spec: the base power table (watts) of the backend
    estimator, which is not among the sources; an activity type outside the
    table has no entry. *)
Definition base_power (activity_type : string) : option float :=
  if String.eqb activity_type "youtube" then Some 15
  else if String.eqb activity_type "ott" then Some 18
  else if String.eqb activity_type "browsing" then Some 8
  else if String.eqb activity_type "gmail" then Some 5
  else if String.eqb activity_type "code_execution" then Some 50
  else if String.eqb activity_type "idle" then Some 3
  else None.

(** Modelled from the spec: [clamp(x, lo, hi)] of the CPU load
    normalisation. *)
Definition clamp (x lo hi : float) : float :=
  if x <? lo then lo else if hi <? x then hi else x.

(** Modelled from the spec: the CPU load factor
    [clamp(cpu_percent / 50, 0.5, 2.0)]. *)
Definition cpu_factor (cpu_percent : float) : float :=
  clamp (cpu_percent / 50) 0.5 2.

(** Modelled from the spec: quality adjustment, high 1.3, low 0.7,
    medium or absent 1.0. *)
Definition quality_factor (q : option Quality) : float :=
  match q with
  | Some high => 1.3
  | Some low => 0.7
  | Some medium | None => 1
  end.

(** Modelled from the spec: device adjustment, mobile 0.5, server 1.5,
    desktop or absent 1.0. *)
Definition device_factor (d : option DeviceType) : float :=
  match d with
  | Some mobile => 0.5
  | Some server => 1.5
  | Some desktop | None => 1
  end.

Definition all_finite (r : EmissionResult) : bool :=
  is_finite (energy_kwh r) && is_finite (co2_grams r)
  && is_finite (power_watts r) && is_finite (cpu_load_factor r).

(** Modelled from the spec: [estimate] of the backend
    ([estimate_carbon_footprint] of [backend/main.py], which is not among
    the sources), section 4.1: table lookup, rejection of negative
    durations, effective power, energy, CO2, and rejection of non-finite
    results. *)
Definition estimate (activity_type : string) (duration_seconds : float)
           (metadata : Metadata) (cpu_percent : float) : Error + EmissionResult :=
  match base_power activity_type with
  | None => inl InvalidActivityType
  | Some base =>
      if duration_seconds <? 0 then inl InvalidDuration
      else
        let factor := cpu_factor cpu_percent in
        let power := base * factor * quality_factor (quality metadata)
                     * device_factor (device_type metadata) in
        let energy := power * (duration_seconds / 3600) / 1000 in
        let r := {| energy_kwh := energy;
                    co2_grams := energy * GRID_INTENSITY;
                    power_watts := power;
                    cpu_load_factor := factor |} in
        if all_finite r then inr r else inl EstimationError
  end.

End Estimator.

(** ** The aggregation as a group-by

  Notions in which the result of the aggregation loop of
  ActivityBreakdownChart is stated; they are not part of the source. *)

Module GroupBy.
Import JS EmissionChart.
Local Open Scope string_scope.
Local Open Scope float_scope.

(** The property key under which a log is filed (line 204). *)
Definition keyOf (log : ActivityLog) : string :=
  toLowerCase (type_or_unknown (activity_type log)).

(** The logs filed under [t], in the order of the input. *)
Definition logsOf (t : string) (data : list ActivityLog) : list ActivityLog :=
  filter (fun log => String.eqb (keyOf log) t) data.

(** A running sum over logs, from 0 and in their order, of a property that
    defaults to 0 (lines 223-224). *)
Definition sumOf (f : ActivityLog -> option float) (logs : list ActivityLog) : float :=
  fold_left (fun acc log => acc + or_default (f log) 0) logs 0.

(** The keys of the logs in the order of their first occurrence, without
    the names inherited from [Object.prototype]. *)
Definition firstKeys (data : list ActivityLog) : list string :=
  fold_left (fun ks log =>
               let t := keyOf log in
               if inherited t || existsb (String.eqb t) ks then ks else (ks ++ [t])%list)
            data [].

(** The entry of [activityMap] for the key [t]. *)
Definition groupOf (t : string) (data : list ActivityLog) : Slice :=
  {| name := display_name t;
     value := sumOf duration_seconds (logsOf t data);
     emissions := sumOf co2_grams (logsOf t data);
     type := t;
     percent := 0 |}.

End GroupBy.

(** ** Binary64 values as integers

  Notions used to reason about the operations of [SpecFloat] at
  [prec = 53], [emax = 1024]. *)

Module Binary64.
Local Open Scope Z_scope.

(** [V / 2^n] rounded to the nearest integer, ties to even. *)
Definition rne (V n : Z) : Z :=
  let q := V / 2 ^ n in
  let r := V mod 2 ^ n in
  match (2 * r ?= 2 ^ n) with
  | Lt => q
  | Eq => if Z.even q then q else q + 1
  | Gt => q + 1
  end.

(** The key of [+Infinity]. *)
Definition KINF : Z := 2047 * 2 ^ 52.

(** The key of a number: its position in the order of binary64 values
    (for a positive number, its bit pattern read as an integer).  [NaN] has
    no key and both zeros have key 0. *)
Definition skey (x : spec_float) : option Z :=
  match x with
  | S754_nan => None
  | S754_zero _ => Some 0
  | S754_infinity s => Some (cond_Zopp s KINF)
  | S754_finite s m e => Some (cond_Zopp s ((e + 1074) * 2 ^ 52 + Zpos m))
  end.

(** The key of the binary64 number nearest to [V * 2^-B], for [V >= 0]. *)
Definition KV (B V : Z) : Z :=
  let sh := Z.max (Z.log2 V + 1 - 53) (B - 1074) in
  Z.min ((sh - (B - 1074)) * 2 ^ 52 + rne V sh) KINF.

(** The same for an integer [v] of either sign. *)
Definition sKV (B v : Z) : Z := Z.sgn v * KV B (Z.abs v).

(** [x] is not [NaN] and carries the sign [s]. *)
Definition signed (s : bool) (x : spec_float) : Prop :=
  match x with
  | S754_nan => False
  | S754_zero s' | S754_infinity s' | S754_finite s' _ _ => s' = s
  end.

(** The exact value of a finite number, in units of [2^-1074]. *)
Definition SV (x : spec_float) : Z :=
  match x with
  | S754_finite s m e => cond_Zopp s (Zpos m * 2 ^ (e + 1074))
  | _ => 0
  end.

Definition is_finite_SF (x : spec_float) : bool :=
  match x with
  | S754_finite _ _ _ | S754_zero _ => true
  | _ => false
  end.

Definition not_nan (x : spec_float) : bool :=
  match x with S754_nan => false | _ => true end.

(** A bound beyond every scaled finite value, standing for infinity. *)
Definition BIG : Z := 2 ^ 4000.

(** The value extended to the infinities. *)
Definition EV (x : spec_float) : Z :=
  match x with
  | S754_infinity s => cond_Zopp s BIG
  | _ => SV x
  end.

Definition cmp_keys (a b : option Z) : option comparison :=
  match a, b with
  | Some a, Some b => Some (a ?= b)
  | _, _ => None
  end.

Definition opt_rel (r : Z -> Z -> bool) (a b : option Z) : bool :=
  match a, b with
  | Some a, Some b => r a b
  | _, _ => false
  end.

(** The same notions on primitive floats. *)
Definition fkey (x : float) : option Z := skey (Prim2SF x).
Definition FEV (x : float) : Z := EV (Prim2SF x).
Definition nn (x : float) : bool := not_nan (Prim2SF x).
Definition ff (x : float) : bool := is_finite_SF (Prim2SF x).

(** A number that is [NaN], a zero, or carries the sign [+]. *)
Definition nonneg_sf (x : spec_float) : Prop :=
  match x with
  | S754_nan | S754_zero _ => True
  | S754_infinity s | S754_finite s _ _ => s = false
  end.

Definition nonneg (x : float) : Prop := nonneg_sf (Prim2SF x).

(** The second half of [binary_round_aux]: the rounded mantissa [m1] at the
    canonical exponent [c] is brought back to 53 bits and checked for
    overflow. *)
Definition bra_finish (s : bool) (m1 c : Z) : spec_float :=
  let '(mrs'', e'') := shr_fexp prec emax m1 c loc_Exact in
  match shr_m mrs'' with
  | 0 => S754_zero s
  | Z.pos m => if e'' <=? emax - prec then S754_finite s m e'' else S754_infinity s
  | Z.neg _ => S754_nan
  end.

(** The key of 1. *)
Definition KONE : Z := 1023 * 2 ^ 52.

(** [floor (v * 2^-1074 + 1/2)]: the integer [Math.round] yields on the
    value [v * 2^-1074]. *)
Definition RZ (v : Z) : Z := (2 * v + 2 ^ 1074) / 2 ^ 1075.

(** The number [2^k], for [0 <= k <= 1023]. *)
Definition pow2_sf (k : Z) : spec_float := S754_finite false (Z.to_pos (2 ^ 52)) (k - 52).

(** [x] is a number between 0 and [2^k]. *)
Definition below (k : Z) (x : float) : Prop :=
  nn x = true /\ 0 <= FEV x <= 2 ^ (k + 1074).

End Binary64.

(** * Binary64 arithmetic *)

(** ** Rounding on integers and the operations of [SpecFloat] *)

Module Binary64Facts.
  Import Binary64.
  Local Open Scope Z_scope.

Lemma rne_bounds V n : 0 <= n -> V / 2 ^ n <= rne V n <= V / 2 ^ n + 1.
Proof.
  intros Hn. unfold rne. destruct (2 * (V mod 2 ^ n) ?= 2 ^ n); try destruct (Z.even _); lia.
Qed.

Lemma rne_mono V W n : 0 <= n -> V <= W -> rne V n <= rne W n.
Proof.
  intros Hn HVW.
  assert (Hp : 0 < 2 ^ n) by (apply Z.pow_pos_nonneg; lia).
  pose proof (Z.div_le_mono V W (2 ^ n) Hp HVW) as Hq.
  destruct (Z.eq_dec (V / 2 ^ n) (W / 2 ^ n)) as [He|Hne].
  - assert (Hr : V mod 2 ^ n <= W mod 2 ^ n).
    { pose proof (Z.div_mod V (2 ^ n)). pose proof (Z.div_mod W (2 ^ n)). rewrite He in *. nia. }
    unfold rne. rewrite He.
    destruct (Z.compare_spec (2 * (V mod 2 ^ n)) (2 ^ n)), (Z.compare_spec (2 * (W mod 2 ^ n)) (2 ^ n));
      try destruct (Z.even _); lia.
  - pose proof (rne_bounds V n Hn). pose proof (rne_bounds W n Hn). lia.
Qed.

Lemma rne_scale V n k : 0 <= n -> 0 <= k -> rne (V * 2 ^ k) (n + k) = rne V n.
Proof.
  intros Hn Hk. unfold rne.
  assert (Hp : 0 < 2 ^ n) by (apply Z.pow_pos_nonneg; lia).
  assert (Hpk : 0 < 2 ^ k) by (apply Z.pow_pos_nonneg; lia).
  rewrite Z.pow_add_r by lia.
  rewrite Z.div_mul_cancel_r by lia.
  rewrite Zmult_mod_distr_r.
  replace (2 * (V mod 2 ^ n * 2 ^ k)) with ((2 * (V mod 2 ^ n)) * 2 ^ k) by ring.
  rewrite <- Zmult_compare_compat_r by lia. reflexivity.
Qed.

Lemma rne_exact m n : 0 <= n -> rne (m * 2 ^ n) n = m.
Proof.
  intros Hn. unfold rne.
  assert (Hp : 0 < 2 ^ n) by (apply Z.pow_pos_nonneg; lia).
  rewrite Z.div_mul by lia. rewrite Z.mod_mul by lia.
  destruct (Z.compare_spec (2 * 0) (2 ^ n)); try lia.
Qed.

Lemma div_pow2_lt V a b : 0 <= a -> 0 <= b -> 0 <= V < 2 ^ (a + b) -> V / 2 ^ a < 2 ^ b.
Proof.
  intros Ha Hb HV. apply Z.div_lt_upper_bound. apply Z.pow_pos_nonneg; lia.
  rewrite <- Z.pow_add_r by lia. lia.
Qed.

Lemma div_pow2_ge V a b : 0 <= a -> 0 <= b -> 2 ^ (a + b) <= V -> 2 ^ b <= V / 2 ^ a.
Proof.
  intros Ha Hb HV. apply Z.div_le_lower_bound. apply Z.pow_pos_nonneg; lia.
  rewrite <- Z.pow_add_r by lia. lia.
Qed.

Lemma KV_mono B V W : 1074 <= B -> 0 <= V <= W -> KV B V <= KV B W.
Proof.
  intros HB [HV HVW]. unfold KV.
  pose proof (Z.log2_le_mono V W HVW) as Hl.
  set (shV := Z.max (Z.log2 V + 1 - 53) (B - 1074)).
  set (shW := Z.max (Z.log2 W + 1 - 53) (B - 1074)).
  assert (HshV : 0 <= shV) by lia.
  assert (Hsh : shV <= shW) by lia.
  apply Z.min_le_compat_r.
  destruct (Z.eq_dec shV shW) as [He|Hne].
  - rewrite He. pose proof (rne_mono V W shW ltac:(lia) HVW). lia.
  - assert (HW : shW = Z.log2 W + 1 - 53) by lia.
    assert (0 < W). { destruct (Z.eq_dec W 0); [subst W; simpl in *; lia | lia]. }
    pose proof (Z.log2_spec W ltac:(lia)) as [HW1 _].
    assert (2 ^ 52 <= W / 2 ^ shW).
    { apply div_pow2_ge; try lia. replace (shW + 52) with (Z.log2 W) by lia. exact HW1. }
    assert (V / 2 ^ shV < 2 ^ 53).
    { apply div_pow2_lt; try lia. split; [lia|].
      destruct (Z.eq_dec V 0) as [->|].
      - apply Z.pow_pos_nonneg; lia.
      - pose proof (Z.log2_spec V ltac:(lia)) as [_ HV2].
        eapply Z.lt_le_trans; [exact HV2|]. apply Z.pow_le_mono_r; lia. }
    pose proof (rne_bounds V shV HshV). pose proof (rne_bounds W shW ltac:(lia)).
    change (2 ^ 53) with (2 * 2 ^ 52) in *.
    nia.
Qed.

(** shr *)
Lemma digits2_log2 p : Zpos (digits2_pos p) = Z.log2 (Zpos p) + 1.
Proof.
  induction p as [p IH|p IH|]; simpl digits2_pos; try reflexivity.
  - rewrite Pos2Z.inj_succ, IH. destruct p; simpl; lia.
  - rewrite Pos2Z.inj_succ, IH. destruct p; simpl; lia.
Qed.

Lemma shr_1_nonneg m r s : 0 <= m ->
  shr_1 {| shr_m := m; shr_r := r; shr_s := s |} =
  {| shr_m := m / 2; shr_r := Z.odd m; shr_s := r || s |}.
Proof.
  intros Hm. rewrite <- Z.div2_div.
  destruct m as [|p|p]; try lia.
  - reflexivity.
  - destruct p as [p|p|]; reflexivity.
Qed.

Lemma iter_pos_nat {A} (f : A -> A) p x : iter_pos f p x = Nat.iter (Pos.to_nat p) f x.
Proof.
  revert x. induction p as [p IH|p IH|]; intros x; simpl iter_pos.
  - rewrite !IH. rewrite Pos2Nat.inj_xI. simpl. rewrite <- Nat.iter_add.
    replace (Pos.to_nat p + Pos.to_nat p)%nat with (Pos.to_nat p + (Pos.to_nat p + 0))%nat by lia.
    rewrite <- Nat.iter_succ_r. reflexivity.
  - rewrite !IH. rewrite Pos2Nat.inj_xO. simpl. rewrite <- Nat.iter_add.
    replace (Pos.to_nat p + Pos.to_nat p)%nat with (Pos.to_nat p + (Pos.to_nat p + 0))%nat by lia.
    reflexivity.
  - reflexivity.
Qed.

Lemma shr_iter M k : 0 <= M ->
  Nat.iter (S k) shr_1 {| shr_m := M; shr_r := false; shr_s := false |} =
  {| shr_m := M / 2 ^ Z.of_nat (S k);
     shr_r := Z.odd (M / 2 ^ Z.of_nat k);
     shr_s := negb (M mod 2 ^ Z.of_nat k =? 0) |}.
Proof.
  intros HM. induction k as [|k IH].
  - unfold Nat.iter; cbn [nat_rect]. rewrite shr_1_nonneg by lia. simpl Z.of_nat.
    rewrite Z.pow_0_r, Z.div_1_r, Z.mod_1_r. reflexivity.
  - rewrite Nat.iter_succ, IH.
    assert (Hp : 0 < 2 ^ Z.of_nat (S k)) by (apply Z.pow_pos_nonneg; lia).
    assert (Hpk : 0 < 2 ^ Z.of_nat k) by (apply Z.pow_pos_nonneg; lia).
    rewrite shr_1_nonneg by (apply Z.div_pos; lia).
    f_equal.
    + rewrite Z.div_div by lia. f_equal.
      rewrite (Nat2Z.inj_succ (S k)), Z.pow_succ_r by lia. ring.
    + assert (E : 2 ^ Z.of_nat (S k) = 2 ^ Z.of_nat k * 2).
      { rewrite Nat2Z.inj_succ, Z.pow_succ_r by lia. ring. }
      rewrite E. rewrite Z.rem_mul_r by lia.
      rewrite <- Z.bit0_mod. 
      destruct (Z.odd (M / 2 ^ Z.of_nat k)) eqn:Ho.
      * rewrite Z.bit0_odd, Ho. simpl.
        pose proof (Z.mod_pos_bound M (2 ^ Z.of_nat k) Hpk).
        symmetry. apply negb_true_iff, Z.eqb_neq. change (Z.b2z true) with 1. lia.
      * rewrite Z.bit0_odd, Ho. simpl. change (Z.b2z false) with 0.
        rewrite Z.mul_0_r, Z.add_0_r. reflexivity.
Qed.

Lemma fexp_eq z : fexp prec emax z = Z.max (z - 53) (-1074).
Proof. reflexivity. Qed.

Lemma shr_rne M E n : 0 <= M ->
  let '(mrs, e') := shr (shr_record_of_loc M loc_Exact) E n in
  e' = E + Z.max n 0 /\
  round_nearest_even (shr_m mrs) (loc_of_shr_record mrs) = rne M (Z.max n 0).
Proof.
  intros HM. destruct n as [|p|p]; simpl shr.
  - split; [lia|]. simpl. rewrite <- (Z.mul_1_r M) at 2. change 1 with (2 ^ 0).
    rewrite rne_exact; lia.
  - split; [lia|].
    rewrite iter_pos_nat.
    destruct (Pos2Nat.is_succ p) as [k Hk]. rewrite Hk.
    unfold shr_record_of_loc. rewrite shr_iter by lia.
    assert (Hn : Z.max (Z.pos p) 0 = Z.of_nat k + 1) by lia.
    rewrite Hn. replace (Z.of_nat (S k)) with (Z.of_nat k + 1) by lia.
    assert (Hpk : 0 < 2 ^ Z.of_nat k) by (apply Z.pow_pos_nonneg; lia).
    unfold rne.
    assert (E2 : 2 ^ (Z.of_nat k + 1) = 2 ^ Z.of_nat k * 2).
    { rewrite Z.pow_add_r by lia. reflexivity. }
    rewrite E2. rewrite Z.rem_mul_r by lia.
    pose proof (Z.mod_pos_bound M (2 ^ Z.of_nat k) Hpk) as Hlow.
    rewrite <- Z.bit0_mod, Z.bit0_odd.
    cbn [shr_m loc_of_shr_record].
    destruct (Z.odd (M / 2 ^ Z.of_nat k)); cbn [Z.b2z].
    + destruct (Z.eqb_spec (M mod 2 ^ Z.of_nat k) 0) as [H0|H0]; cbn [negb round_nearest_even].
      * rewrite H0.
        replace (2 * (0 + 2 ^ Z.of_nat k * 1) ?= 2 ^ Z.of_nat k * 2) with Eq; [reflexivity|].
        symmetry. apply Z.compare_eq_iff. ring.
      * replace (2 * (M mod 2 ^ Z.of_nat k + 2 ^ Z.of_nat k * 1) ?= 2 ^ Z.of_nat k * 2) with Gt; [reflexivity|].
        symmetry. apply Z.compare_gt_iff. lia.
    + replace (2 * (M mod 2 ^ Z.of_nat k + 2 ^ Z.of_nat k * 0) ?= 2 ^ Z.of_nat k * 2) with Lt.
      2:{ symmetry. apply Z.compare_lt_iff. lia. }
      destruct (negb _); reflexivity.
  - split; [lia|]. simpl. rewrite <- (Z.mul_1_r M) at 2. change 1 with (2 ^ 0).
    rewrite rne_exact; lia.
Qed.

Lemma valid_bounds m e : bounded prec emax m e = true ->
  -1074 <= e <= 971 /\ Zpos m < 2 ^ 53 /\ (-1074 < e -> 2 ^ 52 <= Zpos m).
Proof.
  unfold bounded, canonical_mantissa. rewrite andb_true_iff, Z.eqb_eq, Z.leb_le, fexp_eq.
  rewrite digits2_log2. change (emax - prec) with 971.
  intros [Hc He].
  pose proof (Z.log2_spec (Zpos m) ltac:(lia)) as [H1 H2].
  repeat split; try lia.
  - eapply Z.lt_le_trans; [exact H2|]. apply Z.pow_le_mono_r; lia.
  - intros Hn. eapply Z.le_trans; [|exact H1]. apply Z.pow_le_mono_r; lia.
Qed.

Lemma bounded_intro m e : -1074 <= e <= 971 -> 0 < m < 2 ^ 53 -> (-1074 < e -> 2 ^ 52 <= m) ->
  bounded prec emax (Z.to_pos m) e = true.
Proof.
  intros He Hm Hn.
  unfold bounded, canonical_mantissa. rewrite andb_true_iff, Z.eqb_eq, Z.leb_le, fexp_eq.
  rewrite digits2_log2. change (emax - prec) with 971. rewrite Z2Pos.id by lia.
  split; [|lia].
  assert (Z.log2 m < 53) by (apply Z.log2_lt_pow2; lia).
  destruct (Z.eq_dec e (-1074)) as [->|Hne]; [lia|].
  assert (52 <= Z.log2 m) by (apply Z.log2_le_pow2; lia).
  lia.
Qed.

Ltac pow_consts :=
  unfold KINF in *;
  change (2 ^ 52) with 4503599627370496 in *;
  change (2 ^ 53) with 9007199254740992 in *.

(** ** [binary_round_aux] *)

Lemma shr_m_iter k m r s : 0 <= m ->
  shr_m (Nat.iter k shr_1 {| shr_m := m; shr_r := r; shr_s := s |}) = m / 2 ^ Z.of_nat k.
Proof.
  intros Hm. induction k as [|k IH].
  - cbn. rewrite Z.div_1_r. reflexivity.
  - rewrite Nat.iter_succ.
    destruct (Nat.iter k shr_1 _) as [m' r' s'] eqn:E. cbn [shr_m] in IH.
    assert (0 <= m') by (rewrite IH; apply Z.div_pos; [lia | apply Z.pow_pos_nonneg; lia]).
    rewrite shr_1_nonneg by assumption. cbn [shr_m]. rewrite IH.
    rewrite Z.div_div by (try apply Z.pow_pos_nonneg; lia).
    f_equal. rewrite Nat2Z.inj_succ, Z.pow_succ_r by lia. ring.
Qed.

Lemma round_nearest_even_bounds m l : m <= round_nearest_even m l <= m + 1.
Proof. destruct l as [|[| |]]; cbn; try destruct (Z.even m); lia. Qed.

(** The first shift of [binary_round_aux], whatever the location. *)
Lemma shr_any M lx E n : 0 <= M ->
  let '(mrs, e') := shr (shr_record_of_loc M lx) E n in
  e' = E + Z.max n 0 /\ shr_m mrs = M / 2 ^ Z.max n 0.
Proof.
  intros HM.
  assert (Hrec : exists r s, shr_record_of_loc M lx = {| shr_m := M; shr_r := r; shr_s := s |})
    by (destruct lx as [|[| |]]; cbn; eauto).
  destruct Hrec as (r & s & ->).
  destruct n as [|p|p]; cbn [shr].
  - split; [lia|]. cbn. rewrite Z.div_1_r. reflexivity.
  - split; [lia|]. rewrite iter_pos_nat, shr_m_iter by lia.
    rewrite positive_nat_Z. reflexivity.
  - split; [lia|]. cbn. rewrite Z.div_1_r. reflexivity.
Qed.

Lemma bra_tail s m1 c :
  -1074 <= c -> 0 <= m1 <= 2 ^ 53 -> (-1074 < c -> 2 ^ 52 <= m1) ->
  valid_binary (bra_finish s m1 c) = true /\ signed s (bra_finish s m1 c) /\
  skey (bra_finish s m1 c) = Some (cond_Zopp s (Z.min ((c + 1074) * 2 ^ 52 + m1) KINF)).
Proof.
  intros Hc0 Hm1 Hm1n. unfold bra_finish, shr_fexp.
  destruct (Z.eq_dec m1 0) as [->|Hm0].
  { assert (c = -1074) by (pow_consts; lia). subst c.
    cbn. repeat split. destruct s; reflexivity. }
  destruct (Z.eq_dec m1 (2 ^ 53)) as [->|Hm53].
  { change (2 ^ 53) with 9007199254740992.
    cbn [Zdigits2 digits2_pos Pos.succ]. rewrite fexp_eq.
    replace (Z.max (54 + c - 53) (-1074) - c) with 1 by lia.
    cbn [shr shr_record_of_loc iter_pos shr_1 shr_m].
    change (emax - prec) with 971.
    destruct (Z.leb_spec (c + 1) 971) as [Hle|Hgt].
    - cbn [valid_binary signed skey]. split; [|split; [reflexivity|]].
      + apply (bounded_intro 4503599627370496 (c + 1)); [lia| split; reflexivity | intros _; apply Z.le_refl].
      + f_equal. f_equal. pow_consts. rewrite Z.min_l; lia.
    - cbn [valid_binary signed skey]. repeat split.
      f_equal. f_equal. pow_consts. rewrite Z.min_r; lia. }
  assert (Hpos : 0 < m1 < 2 ^ 53) by lia.
  destruct m1 as [|p|p]; try lia.
  cbn [Zdigits2]. rewrite digits2_log2, fexp_eq.
  assert (Hlp : Z.log2 (Zpos p) < 53) by (apply Z.log2_lt_pow2; lia).
  assert (Hlp0 : 0 <= Z.log2 (Zpos p)) by apply Z.log2_nonneg.
  assert (Hlpn : -1074 < c -> 52 <= Z.log2 (Zpos p)).
  { intros Hc. apply Z.log2_le_pow2; [lia|]. auto. }
  replace (Z.max (Z.log2 (Z.pos p) + 1 + c - 53) (-1074) - c) with 0 by lia.
  cbn [shr shr_record_of_loc shr_m].
  change (emax - prec) with 971.
  destruct (Z.leb_spec c 971) as [Hle|Hgt].
  - cbn [valid_binary signed skey]. split; [|split; [reflexivity|]].
    + apply (bounded_intro (Zpos p) c); [lia| lia | auto].
    + f_equal. f_equal. pow_consts. rewrite Z.min_l; lia.
  - cbn [valid_binary signed skey]. repeat split.
    f_equal. f_equal. specialize (Hm1n ltac:(lia)). pow_consts. rewrite Z.min_r; lia.
Qed.

(** [binary_round_aux] on a non-negative mantissa with any location: the
    mantissa is shifted to the canonical exponent [c] and rounded to one of
    its two neighbours. *)
Lemma bra_gen s mx ex lx :
  0 <= mx ->
  let c := fexp prec emax (Zdigits2 mx + ex) in
  ex <= c ->
  exists m1,
    mx / 2 ^ (c - ex) <= m1 <= mx / 2 ^ (c - ex) + 1 /\ m1 <= 2 ^ 53 /\
    (lx = loc_Exact -> m1 = rne mx (c - ex)) /\
    let R := binary_round_aux prec emax s mx ex lx in
    valid_binary R = true /\ signed s R /\
    skey R = Some (cond_Zopp s (Z.min ((c + 1074) * 2 ^ 52 + m1) KINF)).
Proof.
  intros Hmx c Hfine.
  assert (Hcdef : c = Z.max (Zdigits2 mx + ex - 53) (-1074)) by (unfold c; apply fexp_eq).
  set (n := c - ex).
  assert (Hndef : n = c - ex) by reflexivity.
  assert (Hn : 0 <= n) by lia.
  assert (Hc0 : -1074 <= c) by lia.
  (* the quotient *)
  assert (Hq0 : 0 <= mx / 2 ^ n) by (apply Z.div_pos; [lia | apply Z.pow_pos_nonneg; lia]).
  assert (Hq : mx / 2 ^ n < 2 ^ 53 /\ (-1074 < c -> 2 ^ 52 <= mx / 2 ^ n)).
  { clearbody n c. destruct mx as [|M|M]; try lia.
    - rewrite Z.div_0_l by (apply Z.pow_nonzero; lia). split; [reflexivity|].
      intros Hc. exfalso. cbn [Zdigits2] in *. lia.
    - cbn [Zdigits2] in *. rewrite digits2_log2 in *.
      pose proof (Z.log2_spec (Zpos M) ltac:(lia)) as [HM1 HM2].
      pose proof (Z.log2_nonneg (Zpos M)) as Hl.
      set (l := Z.log2 (Zpos M)) in *. clearbody l.
      split.
      + apply div_pow2_lt; try lia. split; [lia|].
        eapply Z.lt_le_trans; [exact HM2|]. apply Z.pow_le_mono_r; lia.
      + intros Hc. apply div_pow2_ge; try lia.
        eapply Z.le_trans; [|exact HM1]. apply Z.pow_le_mono_r; lia. }
  destruct Hq as [Hq Hnorm].
  assert (Hex : exists m1,
    mx / 2 ^ n <= m1 <= mx / 2 ^ n + 1 /\ (lx = loc_Exact -> m1 = rne mx n) /\
    binary_round_aux prec emax s mx ex lx = bra_finish s m1 c).
  { unfold binary_round_aux, bra_finish. unfold shr_fexp at 1. fold c. fold n.
    pose proof (shr_any mx lx ex n Hmx) as Hs.
    pose proof (shr_rne mx ex n Hmx) as Hs'.
    destruct (shr (shr_record_of_loc mx lx) ex n) as [mrs' e'] eqn:Eshr.
    destruct Hs as [He' Hm'].
    rewrite Z.max_l in He', Hm' by lia.
    replace e' with c by lia.
    exists (round_nearest_even (shr_m mrs') (loc_of_shr_record mrs')).
    split; [rewrite <- Hm'; apply round_nearest_even_bounds|].
    split; [|reflexivity].
    intros ->. rewrite Eshr in Hs'. destruct Hs' as [_ Hr].
    rewrite Z.max_l in Hr by lia. exact Hr. }
  destruct Hex as (m1 & Hb & Hexact & ->).
  exists m1. split; [exact Hb|]. split; [lia|]. split; [exact Hexact|].
  cbv zeta. apply bra_tail; [exact Hc0 | lia | intros Hc; specialize (Hnorm Hc); lia].
Qed.

Lemma bra_key s M E B :
  1074 <= B -> 0 <= E + B ->
  E <= fexp prec emax (Zpos (digits2_pos M) + E) ->
  let R := binary_round_aux prec emax s (Zpos M) E loc_Exact in
  valid_binary R = true /\ signed s R /\
  skey R = Some (cond_Zopp s (KV B (Zpos M * 2 ^ (E + B)))).
Proof.
  intros HB HEB Hfine.
  destruct (bra_gen s (Zpos M) E loc_Exact ltac:(lia) Hfine)
    as (m1 & _ & _ & Hr & Hv & Hs & Hk).
  rewrite (Hr eq_refl) in Hk. cbv zeta.
  split; [exact Hv|]. split; [exact Hs|]. rewrite Hk. do 2 f_equal.
  cbn [Zdigits2] in *. rewrite fexp_eq, digits2_log2 in *.
  pose proof (Z.log2_nonneg (Zpos M)) as Hl.
  unfold KV. rewrite Z.log2_mul_pow2 by lia.
  set (c := Z.max (Z.log2 (Zpos M) + 1 + E - 53) (-1074)) in *.
  replace (Z.max (E + B + Z.log2 (Zpos M) + 1 - 53) (B - 1074)) with ((c - E) + (E + B))
    by (unfold c; lia).
  rewrite rne_scale by lia.
  f_equal. f_equal. lia.
Qed.

Lemma KV_nonneg B V : 1074 <= B -> 0 <= V -> 0 <= KV B V.
Proof.
  intros HB HV. unfold KV.
  set (sh := Z.max (Z.log2 V + 1 - 53) (B - 1074)).
  pose proof (rne_bounds V sh ltac:(lia)).
  assert (0 <= V / 2 ^ sh) by (apply Z.div_pos; [lia | apply Z.pow_pos_nonneg; lia]).
  pow_consts. apply Z.min_glb; nia.
Qed.

Lemma KV_0 B : 1074 <= B -> KV B 0 = 0.
Proof.
  intros HB. unfold KV. change (Z.log2 0) with 0.
  rewrite Z.max_r by lia. unfold rne. rewrite Z.div_0_l, Z.mod_0_l by (apply Z.pow_nonzero; lia).
  assert (0 < 2 ^ (B - 1074)) by (apply Z.pow_pos_nonneg; lia).
  destruct (Z.compare_spec (2 * 0) (2 ^ (B - 1074))); try lia.
  pow_consts. lia.
Qed.

Lemma sKV_mono B v w : 1074 <= B -> v <= w -> sKV B v <= sKV B w.
Proof.
  intros HB Hvw. unfold sKV.
  pose proof (KV_nonneg B (Z.abs v) HB (Z.abs_nonneg v)).
  pose proof (KV_nonneg B (Z.abs w) HB (Z.abs_nonneg w)).
  destruct (Z.sgn_spec v) as [[Hv ->]|[[Hv ->]|[Hv ->]]],
           (Z.sgn_spec w) as [[Hw ->]|[[Hw ->]|[Hw ->]]]; try lia.
  - pose proof (KV_mono B (Z.abs v) (Z.abs w) HB ltac:(lia)). lia.
  - pose proof (KV_mono B (Z.abs w) (Z.abs v) HB ltac:(lia)). lia.
Qed.

Lemma iter_xO m d : Zpos (Pos.iter xO m d) = Zpos m * 2 ^ Zpos d.
Proof.
  induction d as [|d IH] using Pos.peano_ind.
  - simpl. lia.
  - rewrite Pos.iter_succ, Pos2Z.inj_xO, IH, Pos2Z.inj_succ, Z.pow_succ_r by lia. ring.
Qed.

Lemma binary_round_key s m e B :
  1074 <= B -> 0 <= e + B ->
  let R := binary_round prec emax s m e in
  valid_binary R = true /\ signed s R /\
  skey R = Some (cond_Zopp s (KV B (Zpos m * 2 ^ (e + B)))).
Proof.
  intros HB He. unfold binary_round, shl_align.
  rewrite fexp_eq, digits2_log2.
  set (c := Z.max (Z.log2 (Zpos m) + 1 + e - 53) (-1074)).
  destruct (c - e) as [|d|d] eqn:Hd.
  - apply bra_key; try lia. rewrite fexp_eq, digits2_log2. fold c. lia.
  - apply bra_key; try lia. rewrite fexp_eq, digits2_log2. fold c. lia.
  - assert (Hfine : c <= fexp prec emax (Zpos (digits2_pos (Pos.iter xO m d)) + c)).
    { rewrite fexp_eq, digits2_log2, iter_xO, Z.log2_mul_pow2 by lia. unfold c at 1. lia. }
    pose proof (bra_key s (Pos.iter xO m d) c B HB ltac:(unfold c; lia) Hfine) as H.
    cbv zeta in H.
    set (R := binary_round_aux prec emax s (Zpos (Pos.iter xO m d)) c loc_Exact) in *.
    clearbody R. rewrite iter_xO in H.
    replace (Zpos m * 2 ^ Zpos d * 2 ^ (c + B)) with (Zpos m * 2 ^ (e + B)) in H.
    2:{ rewrite <- Z.mul_assoc, <- Z.pow_add_r by (unfold c; lia). do 2 f_equal. lia. }
    exact H.
Qed.

Lemma cond_Zopp_sKV s B V : 0 <= V -> 1074 <= B ->
  cond_Zopp s (KV B V) = sKV B (cond_Zopp s V).
Proof.
  intros HV HB. unfold sKV.
  destruct (Z.eq_dec V 0) as [->|Hne].
  - rewrite KV_0 by lia. destruct s; reflexivity.
  - destruct s; cbn [cond_Zopp].
    + rewrite Z.sgn_neg, Z.abs_opp, Z.abs_eq by lia. lia.
    + rewrite Z.sgn_pos, Z.abs_eq by lia. lia.
Qed.

Lemma binary_normalize_key z e B :
  1074 <= B -> 0 <= e + B ->
  let R := binary_normalize prec emax z e false in
  valid_binary R = true /\ skey R = Some (sKV B (z * 2 ^ (e + B))).
Proof.
  intros HB He.
  assert (Hp : 0 < 2 ^ (e + B)) by (apply Z.pow_pos_nonneg; lia).
  destruct z as [|m|m]; cbn [binary_normalize].
  - split; reflexivity.
  - destruct (binary_round_key false m e B HB He) as (Hv & _ & Hk).
    split; [exact Hv|]. rewrite Hk, cond_Zopp_sKV by lia. reflexivity.
  - destruct (binary_round_key true m e B HB He) as (Hv & _ & Hk).
    split; [exact Hv|]. rewrite Hk, cond_Zopp_sKV by lia. cbn [cond_Zopp].
    do 2 f_equal. rewrite <- Z.mul_opp_l. reflexivity.
Qed.

Lemma skey_SV x : valid_binary x = true -> is_finite_SF x = true ->
  skey x = Some (sKV 1074 (SV x)).
Proof.
  destruct x as [s|s| |s m e]; try discriminate; intros Hv _.
  - reflexivity.
  - cbn [skey SV]. cbn [valid_binary] in Hv.
    destruct (valid_bounds m e Hv) as (He & Hm & Hn).
    assert (Hp : 0 < 2 ^ (e + 1074)) by (apply Z.pow_pos_nonneg; lia).
    rewrite <- cond_Zopp_sKV by lia. do 2 f_equal.
    unfold KV. rewrite Z.log2_mul_pow2 by lia.
    assert (Hl : Z.log2 (Zpos m) < 53) by (apply Z.log2_lt_pow2; lia).
    assert (Hl0 : 0 <= Z.log2 (Zpos m)) by apply Z.log2_nonneg.
    assert (Hln : -1074 < e -> 52 <= Z.log2 (Zpos m)).
    { intros Hc. apply Z.log2_le_pow2; [lia|]. auto. }
    replace (Z.max (e + 1074 + Z.log2 (Z.pos m) + 1 - 53) (1074 - 1074)) with (e + 1074) by lia.
    rewrite rne_exact by lia. pow_consts. rewrite Z.min_l; lia.
Qed.

Lemma key_bounds m e : bounded prec emax m e = true ->
  0 < (e + 1074) * 2 ^ 52 + Zpos m < KINF.
Proof.
  intros Hb. destruct (valid_bounds m e Hb) as (He & Hm & Hn). pow_consts. lia.
Qed.

Lemma key_lex m1 e1 m2 e2 :
  bounded prec emax m1 e1 = true -> bounded prec emax m2 e2 = true ->
  ((e1 + 1074) * 2 ^ 52 + Zpos m1 ?= (e2 + 1074) * 2 ^ 52 + Zpos m2) =
  match e1 ?= e2 with
  | Lt => Lt
  | Gt => Gt
  | Eq => Pos.compare_cont Eq m1 m2
  end.
Proof.
  intros H1 H2.
  destruct (valid_bounds m1 e1 H1) as (He1 & Hm1 & Hn1).
  destruct (valid_bounds m2 e2 H2) as (He2 & Hm2 & Hn2).
  pow_consts.
  destruct (Z.compare_spec e1 e2) as [->|Hlt|Hgt].
  - change (Pos.compare_cont Eq m1 m2) with (Zpos m1 ?= Zpos m2).
    destruct (Z.compare_spec (Zpos m1) (Zpos m2)) as [->|H|H].
    + apply Z.compare_refl.
    + apply Z.compare_lt_iff. lia.
    + apply Z.compare_gt_iff. lia.
  - apply Z.compare_lt_iff. specialize (Hn2 ltac:(lia)). lia.
  - apply Z.compare_gt_iff. specialize (Hn1 ltac:(lia)). lia.
Qed.

Lemma SFcompare_skey x y : valid_binary x = true -> valid_binary y = true ->
  SFcompare x y = cmp_keys (skey x) (skey y).
Proof.
  intros Hx Hy.
  destruct x as [sx|sx| |sx mx ex], y as [sy|sy| |sy my ey];
    cbn [SFcompare skey cmp_keys valid_binary] in *; try reflexivity.
  - destruct sy; reflexivity.
  - pose proof (key_bounds my ey Hy). destruct sy; cbn [cond_Zopp]; f_equal; symmetry.
    + apply Z.compare_gt_iff. lia.
    + apply Z.compare_lt_iff. lia.
  - destruct sx; reflexivity.
  - destruct sx, sy; reflexivity.
  - pose proof (key_bounds my ey Hy). destruct sx, sy; cbn [cond_Zopp]; f_equal; symmetry;
      first [apply Z.compare_gt_iff; lia | apply Z.compare_lt_iff; lia].
  - pose proof (key_bounds mx ex Hx). destruct sx; cbn [cond_Zopp]; f_equal; symmetry.
    + apply Z.compare_lt_iff. lia.
    + apply Z.compare_gt_iff. lia.
  - pose proof (key_bounds mx ex Hx). destruct sx, sy; cbn [cond_Zopp]; f_equal; symmetry;
      first [apply Z.compare_gt_iff; lia | apply Z.compare_lt_iff; lia].
  - pose proof (key_bounds mx ex Hx). pose proof (key_bounds my ey Hy).
    pose proof (key_lex mx ex my ey Hx Hy) as Hlex.
    destruct sx, sy; cbn [cond_Zopp]; f_equal.
    + rewrite Z.compare_opp, (Z.compare_antisym ((ex + 1074) * 2 ^ 52 + Z.pos mx)), Hlex.
      destruct (ex ?= ey); reflexivity.
    + symmetry. apply Z.compare_lt_iff. lia.
    + symmetry. apply Z.compare_gt_iff. lia.
    + rewrite <- Hlex. reflexivity.
Qed.

Lemma leb_fkey x y : (x <=? y)%float = opt_rel Z.leb (fkey x) (fkey y).
Proof.
  rewrite leb_spec. unfold SFleb, fkey.
  rewrite SFcompare_skey by apply Prim2SF_valid.
  destruct (skey (Prim2SF x)) as [a|], (skey (Prim2SF y)) as [b|]; cbn; try reflexivity;
  unfold Z.leb; destruct (a ?= b); reflexivity.
Qed.

Lemma ltb_fkey x y : (x <? y)%float = opt_rel Z.ltb (fkey x) (fkey y).
Proof.
  rewrite ltb_spec. unfold SFltb, fkey.
  rewrite SFcompare_skey by apply Prim2SF_valid.
  destruct (skey (Prim2SF x)) as [a|], (skey (Prim2SF y)) as [b|]; cbn; try reflexivity;
  unfold Z.ltb; destruct (a ?= b); reflexivity.
Qed.

Lemma eqb_fkey x y : (x =? y)%float = opt_rel Z.eqb (fkey x) (fkey y).
Proof.
  rewrite eqb_spec. unfold SFeqb, fkey.
  rewrite SFcompare_skey by apply Prim2SF_valid.
  destruct (skey (Prim2SF x)) as [a|], (skey (Prim2SF y)) as [b|]; cbn; try reflexivity;
  destruct (Z.compare_spec a b), (Z.eqb_spec a b); try reflexivity; lia.
Qed.

Lemma shl_align_fst m e e' : e' <= e ->
  Zpos (fst (shl_align m e e')) = Zpos m * 2 ^ (e - e').
Proof.
  intros He. unfold shl_align.
  destruct (e' - e) as [|d|d] eqn:Hd; cbn [fst].
  - replace (e - e') with 0 by lia. rewrite Z.pow_0_r, Z.mul_1_r. reflexivity.
  - lia.
  - rewrite iter_xO. do 2 f_equal. lia.
Qed.

Lemma SV_align s m e ez : -1074 <= ez <= e ->
  cond_Zopp s (Zpos (fst (shl_align m e ez))) * 2 ^ (ez + 1074) =
  cond_Zopp s (Zpos m * 2 ^ (e + 1074)).
Proof.
  intros H. rewrite shl_align_fst by lia.
  replace (e + 1074) with ((e - ez) + (ez + 1074)) by lia.
  rewrite (Z.pow_add_r 2 (e - ez) (ez + 1074)) by lia.
  destruct s; cbn [cond_Zopp]; ring.
Qed.

Lemma finite_valid_SV x : valid_binary x = true -> is_finite_SF x = true ->
  valid_binary x = true /\ skey x = Some (sKV 1074 (SV x)).
Proof. intros Hv Hf. split; [assumption | apply skey_SV; assumption]. Qed.

Lemma SFsub_key x y :
  valid_binary x = true -> valid_binary y = true ->
  is_finite_SF x = true -> is_finite_SF y = true ->
  valid_binary (SF64sub x y) = true /\
  skey (SF64sub x y) = Some (sKV 1074 (SV x - SV y)).
Proof.
  intros Hx Hy Fx Fy. unfold SF64sub.
  destruct x as [sx|sx| |sx mx ex], y as [sy|sy| |sy my ey]; try discriminate;
    cbn [SFsub].
  - destruct sx, sy; split; reflexivity.
  - cbn [SV]. rewrite Z.sub_0_l.
    replace (- cond_Zopp sy (Zpos my * 2 ^ (ey + 1074)))
      with (SV (S754_finite (negb sy) my ey)) by (destruct sy; cbn; lia).
    apply finite_valid_SV; [exact Hy | reflexivity].
  - cbn [SV]. rewrite Z.sub_0_r.
    apply (finite_valid_SV (S754_finite sx mx ex)); [exact Hx | reflexivity].
  - cbn [valid_binary] in Hx, Hy.
    destruct (valid_bounds mx ex Hx) as (Hex & _). destruct (valid_bounds my ey Hy) as (Hey & _).
    set (ez := Z.min ex ey).
    pose proof (binary_normalize_key
      (cond_Zopp sx (Zpos (fst (shl_align mx ex ez))) - cond_Zopp sy (Zpos (fst (shl_align my ey ez))))
      ez 1074 ltac:(lia) ltac:(unfold ez; lia)) as H.
    cbv zeta in H. rewrite Z.mul_sub_distr_r in H.
    rewrite !SV_align in H by (unfold ez; lia).
    exact H.
Qed.

Lemma SFadd_key x y :
  valid_binary x = true -> valid_binary y = true ->
  is_finite_SF x = true -> is_finite_SF y = true ->
  valid_binary (SF64add x y) = true /\
  skey (SF64add x y) = Some (sKV 1074 (SV x + SV y)).
Proof.
  intros Hx Hy Fx Fy. unfold SF64add.
  destruct x as [sx|sx| |sx mx ex], y as [sy|sy| |sy my ey]; try discriminate;
    cbn [SFadd].
  - destruct sx, sy; split; reflexivity.
  - cbn [SV]. rewrite Z.add_0_l.
    apply (finite_valid_SV (S754_finite sy my ey)); [exact Hy | reflexivity].
  - cbn [SV]. rewrite Z.add_0_r.
    apply (finite_valid_SV (S754_finite sx mx ex)); [exact Hx | reflexivity].
  - cbn [valid_binary] in Hx, Hy.
    destruct (valid_bounds mx ex Hx) as (Hex & _). destruct (valid_bounds my ey Hy) as (Hey & _).
    set (ez := Z.min ex ey).
    pose proof (binary_normalize_key
      (cond_Zopp sx (Zpos (fst (shl_align mx ex ez))) + cond_Zopp sy (Zpos (fst (shl_align my ey ez))))
      ez 1074 ltac:(lia) ltac:(unfold ez; lia)) as H.
    cbv zeta in H. rewrite Z.mul_add_distr_r in H.
    rewrite !SV_align in H by (unfold ez; lia).
    exact H.
Qed.

Lemma SFmul_key x y :
  valid_binary x = true -> valid_binary y = true ->
  is_finite_SF x = true -> is_finite_SF y = true ->
  valid_binary (SF64mul x y) = true /\
  skey (SF64mul x y) = Some (sKV 2148 (SV x * SV y)).
Proof.
  intros Hx Hy Fx Fy. unfold SF64mul.
  destruct x as [sx|sx| |sx mx ex], y as [sy|sy| |sy my ey]; try discriminate;
    cbn [SFmul SV]; rewrite ?Z.mul_0_l, ?Z.mul_0_r; try (split; reflexivity).
  cbn [valid_binary] in Hx, Hy.
  destruct (valid_bounds mx ex Hx) as (Hex & Hmx & Hnx).
  destruct (valid_bounds my ey Hy) as (Hey & Hmy & Hny).
  assert (Hfine : ex + ey <= fexp prec emax (Zpos (digits2_pos (mx * my)) + (ex + ey))).
  { rewrite fexp_eq, digits2_log2, Pos2Z.inj_mul.
    pose proof (Z.log2_mul_below (Zpos mx) (Zpos my) ltac:(lia) ltac:(lia)) as Hlog.
    pose proof (Z.log2_nonneg (Zpos mx)). pose proof (Z.log2_nonneg (Zpos my)).
    assert (Hlx : -1074 < ex -> 52 <= Z.log2 (Zpos mx)).
    { intros Hc. apply Z.log2_le_pow2; [lia|]. auto. }
    assert (Hly : -1074 < ey -> 52 <= Z.log2 (Zpos my)).
    { intros Hc. apply Z.log2_le_pow2; [lia|]. auto. }
    lia. }
  destruct (bra_key (xorb sx sy) (mx * my) (ex + ey) 2148 ltac:(lia) ltac:(lia) Hfine) as (Hv & _ & Hk).
  split; [exact Hv|]. rewrite Hk.
  rewrite cond_Zopp_sKV;
    [| apply Z.mul_nonneg_nonneg; [lia | apply Z.pow_nonneg; lia] | lia].
  do 2 f_equal. rewrite Pos2Z.inj_mul.
  replace (ex + ey + 2148) with ((ex + 1074) + (ey + 1074)) by lia.
  rewrite (Z.pow_add_r 2 (ex + 1074) (ey + 1074)) by lia.
  destruct sx, sy; cbn [cond_Zopp xorb]; ring.
Qed.

Lemma KV_big B V : 1074 <= B -> 2 ^ (B + 1024) <= V -> KV B V = KINF.
Proof.
  intros HB HV. unfold KV.
  assert (0 < 2 ^ (B + 1024)) by (apply Z.pow_pos_nonneg; lia).
  assert (Hl : B + 1024 <= Z.log2 V) by (apply Z.log2_le_pow2; lia).
  rewrite Z.max_l by lia.
  set (sh := Z.log2 V + 1 - 53).
  pose proof (Z.log2_spec V ltac:(lia)) as [HV1 _].
  assert (2 ^ 52 <= V / 2 ^ sh).
  { apply div_pow2_ge; try (unfold sh; lia). replace (sh + 52) with (Z.log2 V) by (unfold sh; lia). exact HV1. }
  pose proof (rne_bounds V sh ltac:(unfold sh; lia)).
  apply Z.min_r. pow_consts. unfold sh in *. nia.
Qed.

Lemma sKV_big B v : 1074 <= B -> 2 ^ (B + 1024) <= v -> sKV B v = KINF.
Proof.
  intros HB Hv. unfold sKV.
  assert (0 < 2 ^ (B + 1024)) by (apply Z.pow_pos_nonneg; lia).
  rewrite Z.sgn_pos, Z.abs_eq, KV_big by lia. lia.
Qed.

Lemma sKV_opp B v : sKV B (- v) = - sKV B v.
Proof. unfold sKV. rewrite Z.sgn_opp, Z.abs_opp. ring. Qed.

Lemma sKV_small B v : 1074 <= B -> v <= - 2 ^ (B + 1024) -> sKV B v = - KINF.
Proof.
  intros HB Hv. rewrite <- (Z.opp_involutive v), sKV_opp, sKV_big by lia. reflexivity.
Qed.

Lemma SV_bounds x : valid_binary x = true -> Z.abs (SV x) < 2 ^ 2098.
Proof.
  intros Hv. destruct x as [s|s| |s m e]; cbn [SV]; try (apply Z.pow_pos_nonneg; lia).
  cbn [valid_binary] in Hv. destruct (valid_bounds m e Hv) as (He & Hm & _).
  assert (Hp : 0 < 2 ^ (e + 1074)) by (apply Z.pow_pos_nonneg; lia).
  assert (Hle : 2 ^ (e + 1074) <= 2 ^ 2045) by (apply Z.pow_le_mono_r; lia).
  replace (Z.abs (cond_Zopp s (Zpos m * 2 ^ (e + 1074)))) with (Zpos m * 2 ^ (e + 1074))
    by (destruct s; cbn [cond_Zopp]; lia).
  change (2 ^ 2098) with (2 ^ 53 * 2 ^ 2045).
  apply Z.le_lt_trans with (Zpos m * 2 ^ 2045).
  - apply Z.mul_le_mono_nonneg_l; lia.
  - apply Z.mul_lt_mono_pos_r; [apply Z.pow_pos_nonneg; lia | lia].
Qed.

Lemma BIG_gap : 2 ^ 2098 + 2 ^ 2098 + 2 ^ (1074 + 1024) <= BIG.
Proof. unfold BIG. apply Z.leb_le. vm_compute. reflexivity. Qed.

Lemma skey_EV x : valid_binary x = true -> not_nan x = true ->
  skey x = Some (sKV 1074 (EV x)).
Proof.
  intros Hv Hn. destruct x as [s|s| |s m e]; try discriminate.
  - reflexivity.
  - cbn [skey EV]. pose proof BIG_gap.
    assert (0 < 2 ^ 2098) by (apply Z.pow_pos_nonneg; lia).
    destruct s; cbn [cond_Zopp];
      [rewrite sKV_small by lia | rewrite sKV_big by lia]; reflexivity.
  - apply skey_SV; [assumption | reflexivity].
Qed.

Lemma EV_finite x : is_finite_SF x = true -> EV x = SV x.
Proof. destruct x; try discriminate; reflexivity. Qed.

Lemma finite_not_nan x : is_finite_SF x = true -> not_nan x = true.
Proof. destruct x; try discriminate; reflexivity. Qed.

Lemma BIG_pos : 0 < 2 ^ 2098 /\ 0 < BIG.
Proof. split; apply Z.pow_pos_nonneg; lia. Qed.

Lemma SFsub_EV x c :
  valid_binary x = true -> valid_binary c = true ->
  not_nan x = true -> is_finite_SF c = true ->
  valid_binary (SF64sub x c) = true /\
  skey (SF64sub x c) = Some (sKV 1074 (EV x - SV c)).
Proof.
  intros Hx Hc Nx Fc.
  destruct (is_finite_SF x) eqn:Fx.
  - rewrite EV_finite by assumption. apply SFsub_key; assumption.
  - pose proof (SV_bounds c Hc). pose proof BIG_gap. pose proof BIG_pos.
    destruct x as [s|s| |s m e]; try discriminate.
    assert (E : SF64sub (S754_infinity s) c = S754_infinity s) by (destruct c; try discriminate; reflexivity).
    rewrite E. split; [reflexivity|]. cbn [skey EV].
    destruct s; cbn [cond_Zopp]; [rewrite sKV_small by lia | rewrite sKV_big by lia]; reflexivity.
Qed.

Lemma SFsub_EV_r c y :
  valid_binary c = true -> valid_binary y = true ->
  is_finite_SF c = true -> not_nan y = true ->
  valid_binary (SF64sub c y) = true /\
  skey (SF64sub c y) = Some (sKV 1074 (SV c - EV y)).
Proof.
  intros Hc Hy Fc Ny.
  destruct (is_finite_SF y) eqn:Fy.
  - rewrite EV_finite by assumption. apply SFsub_key; assumption.
  - pose proof (SV_bounds c Hc). pose proof BIG_gap. pose proof BIG_pos.
    destruct y as [s|s| |s m e]; try discriminate.
    assert (E : SF64sub c (S754_infinity s) = S754_infinity (negb s)) by (destruct c; try discriminate; reflexivity).
    rewrite E. split; [reflexivity|]. cbn [skey EV].
    destruct s; cbn [cond_Zopp negb]; [rewrite sKV_big by lia | rewrite sKV_small by lia]; reflexivity.
Qed.

Lemma SFadd_EV x c :
  valid_binary x = true -> valid_binary c = true ->
  not_nan x = true -> is_finite_SF c = true ->
  valid_binary (SF64add x c) = true /\
  skey (SF64add x c) = Some (sKV 1074 (EV x + SV c)).
Proof.
  intros Hx Hc Nx Fc.
  destruct (is_finite_SF x) eqn:Fx.
  - rewrite EV_finite by assumption. apply SFadd_key; assumption.
  - pose proof (SV_bounds c Hc). pose proof BIG_gap. pose proof BIG_pos.
    destruct x as [s|s| |s m e]; try discriminate.
    assert (E : SF64add (S754_infinity s) c = S754_infinity s) by (destruct c; try discriminate; reflexivity).
    rewrite E. split; [reflexivity|]. cbn [skey EV].
    destruct s; cbn [cond_Zopp]; [rewrite sKV_small by lia | rewrite sKV_big by lia]; reflexivity.
Qed.

Lemma BIG_mul : 2 ^ (2148 + 1024) <= BIG.
Proof. unfold BIG. apply Z.pow_le_mono_r; lia. Qed.

Lemma SFmul_EV x c :
  valid_binary x = true -> valid_binary c = true ->
  not_nan x = true -> is_finite_SF c = true -> 0 < SV c ->
  valid_binary (SF64mul x c) = true /\
  skey (SF64mul x c) = Some (sKV 2148 (EV x * SV c)).
Proof.
  intros Hx Hc Nx Fc Pc.
  destruct (is_finite_SF x) eqn:Fx.
  - rewrite EV_finite by assumption. apply SFmul_key; assumption.
  - pose proof BIG_mul. pose proof BIG_pos.
    destruct x as [s|s| |s m e]; try discriminate.
    destruct c as [sc|sc| |sc mc ec]; try discriminate; cbn [SV] in Pc; try lia.
    destruct sc; cbn [cond_Zopp] in Pc; [lia|].
    cbn [SF64mul SFmul]. rewrite xorb_false_r. split; [reflexivity|]. cbn [skey EV SV cond_Zopp].
    destruct s; cbn [cond_Zopp].
    + rewrite sKV_small; [reflexivity | lia | nia].
    + rewrite sKV_big; [reflexivity | lia | nia].
Qed.

Lemma Some_inj {A} (a b : A) : Some a = Some b -> a = b.
Proof. congruence. Qed.

Lemma skey_inj_EV x y : valid_binary x = true -> valid_binary y = true ->
  not_nan x = true -> not_nan y = true -> skey x = skey y -> EV x = EV y.
Proof.
  intros Hx Hy Nx Ny.
  destruct x as [sx|sx| |sx mx ex], y as [sy|sy| |sy my ey]; try discriminate;
    cbn [skey EV SV valid_binary] in *; intros E; apply Some_inj in E;
    try pose proof (key_bounds mx ex Hx); try pose proof (key_bounds my ey Hy);
    try reflexivity;
    try (destruct sx; cbn [cond_Zopp] in E; pow_consts; lia);
    try (destruct sy; cbn [cond_Zopp] in E; pow_consts; lia);
    try (destruct sx, sy; cbn [cond_Zopp] in E; pow_consts; try lia; reflexivity).
  assert (sx = sy) by (destruct sx, sy; cbn [cond_Zopp] in E; pow_consts; try lia; reflexivity).
  subst sy.
  assert (E' : (ex + 1074) * 2 ^ 52 + Zpos mx = (ey + 1074) * 2 ^ 52 + Zpos my)
    by (destruct sx; cbn [cond_Zopp] in E; lia).
  pose proof (key_lex mx ex my ey Hx Hy) as Hlex.
  rewrite E', Z.compare_refl in Hlex.
  destruct (ex ?= ey) eqn:Hc; try discriminate Hlex.
  apply Z.compare_eq in Hc. subst ey.
  symmetry in Hlex. apply Pos.compare_eq in Hlex. subst my. reflexivity.
Qed.

Lemma EV_le_iff x y a b : valid_binary x = true -> valid_binary y = true ->
  skey x = Some a -> skey y = Some b -> (a <= b <-> EV x <= EV y).
Proof.
  intros Hx Hy Ka Kb.
  assert (Nx : not_nan x = true) by (destruct x; try discriminate; reflexivity).
  assert (Ny : not_nan y = true) by (destruct y; try discriminate; reflexivity).
  pose proof (skey_EV x Hx Nx) as Ex. pose proof (skey_EV y Hy Ny) as Ey.
  rewrite Ka in Ex. rewrite Kb in Ey. injection Ex as ->. injection Ey as ->.
  split.
  - intros Hle. destruct (Z.le_gt_cases (EV x) (EV y)) as [|Hgt]; [assumption|].
    pose proof (sKV_mono 1074 (EV y) (EV x) ltac:(lia) ltac:(lia)).
    assert (E : skey x = skey y) by (rewrite Ka, Kb; f_equal; lia).
    pose proof (skey_inj_EV x y Hx Hy Nx Ny E). lia.
  - intros Hle. apply sKV_mono; lia.
Qed.


(** ** Division and sums of numbers that are not negative *)

Lemma Zdigits2_log2 q : 0 < q -> Zdigits2 q = Z.log2 q + 1.
Proof. destruct q; try lia. intros _. apply digits2_log2. Qed.

Lemma pow2_le_digits a k : 0 <= k -> 2 ^ k <= a -> k + 1 <= Zdigits2 a.
Proof.
  intros Hk H. assert (0 < 2 ^ k) by (apply Z.pow_pos_nonneg; lia).
  rewrite Zdigits2_log2 by lia.
  pose proof (Z.log2_le_pow2 a k ltac:(lia)). lia.
Qed.

(** The quotient and exponent computed by [SFdiv_core_binary]. *)
Lemma div_core_spec m1 e1 m2 e2 :
  let d1 := Zpos (digits2_pos m1) in
  let d2 := Zpos (digits2_pos m2) in
  let e' := Z.min (fexp prec emax (d1 + e1 - (d2 + e2))) (e1 - e2) in
  let s := e1 - e2 - e' in
  exists q r l,
    SFdiv_core_binary prec emax (Zpos m1) e1 (Zpos m2) e2 = (q, e', l) /\
    Zpos m1 * 2 ^ s = Zpos m2 * q + r /\ 0 <= r < Zpos m2 /\ 0 <= q /\
    (r = 0 -> l = loc_Exact).
Proof.
  intros d1 d2 e' s.
  unfold SFdiv_core_binary. cbn [Zdigits2]. fold d1 d2 e' s.
  assert (Hs : 0 <= s) by (unfold s, e'; lia).
  assert (Hm' : forall t, 0 <= t ->
                  match t with Z.pos _ => Z.shiftl (Zpos m1) t | 0 => Zpos m1 | Z.neg _ => 0 end
                  = Zpos m1 * 2 ^ t).
  { intros [|p|p] Ht; [rewrite Z.pow_0_r; lia | apply Z.shiftl_mul_pow2; lia | lia]. }
  rewrite (Hm' s Hs).
  pose proof (Z_div_mod (Zpos m1 * 2 ^ s) (Zpos m2) ltac:(lia)) as Hdm.
  destruct (Z.div_eucl (Zpos m1 * 2 ^ s) (Zpos m2)) as [q r].
  destruct Hdm as [Eq Hr].
  exists q, r, (new_location (Zpos m2) r).
  split; [reflexivity|]. split; [exact Eq|]. split; [exact Hr|]. split.
  - assert (0 <= Zpos m1 * 2 ^ s) by (apply Z.mul_nonneg_nonneg; [lia | apply Z.pow_nonneg; lia]).
    nia.
  - intros ->. unfold new_location, new_location_even, new_location_odd.
    destruct (Z.even (Zpos m2)); reflexivity.
Qed.

Lemma div_fine m1 e1 m2 e2 q r :
  let d1 := Zpos (digits2_pos m1) in
  let d2 := Zpos (digits2_pos m2) in
  let e' := Z.min (fexp prec emax (d1 + e1 - (d2 + e2))) (e1 - e2) in
  let s := e1 - e2 - e' in
  Zpos m1 * 2 ^ s = Zpos m2 * q + r -> 0 <= r < Zpos m2 -> 0 <= q ->
  e' <= fexp prec emax (Zdigits2 q + e').
Proof.
  intros d1 d2 e' s Eq Hr Hq.
  assert (Hs : 0 <= s) by (unfold s, e'; lia).
  assert (He' : e' <= fexp prec emax (d1 + e1 - (d2 + e2))) by (unfold e'; lia).
  rewrite fexp_eq in *.
  unfold d1, d2 in *. rewrite !digits2_log2 in *.
  pose proof (Z.log2_spec (Zpos m1) ltac:(lia)) as [H11 H12].
  pose proof (Z.log2_spec (Zpos m2) ltac:(lia)) as [H21 H22].
  pose proof (Z.log2_nonneg (Zpos m1)) as Hl1. pose proof (Z.log2_nonneg (Zpos m2)) as Hl2.
  set (l1 := Z.log2 (Zpos m1)) in *. set (l2 := Z.log2 (Zpos m2)) in *.
  clearbody l1 l2.
  assert (Hps : 0 < 2 ^ s) by (apply Z.pow_pos_nonneg; lia).
  (* the quotient has at least  l1 + s - l2  digits *)
  assert (Hdq : l1 + s - l2 <= Zdigits2 q \/ (q = 0 /\ l1 + s - l2 <= 0)).
  { destruct (Z.le_gt_cases 0 (l1 + s - l2 - 1)) as [Hk|Hk].
    - left. replace (l1 + s - l2) with ((l1 + s - l2 - 1) + 1) by lia.
      apply pow2_le_digits; [lia|].
      assert (Hlow : 2 ^ (l1 + s - l2 - 1) * 2 ^ (Z.succ l2) <= Zpos m1 * 2 ^ s).
      { rewrite <- Z.pow_add_r by lia.
        replace (l1 + s - l2 - 1 + Z.succ l2) with (l1 + s) by lia.
        rewrite Z.pow_add_r by lia. apply Z.mul_le_mono_nonneg_r; lia. }
      assert (0 < 2 ^ (l1 + s - l2 - 1)) by (apply Z.pow_pos_nonneg; lia).
      destruct (Z.le_gt_cases (2 ^ (l1 + s - l2 - 1)) q); [assumption|]. nia.
    - destruct (Z.eq_dec q 0) as [->|Hq0].
      + right. split; [reflexivity | lia].
      + left. rewrite Zdigits2_log2 by lia. pose proof (Z.log2_nonneg q). lia. }
  destruct Hdq as [Hdq|[-> Hdq]].
  - unfold s in Hdq. lia.
  - cbn [Zdigits2]. unfold s in Hdq. lia.
Qed.

Lemma digits_le_of_lt q t : 0 <= t -> 0 <= q < 2 ^ t -> Zdigits2 q <= t.
Proof.
  intros Ht [Hq0 Hq]. destruct (Z.eq_dec q 0) as [->|Hne]; [cbn; lia|].
  rewrite Zdigits2_log2 by lia.
  pose proof (Z.log2_lt_pow2 q t ltac:(lia)). lia.
Qed.

(** Shifting both sides of a comparison of scaled integers. *)
Lemma pow2_shift_le a b x y s t :
  0 <= a -> 0 <= b -> 0 <= x -> 0 <= y -> 0 <= s -> 0 <= t -> x - y = s - t ->
  a * 2 ^ x <= b * 2 ^ y -> a * 2 ^ s <= b * 2 ^ t.
Proof.
  intros Ha Hb Hx Hy Hs Ht E H.
  destruct (Z_le_gt_dec x s) as [L|G].
  - replace s with (x + (s - x)) by lia. replace t with (y + (s - x)) by lia.
    rewrite (Z.pow_add_r 2 x (s - x)), (Z.pow_add_r 2 y (s - x)) by lia.
    rewrite !Z.mul_assoc. apply Z.mul_le_mono_nonneg_r; [apply Z.pow_nonneg; lia | exact H].
  - assert (Hp : 0 < 2 ^ (x - s)) by (apply Z.pow_pos_nonneg; lia).
    apply (Z.mul_le_mono_pos_r _ _ (2 ^ (x - s)) Hp).
    rewrite <- !Z.mul_assoc, <- (Z.pow_add_r 2 s (x - s)), <- (Z.pow_add_r 2 t (x - s)) by lia.
    replace (s + (x - s)) with x by lia. replace (t + (x - s)) with y by lia. exact H.
Qed.

(** The quotient of two positive finite numbers: it is a number, it is not
    negative, and it is at most [2^k] when the dividend is at most [2^k]
    times the divisor. *)
Lemma SFdiv_pos mx ex my ey :
  bounded prec emax mx ex = true -> bounded prec emax my ey = true ->
  let R := SF64div (S754_finite false mx ex) (S754_finite false my ey) in
  valid_binary R = true /\ signed false R /\
  exists key, skey R = Some key /\ 0 <= key /\
    forall k, 0 <= k ->
      Zpos mx * 2 ^ (ex + 1074) <= Zpos my * 2 ^ (ey + 1074 + k) ->
      key <= (k + 1023) * 2 ^ 52.
Proof.
  intros Hx Hy.
  destruct (valid_bounds mx ex Hx) as (Hex & Hmx & _).
  destruct (valid_bounds my ey Hy) as (Hey & Hmy & _).
  unfold SF64div. cbn [SFdiv xorb].
  pose proof (div_core_spec mx ex my ey) as Hcore. cbv zeta in Hcore.
  pose proof (div_fine mx ex my ey) as Hfine. cbv zeta in Hfine.
  set (D := Zpos (digits2_pos mx) + ex - (Zpos (digits2_pos my) + ey)) in *.
  set (e' := Z.min (fexp prec emax D) (ex - ey)) in *.
  set (s := ex - ey - e') in *.
  destruct Hcore as (q & r & l & Ecore & Eq & Hr & Hq & Hexact).
  specialize (Hfine q r Eq Hr Hq).
  rewrite Ecore.
  destruct (bra_gen false q e' l Hq Hfine) as (m1 & Hb & Hm1 & Hrne & Hv & Hs & Hk).
  cbv zeta. split; [exact Hv|]. split; [exact Hs|].
  set (c := fexp prec emax (Zdigits2 q + e')) in *.
  assert (Hcdef : c = Z.max (Zdigits2 q + e' - 53) (-1074)) by apply fexp_eq.
  assert (Hq' : 0 <= q / 2 ^ (c - e')) by (apply Z.div_pos; [lia | apply Z.pow_pos_nonneg; lia]).
  assert (Hm0 : 0 <= m1) by (destruct Hb as [Hb _]; eapply Z.le_trans; [exact Hq' | exact Hb]).
  assert (Hc0 : -1074 <= c) by lia.
  clear Hb Hq'.
  eexists. split; [exact Hk|]. cbn [cond_Zopp].
  split; [pow_consts; lia|].
  intros k Hk0 V.
  (* the canonical exponent of the quotient is at most k - 53 *)
  assert (HD : D <= k).
  { unfold D. rewrite !digits2_log2.
    pose proof (Z.log2_spec (Zpos mx) ltac:(lia)) as [H11 _].
    pose proof (Z.log2_spec (Zpos my) ltac:(lia)) as [_ H22].
    pose proof (Z.log2_nonneg (Zpos mx)). pose proof (Z.log2_nonneg (Zpos my)).
    assert (H1 : 2 ^ (Z.log2 (Zpos mx) + (ex + 1074)) <= Zpos mx * 2 ^ (ex + 1074)).
    { rewrite (Z.pow_add_r 2 (Z.log2 (Zpos mx)) (ex + 1074)) by lia.
      apply Z.mul_le_mono_nonneg_r; [apply Z.pow_nonneg; lia | lia]. }
    assert (H2 : Zpos my * 2 ^ (ey + 1074 + k)
                 < 2 ^ (Z.succ (Z.log2 (Zpos my)) + (ey + 1074 + k))).
    { rewrite (Z.pow_add_r 2 (Z.succ (Z.log2 (Zpos my))) (ey + 1074 + k)) by lia.
      apply Z.mul_lt_mono_pos_r; [apply Z.pow_pos_nonneg; lia | lia]. }
    assert (H3 : Z.log2 (Zpos mx) + (ex + 1074)
                 < Z.succ (Z.log2 (Zpos my)) + (ey + 1074 + k)).
    { apply (Z.pow_lt_mono_r_iff 2); lia. }
    lia. }
  assert (He' : e' <= k - 53) by (unfold e'; rewrite fexp_eq; lia).
  set (t := k - e').
  assert (Hs0 : 0 <= s) by (unfold s, e'; lia).
  assert (Ht0 : 53 <= t) by (unfold t; lia).
  assert (Hpt : 0 < 2 ^ t) by (apply Z.pow_pos_nonneg; lia).
  assert (Hle : Zpos mx * 2 ^ s <= Zpos my * 2 ^ t).
  { apply (pow2_shift_le _ _ (ex + 1074) (ey + 1074 + k)); unfold s, t; lia. }
  assert (Hqt : q <= 2 ^ t) by nia.
  destruct (Z.eq_dec q (2 ^ t)) as [Eqt|Hne].
  - (* the quotient is exactly 2^k *)
    assert (r = 0) by nia.
    specialize (Hrne (Hexact ltac:(assumption))).
    assert (Hdq : Zdigits2 q = t + 1).
    { rewrite Zdigits2_log2 by lia. rewrite Eqt, Z.log2_pow2 by lia. reflexivity. }
    assert (Hc : c = k - 52) by (unfold t in *; lia).
    assert (Em1 : m1 = 2 ^ 52).
    { rewrite Hrne, Eqt. replace t with (52 + (c - e')) at 1 by (unfold t; lia).
      rewrite Z.pow_add_r by lia. apply rne_exact. lia. }
    rewrite Em1, Hc. unfold KINF. pow_consts. lia.
  - assert (Hdq : Zdigits2 q <= t) by (apply digits_le_of_lt; [lia | lia]).
    assert (Hc : c <= k - 53) by (unfold t in *; lia).
    unfold KINF. pow_consts. lia.
Qed.

Lemma SFadd_nonneg x y :
  valid_binary x = true -> valid_binary y = true ->
  not_nan x = true -> not_nan y = true -> 0 <= EV x -> 0 <= EV y ->
  valid_binary (SF64add x y) = true /\
  skey (SF64add x y) = Some (sKV 1074 (EV x + EV y)).
Proof.
  intros Hx Hy Nx Ny Px Py.
  destruct (is_finite_SF y) eqn:Fy.
  - rewrite (EV_finite y Fy). apply SFadd_EV; assumption.
  - pose proof BIG_pos as [_ HB]. pose proof BIG_gap.
    assert (0 < 2 ^ 2098) by (apply Z.pow_pos_nonneg; lia).
    destruct y as [sy|sy| |sy my ey]; try discriminate.
    destruct sy; cbn [EV cond_Zopp] in Py; [lia|].
    assert (E : SF64add x (S754_infinity false) = S754_infinity false).
    { destruct x as [sx|sx| |sx mx ex]; try discriminate; try reflexivity.
      destruct sx; cbn [EV cond_Zopp] in Px; [lia | reflexivity]. }
    rewrite E. split; [reflexivity|]. cbn [skey EV cond_Zopp].
    rewrite sKV_big; [reflexivity | lia | lia].
Qed.


(** A number whose key is that of a representable value has that value. *)
Lemma key_value x m e :
  valid_binary x = true ->
  -1074 <= e <= 971 -> 0 <= m <= 2 ^ 53 -> (-1074 < e -> 2 ^ 52 <= m) ->
  (e + 1074) * 2 ^ 52 + m < KINF ->
  skey x = Some ((e + 1074) * 2 ^ 52 + m) ->
  is_finite_SF x = true /\ SV x = m * 2 ^ (e + 1074).
Proof.
  intros Vx He Hm Hn Hk K.
  assert (Nx : not_nan x = true) by (destruct x; try discriminate; reflexivity).
  assert (Fx : is_finite_SF x = true).
  { destruct x as [s|s| |s mx ex]; try discriminate; try reflexivity.
    cbn [skey] in K. apply Some_inj in K. exfalso.
    destruct s; cbn [cond_Zopp] in K; pow_consts; lia. }
  split; [exact Fx|].
  rewrite <- (EV_finite x Fx).
  destruct (Z.eq_dec m 0) as [->|Hm0].
  - change (EV x = EV (S754_zero false)).
    apply skey_inj_EV; try assumption; try reflexivity.
    assert (e = -1074) by (pow_consts; lia). subst e. rewrite K. reflexivity.
  - destruct (Z.eq_dec m (2 ^ 53)) as [->|Hm1].
    + assert (E : EV (S754_finite false (Z.to_pos (2 ^ 52)) (e + 1)) = 2 ^ 53 * 2 ^ (e + 1074)).
      { cbn [EV SV cond_Zopp]. rewrite Z2Pos.id by (pow_consts; lia).
        replace (e + 1 + 1074) with (1 + (e + 1074)) by lia.
        rewrite (Z.pow_add_r 2 1 (e + 1074)) by lia. pow_consts. lia. }
      rewrite <- E. apply skey_inj_EV; try assumption; try reflexivity.
      * cbn [valid_binary]. apply bounded_intro; pow_consts; lia.
      * rewrite K. cbn [skey cond_Zopp]. rewrite Z2Pos.id by (pow_consts; lia).
        f_equal. pow_consts. lia.
    + assert (E : EV (S754_finite false (Z.to_pos m) e) = m * 2 ^ (e + 1074)).
      { cbn [EV SV cond_Zopp]. rewrite Z2Pos.id by lia. reflexivity. }
      rewrite <- E. apply skey_inj_EV; try assumption; try reflexivity.
      * cbn [valid_binary]. apply bounded_intro; pow_consts; lia.
      * rewrite K. cbn [skey cond_Zopp]. rewrite Z2Pos.id by lia. reflexivity.
Qed.

(** The quotient of two positive numbers, cut to an integer: when the
    dividend is below [2^52] and the exact quotient [X / Y] lies in
    [[k, k + 1 - 1/Y']] (with [Y'] the divisor as an integer of units), the
    rounded quotient still lies in [[k, k + 1)]. *)
Lemma SFdiv_floor mx ex my ey k :
  bounded prec emax mx ex = true -> bounded prec emax my ey = true ->
  let X := Zpos mx * 2 ^ (ex + 1074) in
  let Y := Zpos my * 2 ^ (ey + 1074) in
  X < 2 ^ 1126 -> 2 ^ 1074 <= Y -> 0 <= k ->
  k * Y <= X -> X + 2 ^ 1074 <= (k + 1) * Y ->
  let R := SF64div (S754_finite false mx ex) (S754_finite false my ey) in
  valid_binary R = true /\ is_finite_SF R = true /\ signed false R /\
  k * 2 ^ 1074 <= SV R < (k + 1) * 2 ^ 1074.
Proof.
  intros Hx Hy X Y HX HY Hk0 Hlo Hhi.
  destruct (valid_bounds mx ex Hx) as (Hex & Hmx & _).
  destruct (valid_bounds my ey Hy) as (Hey & Hmy & _).
  unfold SF64div. cbn [SFdiv xorb].
  pose proof (div_core_spec mx ex my ey) as Hcore. cbv zeta in Hcore.
  pose proof (div_fine mx ex my ey) as Hfine. cbv zeta in Hfine.
  set (D := Zpos (digits2_pos mx) + ex - (Zpos (digits2_pos my) + ey)) in *.
  set (e' := Z.min (fexp prec emax D) (ex - ey)) in *.
  set (s := ex - ey - e') in *.
  destruct Hcore as (q & r & l & Ecore & Eq & Hr & Hq & _).
  specialize (Hfine q r Eq Hr Hq).
  rewrite Ecore.
  destruct (bra_gen false q e' l Hq Hfine) as (m1 & Hb & Hm1 & _ & Hv & Hsg & Hkey).
  cbv zeta in Hv, Hkey, Hsg. cbn [cond_Zopp] in Hkey.
  set (c := fexp prec emax (Zdigits2 q + e')) in *.
  assert (Hcdef : c = Z.max (Zdigits2 q + e' - 53) (-1074)) by apply fexp_eq.
  assert (Hs0 : 0 <= s) by (unfold s, e'; lia).
  assert (Hp1074 : 0 < 2 ^ 1074) by (apply Z.pow_pos_nonneg; lia).
  assert (HpY : 0 < 2 ^ (ey + 1074)) by (apply Z.pow_pos_nonneg; lia).
  (* the quotient is below 2^52, so its last place is at most 1/2 *)
  assert (HXY : X < 2 ^ 52 * Y).
  { replace (2 ^ 1126) with (2 ^ 52 * 2 ^ 1074) in HX by (rewrite <- Z.pow_add_r by lia; reflexivity).
    nia. }
  (* e' is negative *)
  assert (He' : e' <= -1).
  { unfold e'. rewrite fexp_eq.
    assert (HD : D <= 52).
    { unfold D. rewrite !digits2_log2.
      pose proof (Z.log2_spec (Zpos mx) ltac:(lia)) as [H11 _].
      pose proof (Z.log2_spec (Zpos my) ltac:(lia)) as [_ H22].
      pose proof (Z.log2_nonneg (Zpos mx)). pose proof (Z.log2_nonneg (Zpos my)).
      assert (H1 : 2 ^ (Z.log2 (Zpos mx) + (ex + 1074)) <= X).
      { unfold X. rewrite (Z.pow_add_r 2 (Z.log2 (Zpos mx)) (ex + 1074)) by lia.
        apply Z.mul_le_mono_nonneg_r; [apply Z.pow_nonneg; lia | lia]. }
      assert (H2 : 2 ^ 52 * Y < 2 ^ (52 + Z.succ (Z.log2 (Zpos my)) + (ey + 1074))).
      { unfold Y. rewrite (Z.pow_add_r 2 (52 + Z.succ (Z.log2 (Zpos my))) (ey + 1074)) by lia.
        rewrite (Z.pow_add_r 2 52 (Z.succ (Z.log2 (Zpos my)))) by lia.
        rewrite Z.mul_assoc. apply Z.mul_lt_mono_pos_r; [exact HpY|].
        apply Z.mul_lt_mono_pos_l; [apply Z.pow_pos_nonneg; lia | lia]. }
      assert (H3 : Z.log2 (Zpos mx) + (ex + 1074)
                   < 52 + Z.succ (Z.log2 (Zpos my)) + (ey + 1074)).
      { apply (Z.pow_lt_mono_r_iff 2); lia. }
      lia. }
    lia. }
  set (E := 2 ^ (- e')).
  assert (HE : 0 < E) by (apply Z.pow_pos_nonneg; lia).
  (* the division, in units *)
  assert (HXE : X * E = Y * q + r * 2 ^ (ey + 1074)).
  { unfold X, Y, E.
    replace (Zpos my * 2 ^ (ey + 1074) * q + r * 2 ^ (ey + 1074))
      with ((Zpos my * q + r) * 2 ^ (ey + 1074)) by ring.
    rewrite <- Eq. rewrite <- !Z.mul_assoc, <- !Z.pow_add_r by lia.
    f_equal. f_equal. unfold s. lia. }
  assert (Hr' : 0 <= r * 2 ^ (ey + 1074) < Y) by (unfold Y; nia).
  set (n := c - e') in *.
  assert (Hn : 0 <= n) by (unfold n; lia).
  assert (Hpn : 0 < 2 ^ n) by (apply Z.pow_pos_nonneg; lia).
  (* q < 2^52 * E *)
  assert (Hq52 : q < 2 ^ 52 * E) by nia.
  assert (Hdq : Zdigits2 q <= 52 - e').
  { apply digits_le_of_lt; [lia|]. split; [exact Hq|].
    unfold E in Hq52. rewrite <- Z.pow_add_r in Hq52 by lia. exact Hq52. }
  assert (Hc1 : c <= -1) by lia.
  assert (Hc0 : -1074 <= c) by lia.
  set (P := 2 ^ (- c)).
  assert (HP : 0 < P) by (apply Z.pow_pos_nonneg; lia).
  assert (HEP : E = P * 2 ^ n).
  { unfold E, P, n. rewrite <- Z.pow_add_r by lia. f_equal. lia. }
  (* canonical mantissa *)
  assert (Hnorm : -1074 < c -> 2 ^ 52 <= m1).
  { intros Hc. assert (Hc' : c = Zdigits2 q + e' - 53) by lia.
    assert (q <> 0) by (intros ->; cbn in Hc'; lia).
    rewrite Zdigits2_log2 in Hc' by lia.
    pose proof (Z.log2_spec q ltac:(lia)) as [Hl1 _].
    assert (En : n = Z.log2 q - 52) by (unfold n; lia).
    assert (2 ^ 52 <= q / 2 ^ n).
    { apply Z.div_le_lower_bound; [exact Hpn|].
      rewrite Z.mul_comm, <- Z.pow_add_r by lia. replace (52 + n) with (Z.log2 q) by lia. exact Hl1. }
    lia. }
  assert (Hm0 : 0 <= m1).
  { assert (0 <= q / 2 ^ n) by (apply Z.div_pos; lia). lia. }
  (* the divisor is below 1 / ulp *)
  assert (HYP : Y < 2 ^ 1074 * P).
  { destruct (Z.eq_dec c (-1074)) as [Hc|Hc].
    - unfold P. rewrite Hc. rewrite <- Z.pow_add_r by lia.
      pose proof (SV_bounds (S754_finite false my ey) Hy) as HB. cbn [SV cond_Zopp] in HB.
      fold Y in HB. assert (2 ^ 2098 <= 2 ^ (1074 + - -1074)) by (apply Z.pow_le_mono_r; lia). lia.
    - assert (Hc' : c = Zdigits2 q + e' - 53) by lia.
      assert (Hq0 : q <> 0) by (intros ->; cbn in Hc'; lia).
      rewrite Zdigits2_log2 in Hc' by lia.
      pose proof (Z.log2_spec q ltac:(lia)) as [Hl1 _].
      pose proof (Z.log2_nonneg q).
      (* 2^(log2 q) * Y <= X * E < 2^1126 * E *)
      assert (H1 : 2 ^ Z.log2 q * Y < 2 ^ 1126 * E) by nia.
      assert (H2 : 2 ^ 1126 * E = 2 ^ Z.log2 q * (2 ^ 1074 * P)).
      { unfold E, P. rewrite <- !Z.pow_add_r by lia. f_equal. lia. }
      rewrite H2 in H1. apply Z.mul_lt_mono_pos_l in H1; [exact H1 | apply Z.pow_pos_nonneg; lia]. }
  (* bounds on the rounded mantissa *)
  assert (Hlow : k * P <= q / 2 ^ n).
  { apply Z.div_le_lower_bound; [exact Hpn|].
    assert (k * E <= q) by nia. rewrite HEP in H. lia. }
  assert (Hupp : q / 2 ^ n + 1 < (k + 1) * P).
  { assert (HY0 : 0 < Y) by lia.
    assert (Hq1 : q < ((k + 1) * P - 1) * 2 ^ n).
    { apply (Z.mul_lt_mono_pos_l Y); [exact HY0|].
      replace (Y * (((k + 1) * P - 1) * 2 ^ n)) with ((k + 1) * Y * E - Y * 2 ^ n)
        by (rewrite HEP; ring).
      assert (H1 : Y * 2 ^ n < 2 ^ 1074 * E).
      { rewrite HEP. rewrite (Z.mul_comm P (2 ^ n)), Z.mul_assoc, (Z.mul_comm (2 ^ 1074) (2 ^ n)),
          <- Z.mul_assoc, (Z.mul_comm Y (2 ^ n)).
        apply Z.mul_lt_mono_pos_l; [exact Hpn | exact HYP]. }
      assert (H2 : X * E <= ((k + 1) * Y - 2 ^ 1074) * E)
        by (apply Z.mul_le_mono_nonneg_r; lia).
      lia. }
    assert (q / 2 ^ n < (k + 1) * P - 1) by (apply Z.div_lt_upper_bound; lia).
    lia. }
  assert (Hm53 : (c + 1074) * 2 ^ 52 + m1 < KINF) by (pow_consts; lia).
  rewrite Z.min_l in Hkey by lia.
  destruct (key_value _ m1 c Hv ltac:(lia) ltac:(lia) Hnorm Hm53 Hkey) as (Fin & Val).
  split; [exact Hv|]. split; [exact Fin|]. split; [exact Hsg|].
  rewrite Val.
  assert (E1074 : 2 ^ 1074 = P * 2 ^ (c + 1074)).
  { unfold P. rewrite <- Z.pow_add_r by lia. f_equal. lia. }
  assert (0 < 2 ^ (c + 1074)) by (apply Z.pow_pos_nonneg; lia).
  rewrite E1074, !Z.mul_assoc. split.
  - apply Z.mul_le_mono_nonneg_r; lia.
  - apply Z.mul_lt_mono_pos_r; lia.
Qed.

(** A finite number minus itself is [+0]. *)
Lemma SFsub_diag s m e :
  SF64sub (S754_finite s m e) (S754_finite s m e) = S754_zero false.
Proof. unfold SF64sub, SFsub. rewrite Z.sub_diag. reflexivity. Qed.

End Binary64Facts.

(** ** Order and monotonicity on primitive floats *)

Module FloatFacts.
  Import Binary64 Binary64Facts.
  Local Open Scope float_scope.

Lemma ff_nn x : ff x = true -> nn x = true.
Proof. apply finite_not_nan. Qed.

Lemma fkey_FEV x : nn x = true -> fkey x = Some (sKV 1074 (FEV x)).
Proof. intros H. apply skey_EV; [apply Prim2SF_valid | exact H]. Qed.

Lemma fkey_nn x k : fkey x = Some k -> nn x = true.
Proof. unfold fkey, nn. destruct (Prim2SF x); try discriminate; reflexivity. Qed.

Lemma nn_fkey x : nn x = false -> fkey x = None.
Proof. unfold fkey, nn. destruct (Prim2SF x); try discriminate; reflexivity. Qed.

Lemma key_le_iff x y : nn x = true -> nn y = true ->
  (sKV 1074 (FEV x) <= sKV 1074 (FEV y) <-> FEV x <= FEV y)%Z.
Proof.
  intros Nx Ny.
  apply (EV_le_iff (Prim2SF x) (Prim2SF y)); try apply Prim2SF_valid; apply fkey_FEV; assumption.
Qed.

Lemma leb_FEV x y : nn x = true -> nn y = true -> (x <=? y) = (FEV x <=? FEV y)%Z.
Proof.
  intros Nx Ny. rewrite leb_fkey, !fkey_FEV by assumption. cbn [opt_rel].
  pose proof (key_le_iff x y Nx Ny).
  destruct (Z.leb_spec (sKV 1074 (FEV x)) (sKV 1074 (FEV y))), (Z.leb_spec (FEV x) (FEV y)); try reflexivity; lia.
Qed.

Lemma ltb_FEV x y : nn x = true -> nn y = true -> (x <? y) = (FEV x <? FEV y)%Z.
Proof.
  intros Nx Ny. rewrite ltb_fkey, !fkey_FEV by assumption. cbn [opt_rel].
  pose proof (key_le_iff y x Ny Nx).
  destruct (Z.ltb_spec (sKV 1074 (FEV x)) (sKV 1074 (FEV y))), (Z.ltb_spec (FEV x) (FEV y)); try reflexivity; lia.
Qed.

Lemma eqb_FEV x y : nn x = true -> nn y = true -> (x =? y) = (FEV x =? FEV y)%Z.
Proof.
  intros Nx Ny. rewrite eqb_fkey, !fkey_FEV by assumption. cbn [opt_rel].
  pose proof (key_le_iff y x Ny Nx). pose proof (key_le_iff x y Nx Ny).
  destruct (Z.eqb_spec (sKV 1074 (FEV x)) (sKV 1074 (FEV y))), (Z.eqb_spec (FEV x) (FEV y)); try reflexivity; lia.
Qed.

Lemma leb_nn x y : (x <=? y) = true -> nn x = true /\ nn y = true.
Proof.
  rewrite leb_fkey. destruct (nn x) eqn:Nx, (nn y) eqn:Ny; auto;
    try rewrite (nn_fkey x Nx); try rewrite (nn_fkey y Ny); cbn; try discriminate.
  destruct (fkey x); discriminate.
Qed.

Lemma ltb_nn x y : (x <? y) = true -> nn x = true /\ nn y = true.
Proof.
  rewrite ltb_fkey. destruct (nn x) eqn:Nx, (nn y) eqn:Ny; auto;
    try rewrite (nn_fkey x Nx); try rewrite (nn_fkey y Ny); cbn; try discriminate.
  destruct (fkey x); discriminate.
Qed.

Lemma leb_iff x y : (x <=? y) = true <-> nn x = true /\ nn y = true /\ (FEV x <= FEV y)%Z.
Proof.
  split.
  - intros H. destruct (leb_nn x y H) as [Nx Ny]. rewrite leb_FEV in H by assumption.
    repeat split; try assumption. apply Z.leb_le. exact H.
  - intros (Nx & Ny & H). rewrite leb_FEV by assumption. apply Z.leb_le. exact H.
Qed.

Lemma ltb_iff x y : (x <? y) = true <-> nn x = true /\ nn y = true /\ (FEV x < FEV y)%Z.
Proof.
  split.
  - intros H. destruct (ltb_nn x y H) as [Nx Ny]. rewrite ltb_FEV in H by assumption.
    repeat split; try assumption. apply Z.ltb_lt. exact H.
  - intros (Nx & Ny & H). rewrite ltb_FEV by assumption. apply Z.ltb_lt. exact H.
Qed.

Lemma is_nan_nn x : is_nan x = negb (nn x).
Proof.
  unfold is_nan. destruct (nn x) eqn:N.
  - rewrite eqb_FEV, Z.eqb_refl by assumption. reflexivity.
  - rewrite eqb_fkey, (nn_fkey x N). reflexivity.
Qed.

Lemma sub_fkey x c : nn x = true -> ff c = true ->
  fkey (x - c) = Some (sKV 1074 (FEV x - FEV c)).
Proof.
  intros Nx Fc. unfold fkey, FEV. rewrite sub_spec, (EV_finite (Prim2SF c)) by exact Fc.
  apply SFsub_EV; try apply Prim2SF_valid; assumption.
Qed.

Lemma sub_fkey_r c y : ff c = true -> nn y = true ->
  fkey (c - y) = Some (sKV 1074 (FEV c - FEV y)).
Proof.
  intros Fc Ny. unfold fkey, FEV. rewrite sub_spec, (EV_finite (Prim2SF c)) by exact Fc.
  apply SFsub_EV_r; try apply Prim2SF_valid; assumption.
Qed.

Lemma mul_fkey x c : nn x = true -> ff c = true -> (0 < FEV c)%Z ->
  fkey (x * c) = Some (sKV 2148 (FEV x * FEV c)).
Proof.
  intros Nx Fc Pc. unfold fkey, FEV in *. rewrite (EV_finite (Prim2SF c)) in * by exact Fc.
  rewrite mul_spec.
  apply SFmul_EV; try apply Prim2SF_valid; assumption.
Qed.

Lemma leb_of_keys x y a b : fkey x = Some a -> fkey y = Some b -> (a <= b)%Z -> (x <=? y) = true.
Proof. intros Ka Kb H. rewrite leb_fkey, Ka, Kb. apply Z.leb_le. exact H. Qed.

Lemma sub_mono_l c x y : ff c = true -> (x <=? y) = true -> (x - c <=? y - c) = true.
Proof.
  intros Fc H. apply leb_iff in H. destruct H as (Nx & Ny & H).
  eapply leb_of_keys; try (apply sub_fkey; assumption).
  apply sKV_mono; lia.
Qed.

Lemma sub_mono_r c x y : ff c = true -> (x <=? y) = true -> (c - y <=? c - x) = true.
Proof.
  intros Fc H. apply leb_iff in H. destruct H as (Nx & Ny & H).
  eapply leb_of_keys; try (apply sub_fkey_r; assumption).
  apply sKV_mono; lia.
Qed.

Lemma mul_mono_l c x y : ff c = true -> (0 < FEV c)%Z -> (x <=? y) = true -> (x * c <=? y * c) = true.
Proof.
  intros Fc Pc H. apply leb_iff in H. destruct H as (Nx & Ny & H).
  eapply leb_of_keys; try (apply mul_fkey; assumption).
  apply sKV_mono; [lia | nia].
Qed.

Lemma leb_trans x y z : (x <=? y) = true -> (y <=? z) = true -> (x <=? z) = true.
Proof.
  rewrite !leb_iff. intros (Nx & Ny & H1) (_ & Nz & H2). repeat split; try assumption. lia.
Qed.

Lemma leb_refl x : nn x = true -> (x <=? x) = true.
Proof. intros N. apply leb_iff. repeat split; try assumption. lia. Qed.

End FloatFacts.

(** ** The JavaScript helpers *)

Module JSFacts.
  Import JS Binary64 Binary64Facts FloatFacts.
  Local Open Scope float_scope.

Lemma is_finite_ff x : is_finite x = ff x.
Proof.
  unfold is_finite, is_infinity, ff. rewrite is_nan_nn. unfold nn.
  rewrite eqb_spec, abs_spec.
  destruct (Prim2SF x) as [s|s| |s m e]; try reflexivity.
Qed.

Lemma nn_is_nan x : nn x = true -> is_nan x = false.
Proof. intros H. rewrite is_nan_nn, H. reflexivity. Qed.

Lemma ltb_false_le x y : nn x = true -> nn y = true -> (x <? y) = false -> (y <=? x) = true.
Proof.
  intros Nx Ny H. rewrite ltb_FEV in H by assumption. rewrite leb_FEV by assumption.
  apply Z.ltb_ge in H. apply Z.leb_le. exact H.
Qed.

Lemma leb_false_lt x y : nn x = true -> nn y = true -> (x <=? y) = false -> (y <? x) = true.
Proof.
  intros Nx Ny H. rewrite leb_FEV in H by assumption. rewrite ltb_FEV by assumption.
  apply Z.leb_gt in H. apply Z.ltb_lt. exact H.
Qed.

Lemma ltb_le x y : (x <? y) = true -> (x <=? y) = true.
Proof. rewrite ltb_iff, leb_iff. intros (? & ? & ?). repeat split; try assumption. lia. Qed.

Lemma Math_max_nn a b : nn a = true -> nn b = true ->
  nn (Math_max a b) = true /\ FEV (Math_max a b) = Z.max (FEV a) (FEV b).
Proof.
  intros Na Nb. unfold Math_max. rewrite !nn_is_nan by assumption. cbn [orb].
  rewrite !ltb_FEV by assumption.
  destruct (Z.ltb_spec (FEV a) (FEV b)); [split; [assumption | lia]|].
  destruct (Z.ltb_spec (FEV b) (FEV a)); [split; [assumption | lia]|].
  destruct (get_sign a); split; try assumption; lia.
Qed.

Lemma Math_min_nn a b : nn a = true -> nn b = true ->
  nn (Math_min a b) = true /\ FEV (Math_min a b) = Z.min (FEV a) (FEV b).
Proof.
  intros Na Nb. unfold Math_min. rewrite !nn_is_nan by assumption. cbn [orb].
  rewrite !ltb_FEV by assumption.
  destruct (Z.ltb_spec (FEV a) (FEV b)); [split; [assumption | lia]|].
  destruct (Z.ltb_spec (FEV b) (FEV a)); [split; [assumption | lia]|].
  destruct (get_sign a); split; try assumption; lia.
Qed.

(** [Math.max(0, m)] is the literal [0] or a number above zero. *)
Lemma Math_max_0 m : nn m = true ->
  Math_max 0 m = 0 \/ ((0 <? m) = true /\ Math_max 0 m = m).
Proof.
  intros Nm. unfold Math_max. rewrite (nn_is_nan m Nm).
  change (is_nan 0) with false. cbn [orb].
  destruct (0 <? m); [right; split; reflexivity|].
  destruct (m <? 0); [left; reflexivity|].
  change (get_sign 0) with false. left; reflexivity.
Qed.

Lemma Z2float_SF n :
  valid_binary (Prim2SF (Z2float n)) = true /\
  Prim2SF (Z2float n) = binary_normalize prec emax n 0 false /\
  fkey (Z2float n) = Some (sKV 1074 (n * 2 ^ 1074)).
Proof.
  destruct (binary_normalize_key n 0 1074 ltac:(lia) ltac:(lia)) as (Hv & Hk).
  unfold Z2float, fkey. rewrite Prim2SF_SF2Prim by exact Hv. repeat split; assumption.
Qed.

Lemma skey_inj x y : valid_binary x = true -> valid_binary y = true ->
  skey x = skey y -> is_finite_SF x = true -> skey x <> Some 0%Z -> x = y.
Proof.
  intros Hx Hy E Fx Nz.
  destruct x as [sx|sx| |sx mx ex]; try discriminate; [cbn in Nz; congruence|].
  cbn [valid_binary] in Hx. pose proof (key_bounds mx ex Hx) as Bx.
  destruct y as [sy|sy| |sy my ey]; cbn [skey valid_binary] in *; try discriminate;
    apply Some_inj in E.
  - exfalso. destruct sx; cbn [cond_Zopp] in E; lia.
  - exfalso. destruct sx, sy; cbn [cond_Zopp] in E; lia.
  - pose proof (key_bounds my ey Hy) as By.
    assert (sx = sy) by (destruct sx, sy; cbn [cond_Zopp] in E; try lia; reflexivity).
    subst sy.
    assert (E' : ((ex + 1074) * 2 ^ 52 + Zpos mx = (ey + 1074) * 2 ^ 52 + Zpos my)%Z)
      by (destruct sx; cbn [cond_Zopp] in E; lia).
    pose proof (key_lex mx ex my ey Hx Hy) as Hlex.
    rewrite E', Z.compare_refl in Hlex.
    destruct (ex ?= ey)%Z eqn:Hc; try discriminate Hlex.
    apply Z.compare_eq in Hc. subst ey.
    symmetry in Hlex. apply Pos.compare_eq in Hlex. subst my. reflexivity.
Qed.

(** A finite non-zero number whose value is the integer [n] is [Z2float n]. *)
Lemma Z2float_eq x n : ff x = true -> FEV x = (n * 2 ^ 1074)%Z -> n <> 0%Z ->
  x = Z2float n.
Proof.
  intros Fx Hval Hn.
  apply Prim2SF_inj.
  pose proof (Prim2SF_valid x) as Vx.
  destruct (binary_normalize_key n 0 1074 ltac:(lia) ltac:(lia)) as (Hv & Hk).
  unfold Z2float. rewrite Prim2SF_SF2Prim by exact Hv.
  change (0 + 1074)%Z with 1074%Z in Hk.
  assert (Kx : skey (Prim2SF x) = Some (sKV 1074 (n * 2 ^ 1074))).
  { rewrite <- Hval. apply fkey_FEV. apply ff_nn. exact Fx. }
  apply skey_inj; try assumption.
  - rewrite Kx, Hk. reflexivity.
  - unfold ff in Fx. unfold FEV in Hval.
    destruct (Prim2SF x) as [s|s| |s m e]; try discriminate.
    + cbn in Hval. assert (0 < 2 ^ 1074)%Z by (apply Z.pow_pos_nonneg; lia). nia.
    + cbn [skey]. cbn [valid_binary] in Vx. pose proof (key_bounds m e Vx).
      intros E. apply Some_inj in E. destruct s; cbn [cond_Zopp] in E; lia.
Qed.

Lemma RZ_mono v w : (v <= w)%Z -> (RZ v <= RZ w)%Z.
Proof.
  intros H. unfold RZ. apply Z.div_le_mono; [apply Z.pow_pos_nonneg; lia | lia].
Qed.

Lemma RZ_int n : RZ (n * 2 ^ 1074) = n.
Proof.
  unfold RZ. change (2 ^ 1075)%Z with (2 * 2 ^ 1074)%Z.
  replace (2 * (n * 2 ^ 1074) + 2 ^ 1074)%Z with ((2 * n + 1) * 2 ^ 1074)%Z by ring.
  rewrite Z.div_mul_cancel_r by (try apply Z.pow_nonzero; lia).
  replace (2 * n + 1)%Z with (1 + n * 2)%Z by ring.
  rewrite Z.div_add by lia. reflexivity.
Qed.

Lemma round_half_up_RZ s m e : (-1074 <= e < 0)%Z ->
  round_half_up s m e = RZ (SV (S754_finite s m e)).
Proof.
  intros He. unfold round_half_up, RZ. cbn [SV].
  assert (Hp : (0 < 2 ^ (e + 1074))%Z) by (apply Z.pow_pos_nonneg; lia).
  replace (2 ^ 1075)%Z with (2 ^ (1 - e) * 2 ^ (e + 1074))%Z
    by (rewrite <- Z.pow_add_r by lia; f_equal; lia).
  replace (2 * cond_Zopp s (Z.pos m * 2 ^ (e + 1074)) + 2 ^ 1074)%Z
    with ((cond_Zopp s (Z.pos m~0) + 2 ^ (- e)) * 2 ^ (e + 1074))%Z.
  2:{ rewrite Z.mul_add_distr_r, <- Z.pow_add_r by lia.
      replace (- e + (e + 1074))%Z with 1074%Z by lia.
      rewrite Pos2Z.inj_xO. destruct s; cbn [cond_Zopp]; ring. }
  rewrite Z.div_mul_cancel_r; [reflexivity | apply Z.pow_nonzero; lia | lia].
Qed.

Lemma finite_int s m e : (0 <= e)%Z ->
  SV (S754_finite s m e) = (cond_Zopp s (Zpos m * 2 ^ e) * 2 ^ 1074)%Z.
Proof.
  intros He. cbn [SV]. rewrite Z.pow_add_r by lia. destruct s; cbn [cond_Zopp]; ring.
Qed.

(** The key of [Math.round(x)] for a finite [x]. *)
Lemma Math_round_fkey x : ff x = true ->
  fkey (Math_round x) = Some (sKV 1074 (RZ (FEV x) * 2 ^ 1074)).
Proof.
  intros Fx. unfold Math_round.
  pose proof (Prim2SF_valid x) as Vx. pose proof (fkey_FEV x (ff_nn x Fx)) as Kx.
  unfold ff, FEV in *.
  destruct (Prim2SF x) as [s|s| |s m e] eqn:Ex; try discriminate.
  - rewrite Kx. reflexivity.
  - cbn [valid_binary] in Vx. destruct (valid_bounds m e Vx) as (He & _).
    cbn [EV] in *.
    destruct (Z.leb_spec 0 e) as [H0|H0].
    + rewrite Kx. rewrite finite_int, RZ_int by lia. reflexivity.
    + rewrite <- round_half_up_RZ by lia.
      destruct (Z.eqb_spec (round_half_up s m e) 0) as [->|Hn].
      * destruct s; reflexivity.
      * apply Z2float_SF.
Qed.

Lemma Math_round_mono x y : ff x = true -> ff y = true ->
  (x <=? y) = true -> (Math_round x <=? Math_round y) = true.
Proof.
  intros Fx Fy H. apply leb_iff in H. destruct H as (_ & _ & H).
  eapply leb_of_keys; try (apply Math_round_fkey; assumption).
  apply sKV_mono; [lia|]. apply Z.mul_le_mono_nonneg_r; [apply Z.pow_nonneg; lia|].
  apply RZ_mono. exact H.
Qed.

End JSFacts.

(** * The eco score (pages/Dashboard.jsx) *)

Module EcoScoreFacts.
  Import JS Dashboard Binary64 Binary64Facts FloatFacts JSFacts.
  Local Open Scope float_scope.

Lemma FEV_100 : FEV 100 = (100 * 2 ^ 1074)%Z.
Proof. vm_compute. reflexivity. Qed.

Lemma FEV_0 : FEV 0 = 0%Z.
Proof. vm_compute. reflexivity. Qed.

(** The integers from 0 to 100 are finite numbers. *)
Lemma Z2float_small n : (0 <= n <= 100)%Z ->
  is_nan (Z2float n) = false /\ is_finite (Z2float n) = true.
Proof.
  intros Hn.
  assert (H : forallb (fun k => negb (is_nan (Z2float (Z.of_nat k)))
                                && is_finite (Z2float (Z.of_nat k))) (seq 0 101) = true)
    by (vm_compute; reflexivity).
  rewrite forallb_forall in H.
  specialize (H (Z.to_nat n)). rewrite Z2Nat.id in H by lia.
  rewrite andb_true_iff, negb_true_iff in H. apply H.
  apply in_seq. lia.
Qed.

Lemma pos_finite_shape c : (0 <? c) = true -> (c <=? 100) = true ->
  exists m e, Prim2SF c = S754_finite false m e.
Proof.
  intros H0 H1. apply ltb_iff in H0. apply leb_iff in H1.
  destruct H0 as (_ & Nc & H0). destruct H1 as (_ & _ & H1).
  rewrite FEV_0 in H0. rewrite FEV_100 in H1.
  unfold nn, FEV in *.
  destruct (Prim2SF c) as [s|s| |s m e]; try discriminate; cbn [EV SV] in *; try lia.
  - exfalso. destruct s; cbn [cond_Zopp] in *.
    + pose proof BIG_pos. lia.
    + assert (100 * 2 ^ 1074 < BIG)%Z by (apply Z.ltb_lt; vm_compute; reflexivity). lia.
  - destruct s; cbn [cond_Zopp] in *.
    + exfalso. assert (0 <= 2 ^ (e + 1074))%Z by (apply Z.pow_nonneg; lia). nia.
    + eauto.
Qed.

(** Rounding a clamped score gives an integer between 0 and 100. *)
Lemma Math_round_clamped c :
  c = 0 \/ ((0 <? c) = true /\ (c <=? 100) = true) ->
  exists n, (0 <= n <= 100)%Z /\ Math_round c = Z2float n.
Proof.
  intros [->|[H0 H1]].
  - exists 0%Z. split; [lia | vm_compute; reflexivity].
  - destruct (pos_finite_shape c H0 H1) as (m & e & Ec).
    pose proof (Prim2SF_valid c) as Vc. rewrite Ec in Vc. cbn [valid_binary] in Vc.
    destruct (valid_bounds m e Vc) as (He & _).
    assert (Fc : ff c = true) by (unfold ff; rewrite Ec; reflexivity).
    assert (Hv : FEV c = SV (S754_finite false m e)) by (unfold FEV; rewrite Ec; reflexivity).
    apply ltb_iff in H0. apply leb_iff in H1.
    destruct H0 as (_ & _ & H0). destruct H1 as (_ & _ & H1).
    rewrite FEV_0 in H0. rewrite FEV_100 in H1.
    assert (Hp : (0 < 2 ^ 1074)%Z) by (apply Z.pow_pos_nonneg; lia).
    unfold Math_round. rewrite Ec.
    destruct (Z.leb_spec 0 e) as [Hp0|Hn0].
    + rewrite finite_int in Hv by lia. cbn [cond_Zopp] in Hv.
      exists (Zpos m * 2 ^ e)%Z. split; [nia|].
      apply Z2float_eq; [exact Fc | exact Hv | nia].
    + rewrite round_half_up_RZ by lia. rewrite <- Hv.
      pose proof (RZ_mono 0 (FEV c) ltac:(lia)) as L.
      pose proof (RZ_mono (FEV c) (100 * 2 ^ 1074) H1) as U.
      rewrite RZ_int in U. change (RZ 0) with 0%Z in L.
      destruct (Z.eqb_spec (RZ (FEV c)) 0) as [E0|Hn].
      * exists 0%Z. split; [lia | vm_compute; reflexivity].
      * exists (RZ (FEV c)). split; [lia | reflexivity].
Qed.

(** *** The score does not increase with the daily average *)

Lemma above x c : nn x = true -> nn c = true -> (x <=? c) = false -> (c <=? x) = true.
Proof. intros Nx Nc H. apply ltb_le, leb_false_lt; assumption. Qed.

Lemma sub_nn x c : nn x = true -> ff c = true -> nn (x - c) = true.
Proof. intros Nx Fc. eapply fkey_nn. apply sub_fkey; assumption. Qed.

Lemma sub_nn_r c y : ff c = true -> nn y = true -> nn (c - y) = true.
Proof. intros Fc Ny. eapply fkey_nn. apply sub_fkey_r; assumption. Qed.

Lemma mul_nn x c : nn x = true -> ff c = true -> (0 < FEV c)%Z -> nn (x * c) = true.
Proof. intros Nx Fc Pc. eapply fkey_nn. apply mul_fkey; assumption. Qed.

Lemma Math_max_0_mono x y : (x <=? y) = true -> (Math_max 0 x <=? Math_max 0 y) = true.
Proof.
  intros H. apply leb_iff in H. destruct H as (Nx & Ny & H).
  destruct (Math_max_nn 0 x eq_refl Nx) as (N1 & V1).
  destruct (Math_max_nn 0 y eq_refl Ny) as (N2 & V2).
  apply leb_iff. repeat split; try assumption. lia.
Qed.

Lemma pos20 : (0 < FEV 20)%Z. Proof. apply Z.ltb_lt. vm_compute. reflexivity. Qed.
Lemma pos10 : (0 < FEV 10)%Z. Proof. apply Z.ltb_lt. vm_compute. reflexivity. Qed.
Lemma pos5 : (0 < FEV 5)%Z. Proof. apply Z.ltb_lt. vm_compute. reflexivity. Qed.

Lemma g2_anti a b : (a <=? b) = true -> (100 - b * 20 <=? 100 - a * 20) = true.
Proof.
  intros H. apply sub_mono_r; [reflexivity|].
  apply mul_mono_l; [reflexivity | exact pos20 | exact H].
Qed.

Lemma g3_anti a b : (a <=? b) = true ->
  (90 - (b - 0.5) * 10 <=? 90 - (a - 0.5) * 10) = true.
Proof.
  intros H. apply sub_mono_r; [reflexivity|].
  apply mul_mono_l; [reflexivity | exact pos10 |].
  apply sub_mono_l; [reflexivity | exact H].
Qed.

Lemma g4_anti a b : (a <=? b) = true ->
  (85 - (b - 1) * 5 <=? 85 - (a - 1) * 5) = true.
Proof.
  intros H. apply sub_mono_r; [reflexivity|].
  apply mul_mono_l; [reflexivity | exact pos5 |].
  apply sub_mono_l; [reflexivity | exact H].
Qed.

Lemma g5_anti a b : (a <=? b) = true ->
  (80 - (b - 2) * 10 <=? 80 - (a - 2) * 10) = true.
Proof.
  intros H. apply sub_mono_r; [reflexivity|].
  apply mul_mono_l; [reflexivity | exact pos10 |].
  apply sub_mono_l; [reflexivity | exact H].
Qed.

Lemma g6_anti a b : (a <=? b) = true ->
  (Math_max 0 (50 - (b - 5) * 10) <=? Math_max 0 (50 - (a - 5) * 10)) = true.
Proof.
  intros H. apply Math_max_0_mono. apply sub_mono_r; [reflexivity|].
  apply mul_mono_l; [reflexivity | exact pos10 |].
  apply sub_mono_l; [reflexivity | exact H].
Qed.

(** Bounds of each bracket, from its end points. *)
Lemma up2 b : nn b = true -> (b <=? 0.1) = false -> (100 - b * 20 <=? 98) = true.
Proof. intros N H. exact (g2_anti 0.1 b (above b 0.1 N eq_refl H)). Qed.

Lemma lo2 a : (a <=? 0.5) = true -> (90 <=? 100 - a * 20) = true.
Proof. intros H. exact (g2_anti a 0.5 H). Qed.

Lemma up3 b : nn b = true -> (b <=? 0.5) = false -> (90 - (b - 0.5) * 10 <=? 90) = true.
Proof. intros N H. exact (g3_anti 0.5 b (above b 0.5 N eq_refl H)). Qed.

Lemma lo3 a : (a <=? 1) = true -> (85 <=? 90 - (a - 0.5) * 10) = true.
Proof. intros H. exact (g3_anti a 1 H). Qed.

Lemma up4 b : nn b = true -> (b <=? 1) = false -> (85 - (b - 1) * 5 <=? 85) = true.
Proof. intros N H. exact (g4_anti 1 b (above b 1 N eq_refl H)). Qed.

Lemma lo4 a : (a <=? 2) = true -> (80 <=? 85 - (a - 1) * 5) = true.
Proof. intros H. exact (g4_anti a 2 H). Qed.

Lemma up5 b : nn b = true -> (b <=? 2) = false -> (80 - (b - 2) * 10 <=? 80) = true.
Proof. intros N H. exact (g5_anti 2 b (above b 2 N eq_refl H)). Qed.

Lemma lo5 a : (a <=? 5) = true -> (50 <=? 80 - (a - 2) * 10) = true.
Proof. intros H. exact (g5_anti a 5 H). Qed.

Lemma up6 b : nn b = true -> (b <=? 5) = false ->
  (Math_max 0 (50 - (b - 5) * 10) <=? 50) = true.
Proof. intros N H. exact (g6_anti 5 b (above b 5 N eq_refl H)). Qed.

Lemma lo6 a : nn a = true -> (0 <=? Math_max 0 (50 - (a - 5) * 10)) = true.
Proof.
  intros N.
  assert (N' : nn (50 - (a - 5) * 10) = true).
  { apply sub_nn_r; [reflexivity|]. apply mul_nn; [|reflexivity|exact pos10].
    apply sub_nn; [exact N | reflexivity]. }
  destruct (Math_max_nn 0 _ eq_refl N') as (N2 & V2).
  apply leb_iff. repeat split; try assumption. rewrite V2. lia.
Qed.

Ltac const_le := vm_compute; reflexivity.

Ltac bracket_up :=
  first [ apply up2 | apply up3 | apply up4 | apply up5 | apply up6 ]; assumption.

Ltac bracket_lo :=
  first [ apply lo2 | apply lo3 | apply lo4 | apply lo5 | apply lo6 ]; assumption.

(** Every score of lines 190-205 lies between 0 and 100. *)
Lemma bracketScore_range a : nn a = true ->
  (0 <=? bracketScore a 100) = true /\ (bracketScore a 100 <=? 100) = true.
Proof.
  intros N. unfold bracketScore, gt.
  destruct (0 <? a) eqn:?; [|split; const_le].
  destruct (a <=? 0.1) eqn:?; [split; const_le|].
  destruct (a <=? 0.5) eqn:?;
    [split; [apply leb_trans with 90; [const_le | bracket_lo]
            |apply leb_trans with 98; [bracket_up | const_le]]|].
  destruct (a <=? 1) eqn:?;
    [split; [apply leb_trans with 85; [const_le | bracket_lo]
            |apply leb_trans with 90; [bracket_up | const_le]]|].
  destruct (a <=? 2) eqn:?;
    [split; [apply leb_trans with 80; [const_le | bracket_lo]
            |apply leb_trans with 85; [bracket_up | const_le]]|].
  destruct (a <=? 5) eqn:?;
    [split; [apply leb_trans with 50; [const_le | bracket_lo]
            |apply leb_trans with 80; [bracket_up | const_le]]|].
  split; [bracket_lo | apply leb_trans with 50; [bracket_up | const_le]].
Qed.

Lemma leb_false_up b c c' : (b <=? c') = false -> (c <=? c') = true -> (b <=? c) = false.
Proof.
  intros H Hc. destruct (b <=? c) eqn:E; [|reflexivity].
  rewrite (leb_trans b c c' E Hc) in H. discriminate.
Qed.

Lemma leb_false_mono a b c : (a <=? c) = false -> (a <=? b) = true -> (b <=? c) = false.
Proof.
  intros H Hab. destruct (b <=? c) eqn:E; [|reflexivity].
  rewrite (leb_trans a b c Hab E) in H. discriminate.
Qed.

Lemma pos_of_above b c : nn b = true -> (b <=? c) = false -> (0 <=? c) = true -> (0 <? b) = true.
Proof.
  intros N H Hc. apply ltb_iff. apply leb_iff in Hc. destruct Hc as (N0 & Nc & Hc).
  rewrite leb_FEV in H by assumption. apply Z.leb_gt in H.
  repeat split; try assumption. lia.
Qed.

Lemma val0 b : (0 <? b) = false -> bracketScore b 100 = 100.
Proof. intros H. unfold bracketScore, gt. rewrite H. reflexivity. Qed.

Lemma val1 b : (b <=? 0.1) = true -> bracketScore b 100 = 100.
Proof. intros H. unfold bracketScore, gt. rewrite H. destruct (0 <? b); reflexivity. Qed.

Lemma val2 b : nn b = true -> (b <=? 0.1) = false -> (b <=? 0.5) = true ->
  bracketScore b 100 = 100 - b * 20.
Proof.
  intros N H1 H2. unfold bracketScore, gt.
  rewrite (pos_of_above b 0.1 N H1 eq_refl), H1, H2. reflexivity.
Qed.

Lemma val3 b : nn b = true -> (b <=? 0.5) = false -> (b <=? 1) = true ->
  bracketScore b 100 = 90 - (b - 0.5) * 10.
Proof.
  intros N H1 H2. unfold bracketScore, gt.
  rewrite (pos_of_above b 0.5 N H1 eq_refl), (leb_false_up b 0.1 0.5 H1 eq_refl), H1, H2.
  reflexivity.
Qed.

Lemma val4 b : nn b = true -> (b <=? 1) = false -> (b <=? 2) = true ->
  bracketScore b 100 = 85 - (b - 1) * 5.
Proof.
  intros N H1 H2. unfold bracketScore, gt.
  rewrite (pos_of_above b 1 N H1 eq_refl), (leb_false_up b 0.1 1 H1 eq_refl),
    (leb_false_up b 0.5 1 H1 eq_refl), H1, H2.
  reflexivity.
Qed.

Lemma val5 b : nn b = true -> (b <=? 2) = false -> (b <=? 5) = true ->
  bracketScore b 100 = 80 - (b - 2) * 10.
Proof.
  intros N H1 H2. unfold bracketScore, gt.
  rewrite (pos_of_above b 2 N H1 eq_refl), (leb_false_up b 0.1 2 H1 eq_refl),
    (leb_false_up b 0.5 2 H1 eq_refl), (leb_false_up b 1 2 H1 eq_refl), H1, H2.
  reflexivity.
Qed.

Lemma val6 b : nn b = true -> (b <=? 5) = false ->
  bracketScore b 100 = Math_max 0 (50 - (b - 5) * 10).
Proof.
  intros N H1. unfold bracketScore, gt.
  rewrite (pos_of_above b 5 N H1 eq_refl), (leb_false_up b 0.1 5 H1 eq_refl),
    (leb_false_up b 0.5 5 H1 eq_refl), (leb_false_up b 1 5 H1 eq_refl),
    (leb_false_up b 2 5 H1 eq_refl), H1.
  reflexivity.
Qed.

(** Beyond a bracket's upper end the score is at most the bracket's lowest score. *)
Lemma after5 b : nn b = true -> (b <=? 5) = false -> (bracketScore b 100 <=? 50) = true.
Proof. intros N H. rewrite (val6 b N H). apply up6; assumption. Qed.

Lemma after2 b : nn b = true -> (b <=? 2) = false -> (bracketScore b 100 <=? 80) = true.
Proof.
  intros N H. destruct (b <=? 5) eqn:E.
  - rewrite (val5 b N H E). apply up5; assumption.
  - apply leb_trans with 50; [apply after5; assumption | const_le].
Qed.

Lemma after1 b : nn b = true -> (b <=? 1) = false -> (bracketScore b 100 <=? 85) = true.
Proof.
  intros N H. destruct (b <=? 2) eqn:E.
  - rewrite (val4 b N H E). apply up4; assumption.
  - apply leb_trans with 80; [apply after2; assumption | const_le].
Qed.

Lemma after05 b : nn b = true -> (b <=? 0.5) = false -> (bracketScore b 100 <=? 90) = true.
Proof.
  intros N H. destruct (b <=? 1) eqn:E.
  - rewrite (val3 b N H E). apply up3; assumption.
  - apply leb_trans with 85; [apply after1; assumption | const_le].
Qed.

(** Lines 190-205 are non-increasing in the daily average. *)
Lemma bracketScore_anti a b : (a <=? b) = true ->
  (bracketScore b 100 <=? bracketScore a 100) = true.
Proof.
  intros H. destruct (leb_nn a b H) as [Na Nb].
  destruct (0 <? a) eqn:A0; [|rewrite (val0 a A0); apply bracketScore_range; exact Nb].
  destruct (a <=? 0.1) eqn:A1; [rewrite (val1 a A1); apply bracketScore_range; exact Nb|].
  pose proof (leb_false_mono a b 0.1 A1 H) as B1.
  destruct (a <=? 0.5) eqn:A2.
  { rewrite (val2 a Na A1 A2). destruct (b <=? 0.5) eqn:B2.
    - rewrite (val2 b Nb B1 B2). apply g2_anti. exact H.
    - apply leb_trans with 90; [apply after05; assumption | apply lo2; assumption]. }
  pose proof (leb_false_mono a b 0.5 A2 H) as B2.
  destruct (a <=? 1) eqn:A3.
  { rewrite (val3 a Na A2 A3). destruct (b <=? 1) eqn:B3.
    - rewrite (val3 b Nb B2 B3). apply g3_anti. exact H.
    - apply leb_trans with 85; [apply after1; assumption | apply lo3; assumption]. }
  pose proof (leb_false_mono a b 1 A3 H) as B3.
  destruct (a <=? 2) eqn:A4.
  { rewrite (val4 a Na A3 A4). destruct (b <=? 2) eqn:B4.
    - rewrite (val4 b Nb B3 B4). apply g4_anti. exact H.
    - apply leb_trans with 80; [apply after2; assumption | apply lo4; assumption]. }
  pose proof (leb_false_mono a b 2 A4 H) as B4.
  destruct (a <=? 5) eqn:A5.
  { rewrite (val5 a Na A4 A5). destruct (b <=? 5) eqn:B5.
    - rewrite (val5 b Nb B4 B5). apply g5_anti. exact H.
    - apply leb_trans with 50; [apply after5; assumption | apply lo5; assumption]. }
  pose proof (leb_false_mono a b 5 A5 H) as B5.
  rewrite (val6 a Na A5), (val6 b Nb B5). apply g6_anti. exact H.
Qed.

Lemma nn_bounded_ff x : nn x = true -> (- BIG < FEV x < BIG)%Z -> ff x = true.
Proof.
  unfold nn, ff, FEV. destruct (Prim2SF x) as [s|s| |s m e]; try reflexivity; try discriminate.
  intros _. cbn [EV]. destruct s; cbn [cond_Zopp]; lia.
Qed.

Lemma clamp_facts s : nn s = true ->
  nn (Math_max 0 (Math_min 100 s)) = true /\
  FEV (Math_max 0 (Math_min 100 s)) = Z.max 0 (Z.min (100 * 2 ^ 1074) (FEV s)) /\
  ff (Math_max 0 (Math_min 100 s)) = true.
Proof.
  intros Ns.
  destruct (Math_min_nn 100 s eq_refl Ns) as (Nm & Vm).
  destruct (Math_max_nn 0 _ eq_refl Nm) as (Nc & Vc).
  rewrite Vm, FEV_0, FEV_100 in Vc.
  split; [exact Nc|]. split; [exact Vc|].
  apply nn_bounded_ff; [exact Nc|]. rewrite Vc.
  assert (100 * 2 ^ 1074 < BIG)%Z by (apply Z.ltb_lt; vm_compute; reflexivity).
  pose proof BIG_pos. lia.
Qed.

(** Lines 207-213 return the rounded clamped score whenever the score is a number. *)
Lemma finish_value s : nn s = true ->
  (let score := Math_max 0 (Math_min 100 s) in
   let result := Math_round score in
   if isNaN result || negb (isFinite result) then 85 else result)
  = Math_round (Math_max 0 (Math_min 100 s)).
Proof.
  intros Ns. cbv zeta.
  destruct (Math_min_nn 100 s eq_refl Ns) as (Nm & Vm).
  assert (Hc : Math_max 0 (Math_min 100 s) = 0 \/
               ((0 <? Math_max 0 (Math_min 100 s)) = true /\
                (Math_max 0 (Math_min 100 s) <=? 100) = true)).
  { destruct (Math_max_0 _ Nm) as [E|[H0 E]]; [left; exact E|right].
    rewrite E. split; [exact H0|].
    apply leb_iff. repeat split; [exact Nm|]. rewrite Vm. lia. }
  destruct (Math_round_clamped _ Hc) as (n & Hn & En).
  rewrite En. destruct (Z2float_small n Hn) as [H1 H2].
  unfold isNaN, isFinite. rewrite H1, H2. reflexivity.
Qed.

(** The score of lines 190-205 is a number for every daily average, [NaN]
    included, so the guard of line 212 never replaces the rounded score. *)
Lemma bracketScore_number a : nn (bracketScore a 100) = true.
Proof.
  destruct (nn a) eqn:Na.
  - exact (proj2 (leb_nn _ _ (proj1 (bracketScore_range a Na)))).
  - assert (H : (0 <? a) = false).
    { rewrite ltb_fkey, (nn_fkey a Na). destruct (fkey 0); reflexivity. }
    rewrite (val0 a H). reflexivity.
Qed.

Lemma scoreOfAverage_value a :
  scoreOfAverage a = Math_round (Math_max 0 (Math_min 100 (bracketScore a 100))).
Proof. unfold scoreOfAverage. apply finish_value, bracketScore_number. Qed.

(** So the value returned is an integer between 0 and 100. *)
Lemma scoreOfAverage_integer a :
  exists n, (0 <= n <= 100)%Z /\ scoreOfAverage a = Z2float n.
Proof.
  rewrite scoreOfAverage_value.
  destruct (Math_min_nn 100 (bracketScore a 100) eq_refl (bracketScore_number a)) as (Nm & Vm).
  apply Math_round_clamped.
  destruct (Math_max_0 _ Nm) as [E|[H0 E]]; [left; exact E|right].
  rewrite E. split; [exact H0|].
  apply leb_iff. repeat split; [exact Nm|]. rewrite Vm. lia.
Qed.

Lemma scoreOfAverage_anti a b : (a <=? b) = true ->
  (scoreOfAverage b <=? scoreOfAverage a) = true.
Proof.
  intros H. destruct (leb_nn a b H) as [Na Nb].
  pose proof (bracketScore_anti a b H) as Hs.
  destruct (leb_nn _ _ Hs) as [NB NA].
  unfold scoreOfAverage. rewrite !finish_value by assumption.
  destruct (clamp_facts _ NA) as (N1 & V1 & F1).
  destruct (clamp_facts _ NB) as (N2 & V2 & F2).
  apply Math_round_mono; try assumption.
  apply leb_iff. repeat split; try assumption.
  apply leb_iff in Hs. destruct Hs as (_ & _ & Hs). lia.
Qed.

(** A property holding a number above zero is used as it is. *)
Lemma or_default_pos t d : (0 <? t) = true -> or_default (Some t) d = t.
Proof.
  intros H. apply ltb_iff in H. destruct H as (_ & Nt & H). rewrite FEV_0 in H.
  unfold or_default, truthy, is_zero.
  rewrite (nn_is_nan t Nt), eqb_FEV by (try assumption; reflexivity).
  change (FEV zero) with 0%Z.
  destruct (Z.eqb_spec (FEV t) 0); [lia | reflexivity].
Qed.

Lemma pos_not_zero t : (0 <? t) = true -> strict_eq t 0 = false /\ isNaN t = false.
Proof.
  intros H. apply ltb_iff in H. destruct H as (_ & Nt & H). rewrite FEV_0 in H.
  unfold strict_eq, isNaN. rewrite (nn_is_nan t Nt), eqb_FEV by (try assumption; reflexivity).
  rewrite FEV_0. split; [|reflexivity].
  destruct (Z.eqb_spec (FEV t) 0); [lia | reflexivity].
Qed.

(** With a total and a period above zero the score is that of their quotient. *)
Lemma ecoScore_pos s t d :
  total_emissions_grams s = Some t -> period_days s = Some d ->
  (0 <? t) = true -> (0 <? d) = true ->
  ecoScore (Some s) = scoreOfAverage (avgDaily t d).
Proof.
  intros Et Ed Ht Hd. cbn [ecoScore]. cbv zeta. rewrite Et, Ed.
  rewrite !or_default_pos by assumption.
  destruct (pos_not_zero t Ht) as [-> _]. destruct (pos_not_zero d Hd) as [-> ->].
  reflexivity.
Qed.

End EcoScoreFacts.

(** * The estimator *)

Module EstimatorFacts.
  Import Estimator Binary64 Binary64Facts FloatFacts JSFacts.
  Local Open Scope string_scope.
  Local Open Scope float_scope.

Lemma bra_nonneg m e l : nonneg_sf (binary_round_aux prec emax false m e l).
Proof.
  unfold binary_round_aux.
  destruct (shr_fexp prec emax m e l) as [mrs' e'].
  destruct (shr_fexp prec emax _ e' loc_Exact) as [mrs'' e''].
  destruct (shr_m mrs''); cbn [nonneg_sf]; auto.
  destruct (e'' <=? emax - prec)%Z; exact eq_refl.
Qed.

Lemma SFmul_nonneg x y : nonneg_sf x -> nonneg_sf y -> nonneg_sf (SF64mul x y).
Proof.
  destruct x as [sx|sx| |sx mx ex], y as [sy|sy| |sy my ey]; cbn [nonneg_sf SF64mul SFmul];
    intros Hx Hy; subst; auto.
  apply bra_nonneg.
Qed.

Lemma SFdiv_nonneg x my ey :
  nonneg_sf x -> nonneg_sf (SF64div x (S754_finite false my ey)).
Proof.
  destruct x as [sx|sx| |sx mx ex]; cbn [nonneg_sf SF64div SFdiv];
    intros Hx; subst; auto.
  destruct (SFdiv_core_binary prec emax (Z.pos mx) ex (Z.pos my) ey) as [[mz ez] lz].
  apply bra_nonneg.
Qed.

Lemma mul_nonneg x y : nonneg x -> nonneg y -> nonneg (x * y).
Proof. unfold nonneg. rewrite mul_spec. apply SFmul_nonneg. Qed.

Lemma div_nonneg x c m e :
  Prim2SF c = S754_finite false m e -> nonneg x -> nonneg (x / c).
Proof. intros Ec. unfold nonneg. rewrite div_spec, Ec. apply SFdiv_nonneg. Qed.

Lemma leb_0_nonneg x : (0 <=? x) = true -> nonneg x.
Proof.
  intros H. apply leb_iff in H. destruct H as (_ & Nx & H).
  change (FEV 0) with 0%Z in H.
  pose proof (Prim2SF_valid x) as V.
  unfold nonneg, nn, FEV in *.
  destruct (Prim2SF x) as [s|s| |s m e]; cbn [nonneg_sf EV SV valid_binary] in *; auto.
  - destruct s; [|reflexivity]. cbn [cond_Zopp] in H. pose proof BIG_pos. lia.
  - destruct s; [|reflexivity]. cbn [cond_Zopp] in H.
    destruct (valid_bounds m e V) as (He & _).
    assert (0 < 2 ^ (e + 1074))%Z by (apply Z.pow_pos_nonneg; lia).
    nia.
Qed.

Lemma finite_nonneg_leb x : is_finite x = true -> nonneg x -> (0 <=? x) = true.
Proof.
  intros F H. rewrite is_finite_ff in F. unfold ff, nonneg in *. rewrite leb_spec.
  change (Prim2SF 0) with (S754_zero false).
  destruct (Prim2SF x) as [s|s| |s m e]; try discriminate; cbn [nonneg_sf] in H.
  - reflexivity.
  - subst s. reflexivity.
Qed.

Lemma base_power_nonneg a p : base_power a = Some p -> nonneg p.
Proof.
  unfold base_power.
  repeat (destruct (String.eqb a _); [intros [= <-]; vm_compute; auto|]).
  discriminate.
Qed.

Lemma clamp_nonneg x : nonneg (clamp x 0.5 2).
Proof.
  unfold clamp.
  destruct (x <? 0.5) eqn:H1; [vm_compute; auto|].
  destruct (2 <? x) eqn:H2; [vm_compute; auto|].
  destruct (nn x) eqn:Nx.
  - apply leb_0_nonneg. apply leb_trans with 0.5; [reflexivity|].
    apply ltb_false_le; [exact Nx | reflexivity | exact H1].
  - unfold nonneg, nn in *. destruct (Prim2SF x); try discriminate. exact I.
Qed.

Lemma quality_nonneg q : nonneg (quality_factor q).
Proof. destruct q as [[| |]|]; vm_compute; auto. Qed.

Lemma device_nonneg d : nonneg (device_factor d).
Proof. destruct d as [[| |]|]; vm_compute; auto. Qed.

End EstimatorFacts.

(** * The timer display (pages/Analyzer.jsx) *)

Module AnalyzerFacts.
Import Analyzer.
Local Open Scope string_scope.

Lemma length_append (s1 s2 : string) :
  String.length (s1 ++ s2) = (String.length s1 + String.length s2)%nat.
Proof. induction s1 as [|c s1 IH]; cbn; [reflexivity | rewrite IH; reflexivity]. Qed.

Lemma length_zeros k : String.length (zeros k) = k.
Proof. induction k as [|k IH]; cbn; [reflexivity | rewrite IH; reflexivity]. Qed.

Lemma length_padStart s w :
  String.length (padStart s w) = Nat.max w (String.length s).
Proof. unfold padStart. rewrite length_append, length_zeros. lia. Qed.

(** A number below 100 is padded to exactly two characters. *)
Lemma two_digits n : (0 <= n < 100)%Z -> String.length (padStart (digits n) 2) = 2%nat.
Proof.
  intros Hn.
  assert (H : forallb (fun k => Nat.eqb (String.length (padStart (digits (Z.of_nat k)) 2)) 2)
                      (seq 0 100) = true) by (vm_compute; reflexivity).
  rewrite forallb_forall in H.
  specialize (H (Z.to_nat n)). rewrite Z2Nat.id in H by lia.
  apply Nat.eqb_eq, H, in_seq. lia.
Qed.

(** A number from 100 on has at least three digits, which padding keeps. *)
Lemma three_digits n : (100 <= n)%Z -> (3 <= String.length (padStart (digits n) 2))%nat.
Proof.
  intros Hn. rewrite length_padStart. unfold digits.
  pose proof (DecimalN.Unsigned.of_to (Z.to_N n)) as E.
  destruct (N.to_uint (Z.to_N n)) as [|d|d|d|d|d|d|d|d|d|d];
    try (exfalso; cbn in E; lia);
    destruct d as [|d|d|d|d|d|d|d|d|d|d];
    try (exfalso; cbn in E; lia);
    destruct d as [|d|d|d|d|d|d|d|d|d|d];
    try (exfalso; cbn in E; lia);
    cbn; lia.
Qed.

End AnalyzerFacts.

(** * The activity breakdown (components/EmissionChart.jsx) *)

Module ChartFacts.
  Import JS EmissionChart Binary64 Binary64Facts FloatFacts JSFacts.
  Local Open Scope string_scope.
  Local Open Scope float_scope.

Lemma fkey_0 : fkey 0 = Some 0%Z.
Proof. reflexivity. Qed.

Lemma fkey_1 : fkey 1 = Some KONE.
Proof. vm_compute. reflexivity. Qed.

Lemma leb_0_iff x : (0 <=? x) = true <-> nn x = true /\ (0 <= FEV x)%Z.
Proof.
  rewrite leb_iff. change (FEV 0) with 0%Z. change (nn 0) with true. tauto.
Qed.

(** Adding numbers that are not negative. *)
Lemma add_nonneg a b : (0 <=? a) = true -> (0 <=? b) = true ->
  (0 <=? a + b) = true /\ (a <=? a + b) = true /\ (b <=? a + b) = true.
Proof.
  intros Ha Hb. apply leb_0_iff in Ha, Hb. destruct Ha as [Na Pa], Hb as [Nb Pb].
  destruct (SFadd_nonneg (Prim2SF a) (Prim2SF b)) as (_ & Hk);
    try apply Prim2SF_valid; try assumption.
  rewrite <- add_spec in Hk. fold (fkey (a + b)) in Hk. fold (FEV a) (FEV b) in Hk.
  pose proof (fkey_FEV a Na) as Ka. pose proof (fkey_FEV b Nb) as Kb.
  assert (K0 : fkey 0 = Some (sKV 1074 0)) by reflexivity.
  repeat split.
  - eapply leb_of_keys; [exact K0 | exact Hk | apply sKV_mono; lia].
  - eapply leb_of_keys; [exact Ka | exact Hk | apply sKV_mono; lia].
  - eapply leb_of_keys; [exact Kb | exact Hk | apply sKV_mono; lia].
Qed.

Lemma pos_finite_SF x : (0 <? x) = true -> ff x = true ->
  exists m e, Prim2SF x = S754_finite false m e /\ bounded prec emax m e = true
              /\ FEV x = (Zpos m * 2 ^ (e + 1074))%Z.
Proof.
  intros H F. apply ltb_iff in H. destruct H as (_ & _ & H). change (FEV 0) with 0%Z in H.
  pose proof (Prim2SF_valid x) as V. unfold ff, FEV in *.
  destruct (Prim2SF x) as [s|s| |s m e]; try discriminate; cbn [EV SV valid_binary] in *; try lia.
  destruct (valid_bounds m e V) as (He & _).
  assert (0 < 2 ^ (e + 1074))%Z by (apply Z.pow_pos_nonneg; lia).
  destruct s; cbn [cond_Zopp] in *; [nia|]. eauto.
Qed.

(** The quotient of two finite numbers above zero. *)
Lemma div_pos x y : (0 <? x) = true -> ff x = true -> (0 <? y) = true -> ff y = true ->
  (0 <=? x / y) = true /\ ((x <=? y) = true -> (x / y <=? 1) = true).
Proof.
  intros Hx Fx Hy Fy.
  destruct (pos_finite_SF x Hx Fx) as (mx & ex & Ex & Bx & Vx).
  destruct (pos_finite_SF y Hy Fy) as (my & ey & Ey & By & Vy).
  destruct (SFdiv_pos mx ex my ey Bx By) as (_ & _ & k & Hk & Hk0 & Hk1).
  rewrite <- Ex, <- Ey, <- div_spec in Hk. fold (fkey (x / y)) in Hk.
  split.
  - eapply leb_of_keys; [exact fkey_0 | exact Hk | exact Hk0].
  - intros Hle. apply leb_iff in Hle. destruct Hle as (_ & _ & Hle).
    rewrite Vx, Vy in Hle.
    eapply leb_of_keys; [exact Hk | exact fkey_1 |].
    apply (Hk1 0%Z); [lia | rewrite Z.add_0_r; exact Hle].
Qed.

(** A finite number that is not negative, divided by a number above zero,
    lies between 0 and 1 when it is at most the divisor. *)
Lemma div_unit w t : (0 <=? w) = true -> ff w = true -> (0 <? t) = true -> (w <=? t) = true ->
  (0 <=? w / t) = true /\ (w / t <=? 1) = true.
Proof.
  intros Hw Fw Ht Hle.
  destruct (w <=? 0) eqn:Hw0.
  - (* w is a zero *)
    assert (Ew : exists s, Prim2SF w = S754_zero s).
    { apply leb_iff in Hw. apply leb_iff in Hw0.
      destruct Hw as (_ & _ & H1). destruct Hw0 as (_ & _ & H2).
      change (FEV 0) with 0%Z in *.
      pose proof (Prim2SF_valid w) as V. unfold ff, FEV in *.
      destruct (Prim2SF w) as [s|s| |s m e]; try discriminate; [eauto|].
      exfalso. cbn [EV SV valid_binary] in *. destruct (valid_bounds m e V) as (He & _).
      assert (0 < 2 ^ (e + 1074))%Z by (apply Z.pow_pos_nonneg; lia).
      destruct s; cbn [cond_Zopp] in *; nia. }
    destruct Ew as (s & Ew).
    assert (Et : exists s', (exists m e, Prim2SF t = S754_finite s' m e) \/ Prim2SF t = S754_infinity s').
    { apply ltb_iff in Ht. destruct Ht as (_ & Nt & Ht). change (FEV 0) with 0%Z in Ht.
      unfold nn, FEV in *. destruct (Prim2SF t) as [s'|s'| |s' m e]; try discriminate; eauto. }
    assert (Eq : exists s'', Prim2SF (w / t) = S754_zero s'').
    { rewrite div_spec, Ew. destruct Et as (s' & [(m & e & ->)| ->]); cbn; eauto. }
    destruct Eq as (s'' & Eq).
    assert (K : fkey (w / t) = Some 0%Z) by (unfold fkey; rewrite Eq; reflexivity).
    split; eapply leb_of_keys; try exact K; try exact fkey_0; try exact fkey_1;
      unfold KONE; lia.
  - assert (Hpos : (0 <? w) = true).
    { apply leb_false_lt; [exact (proj2 (leb_nn _ _ Hw)) | reflexivity | exact Hw0]. }
    destruct (ff t) eqn:Ft.
    + destruct (div_pos w t Hpos Fw Ht Ft) as [H0 H1]. split; [exact H0 | exact (H1 Hle)].
    + (* the divisor is infinite *)
      assert (Et : Prim2SF t = S754_infinity false).
      { apply ltb_iff in Ht. destruct Ht as (_ & Nt & Ht). change (FEV 0) with 0%Z in Ht.
        unfold nn, ff, FEV in *. destruct (Prim2SF t) as [s'|s'| |s' m e]; try discriminate.
        destruct s'; [cbn in Ht; pose proof BIG_pos; lia | reflexivity]. }
      destruct (pos_finite_SF w Hpos Fw) as (m & e & Ew & _).
      assert (K : fkey (w / t) = Some 0%Z) by (unfold fkey; rewrite div_spec, Ew, Et; reflexivity).
      split; eapply leb_of_keys; try exact K; try exact fkey_0; try exact fkey_1;
        unfold KONE; lia.
Qed.

Lemma div60_nonneg v : (0 <? v) = true -> (0 <=? v / 60) = true.
Proof.
  intros Hv. destruct (ff v) eqn:Fv.
  - apply (div_pos v 60 Hv Fv); reflexivity.
  - assert (Ev : Prim2SF v = S754_infinity false).
    { apply ltb_iff in Hv. destruct Hv as (_ & Nv & Hv). change (FEV 0) with 0%Z in Hv.
      unfold nn, ff, FEV in *. destruct (Prim2SF v) as [s'|s'| |s' m e]; try discriminate.
      destruct s'; [cbn in Hv; pose proof BIG_pos; lia | reflexivity]. }
    assert (K : fkey (v / 60) = Some KINF).
    { unfold fkey. rewrite div_spec, Ev. reflexivity. }
    eapply leb_of_keys; [exact fkey_0 | exact K | unfold KINF; lia].
Qed.

Lemma Math_round_nonneg x : (0 <=? x) = true -> (0 <=? Math_round x) = true.
Proof.
  intros Hx. destruct (ff x) eqn:Fx.
  - apply leb_0_iff in Hx. destruct Hx as [_ Px].
    eapply leb_of_keys; [exact fkey_0 | apply Math_round_fkey; exact Fx |].
    change 0%Z with (sKV 1074 (RZ 0 * 2 ^ 1074)).
    apply sKV_mono; [lia|]. apply Z.mul_le_mono_nonneg_r; [apply Z.pow_nonneg; lia|].
    apply RZ_mono. exact Px.
  - unfold Math_round. unfold ff in Fx.
    destruct (Prim2SF x) as [s'|s'| |s' m e]; try discriminate; exact Hx.
Qed.

(** The minutes of every charted activity are a number that is not negative. *)
Lemma chartData_nonneg m item : In item (chartData m) -> (0 <=? value item) = true.
Proof.
  unfold chartData. rewrite in_map_iff. intros (raw & <- & Hin).
  apply filter_In in Hin. destruct Hin as [_ Hgt]. cbn [toMinutes value].
  apply Math_round_nonneg, div60_nonneg. exact Hgt.
Qed.

(** Line 237: the total is at least every summand. *)
Lemma totalMinutes_bounds items :
  (forall item, In item items -> (0 <=? value item) = true) ->
  forall acc, (0 <=? acc) = true ->
    let total := fold_left (fun sum item => sum + value item) items acc in
    (acc <=? total) = true /\
    (forall item, In item items -> (value item <=? total) = true).
Proof.
  induction items as [|it items IH]; intros Hall acc Hacc; cbn [fold_left].
  - split; [apply leb_refl; exact (proj2 (leb_nn _ _ Hacc)) | intros ? []].
  - destruct (add_nonneg acc (value it) Hacc (Hall it (or_introl eq_refl))) as (H0 & H1 & H2).
    destruct (IH (fun i Hi => Hall i (or_intror Hi)) (acc + value it) H0) as [Hle Hin].
    split; [eapply leb_trans; eassumption|].
    intros item [<-|Hi]; [eapply leb_trans; eassumption | apply Hin; exact Hi].
Qed.

Lemma percentOf_range total item :
  (0 <=? value item) = true -> is_finite (value item) = true ->
  (value item <=? total) = true ->
  (0 <=? percentOf total item) = true /\ (percentOf total item <=? 100) = true.
Proof.
  intros H0 F Hle. unfold percentOf, gt.
  destruct (0 <? total) eqn:Ht; [|split; reflexivity].
  rewrite is_finite_ff in F.
  destruct (div_unit (value item) total H0 F Ht Hle) as [Q0 Q1].
  split.
  - exact (mul_mono_l 100 0 (value item / total) eq_refl ltac:(apply Z.ltb_lt; vm_compute; reflexivity) Q0).
  - exact (mul_mono_l 100 (value item / total) 1 eq_refl ltac:(apply Z.ltb_lt; vm_compute; reflexivity) Q1).
Qed.

Lemma breakdown_In data item : In item (breakdown data) ->
  exists it, In it (chartData (aggregate data)) /\
    item = withPercent (totalMinutes (chartData (aggregate data))) it.
Proof.
  destruct data as [|log data]; [intros []|].
  unfold breakdown. cbv zeta. rewrite in_map_iff. intros (it & <- & Hin). eauto.
Qed.

End ChartFacts.

(** * Magnitudes in the estimator

  The estimator rejects a record holding a non-finite number.  The bounds
  below show that none arises from a finite duration: every intermediate
  quantity stays under a power of two that binary64 represents. *)

Module EstimateBounds.
Import JS Estimator Binary64 Binary64Facts FloatFacts JSFacts ChartFacts EstimatorFacts.
Local Open Scope Z_scope.

(** The number [2^k]: its key and its value. *)
Lemma pow2_sf_facts k : 0 <= k <= 1023 ->
  valid_binary (pow2_sf k) = true /\ skey (pow2_sf k) = Some ((k + 1023) * 2 ^ 52)
  /\ EV (pow2_sf k) = 2 ^ (k + 1074).
Proof.
  intros Hk. unfold pow2_sf. repeat split.
  - cbn [valid_binary]. apply bounded_intro; pow_consts; lia.
  - cbn [skey cond_Zopp]. rewrite Z2Pos.id by (pow_consts; lia). f_equal. lia.
  - cbn [EV SV cond_Zopp]. rewrite Z2Pos.id by (pow_consts; lia).
    rewrite <- Z.pow_add_r by lia. f_equal. lia.
Qed.

(** The key of [2^k] given at any scale. *)
Lemma sKV_pow2 B k : 1074 <= B -> 0 <= k <= 1023 -> sKV B (2 ^ (k + B)) = (k + 1023) * 2 ^ 52.
Proof.
  intros HB Hk. assert (Hp : 0 < 2 ^ (k + B)) by (apply Z.pow_pos_nonneg; lia).
  unfold sKV. rewrite Z.sgn_pos, Z.abs_eq by lia. rewrite Z.mul_1_l.
  unfold KV. rewrite Z.log2_pow2 by lia.
  rewrite Z.max_l by lia.
  replace (2 ^ (k + B)) with (2 ^ 52 * 2 ^ (k + B + 1 - 53)) by (rewrite <- Z.pow_add_r by lia; f_equal; lia).
  rewrite rne_exact by lia. unfold KINF. pow_consts. lia.
Qed.

(** A key between those of 0 and [2^k] belongs to a number between 0 and
    [2^k]. *)
Lemma below_key x key k : fkey x = Some key -> 0 <= k <= 1023 ->
  0 <= key <= (k + 1023) * 2 ^ 52 -> below k x.
Proof.
  intros K Hk [H0 H1]. destruct (pow2_sf_facts k Hk) as (V & Kp & E).
  pose proof (Prim2SF_valid x) as Vx.
  split; [eapply fkey_nn; exact K|]. unfold FEV. split.
  - change 0 with (EV (S754_zero false)).
    apply (EV_le_iff (S754_zero false) (Prim2SF x) 0 key); [reflexivity | exact Vx | reflexivity | exact K | exact H0].
  - rewrite <- E. apply (EV_le_iff (Prim2SF x) (pow2_sf k) key _ Vx V K Kp). exact H1.
Qed.

(** Such a number is finite. *)
Lemma below_ff k x : k <= 1024 -> below k x -> ff x = true.
Proof.
  intros Hk (N & H0 & H1). pose proof BIG_gap as G. pose proof BIG_pos as [_ HB].
  assert (2 ^ (k + 1074) <= 2 ^ 2098) by (apply Z.pow_le_mono_r; lia).
  assert (0 < 2 ^ 2098) by (apply Z.pow_pos_nonneg; lia).
  change (1074 + 1024) with 2098 in G.
  unfold nn, FEV, ff in *. destruct (Prim2SF x) as [s|s| |s m e]; try discriminate; try reflexivity.
  destruct s; cbn [EV cond_Zopp] in *; lia.
Qed.

(** Products of bounded numbers stay bounded. *)
Lemma mul_below a b x y : 0 <= a -> 0 <= b -> a + b <= 1023 ->
  below a x -> below b y -> below (a + b) (x * y)%float.
Proof.
  intros Ha Hb Hab Bx By.
  pose proof (below_ff a x ltac:(lia) Bx) as Fx. pose proof (below_ff b y ltac:(lia) By) as Fy.
  destruct Bx as (_ & X0 & X1), By as (_ & Y0 & Y1).
  destruct (SFmul_key (Prim2SF x) (Prim2SF y)) as (_ & K);
    try apply Prim2SF_valid; try assumption.
  rewrite <- mul_spec in K. fold (fkey (x * y)%float) in K.
  unfold FEV in *. rewrite (EV_finite _ Fx) in X0, X1. rewrite (EV_finite _ Fy) in Y0, Y1.
  apply (below_key _ _ _ K); [lia|].
  split.
  - change 0 with (sKV 2148 0). apply sKV_mono; [lia | nia].
  - rewrite <- (sKV_pow2 2148) by lia. apply sKV_mono; [lia|].
    replace (a + b + 2148) with ((a + 1074) + (b + 1074)) by lia.
    rewrite Z.pow_add_r by lia.
    apply Z.mul_le_mono_nonneg; lia.
Qed.

(** Dividing finite non-zero numbers never gives [NaN]. *)
Lemma SFdiv_finite_nn sx mx ex sy my ey :
  not_nan (SF64div (S754_finite sx mx ex) (S754_finite sy my ey)) = true.
Proof.
  unfold SF64div. cbn [SFdiv].
  pose proof (div_core_spec mx ex my ey) as Hcore. cbv zeta in Hcore.
  pose proof (div_fine mx ex my ey) as Hfine. cbv zeta in Hfine.
  destruct Hcore as (q & r & l & Ecore & Eq & Hr & Hq & _).
  specialize (Hfine q r Eq Hr Hq). rewrite Ecore.
  destruct (bra_gen (xorb sx sy) q _ l Hq Hfine) as (m1 & _ & _ & _ & _ & Hs & _).
  destruct (binary_round_aux _ _ _ _ _ _); [reflexivity | reflexivity | destruct Hs | reflexivity].
Qed.

Lemma div_nn x c : nn x = true -> (0 <? c)%float = true -> ff c = true -> nn (x / c)%float = true.
Proof.
  intros N Hc Fc. destruct (pos_finite_SF c Hc Fc) as (m & e & Ec & _).
  unfold nn in *. rewrite div_spec, Ec.
  destruct (Prim2SF x) as [s|s| |s mx ex]; try discriminate; try reflexivity.
  apply SFdiv_finite_nn.
Qed.

(** Dividing by a number that is at least [2^j] lowers the bound by [j]. *)
Lemma div_below a j x c : a <= 1024 -> 0 <= j -> 0 <= a - j <= 1023 ->
  below a x -> (0 <? c)%float = true -> ff c = true -> 2 ^ (j + 1074) <= FEV c ->
  below (a - j) (x / c)%float.
Proof.
  intros Ha Hj Hk Bx Hc Fc Hjc.
  pose proof (below_ff a x Ha Bx) as Fx. destruct Bx as (_ & X0 & X1).
  destruct (pos_finite_SF c Hc Fc) as (my & ey & Ec & By & Vc).
  pose proof (Prim2SF_valid x) as Vx.
  unfold FEV, ff in X0, X1, Fx.
  destruct (Prim2SF x) as [s|s| |s mx ex] eqn:Ex; try discriminate.
  - apply (below_key _ 0); [unfold fkey; rewrite div_spec, Ex, Ec; reflexivity | lia |].
    pow_consts. lia.
  - cbn [valid_binary] in Vx. destruct (valid_bounds mx ex Vx) as (Hex & _).
    destruct (valid_bounds my ey By) as (Hey & _).
    assert (0 < 2 ^ (ex + 1074)) by (apply Z.pow_pos_nonneg; lia).
    cbn [EV SV] in X0, X1.
    destruct s; cbn [cond_Zopp] in X0, X1; [nia|].
    destruct (SFdiv_pos mx ex my ey Vx By) as (_ & _ & key & K & K0 & K1).
    rewrite <- Ex, <- Ec, <- div_spec in K. fold (fkey (x / c)%float) in K.
    apply (below_key _ _ _ K); [lia|]. split; [exact K0|].
    apply K1; [lia|].
    rewrite Vc in Hjc. eapply Z.le_trans; [exact X1|].
    replace (a + 1074) with ((j + 1074) + (a - j)) by lia.
    rewrite (Z.pow_add_r 2 (j + 1074) (a - j)), (Z.pow_add_r 2 (ey + 1074) (a - j)) by lia.
    rewrite Z.mul_assoc.
    apply Z.mul_le_mono_nonneg_r; [apply Z.pow_nonneg; lia | exact Hjc].
Qed.

Local Open Scope float_scope.

Ltac below_const :=
  split; [reflexivity | split; apply Z.leb_le; vm_compute; reflexivity].

Lemma base_power_below a p : base_power a = Some p -> below 6 p.
Proof.
  unfold base_power. intros H.
  repeat match type of H with
         | (if ?c then _ else _) = _ => destruct c
         end; try discriminate; injection H as <-; below_const.
Qed.

Lemma quality_below q : below 1 (quality_factor q).
Proof. destruct q as [[| |]|]; below_const. Qed.

Lemma device_below d : below 1 (device_factor d).
Proof. destruct d as [[| |]|]; below_const. Qed.

(** The load factor of a CPU percentage that is a number lies in [0, 2]. *)
Lemma cpu_factor_below cpu : is_nan cpu = false -> below 1 (cpu_factor cpu).
Proof.
  intros N. rewrite is_nan_nn in N. apply negb_false_iff in N.
  unfold cpu_factor, clamp.
  assert (Nv : nn (cpu / 50) = true) by (apply div_nn; [exact N | reflexivity | reflexivity]).
  destruct (cpu / 50 <? 0.5) eqn:H1; [below_const|].
  destruct (2 <? cpu / 50) eqn:H2; [below_const|].
  rewrite ltb_FEV in H1, H2 by (try exact Nv; reflexivity).
  apply Z.ltb_ge in H1, H2.
  assert (E2 : (FEV 2 <= 2 ^ (1 + 1074))%Z) by (apply Z.leb_le; vm_compute; reflexivity).
  assert (E1 : (0 <= FEV 0.5)%Z) by (apply Z.leb_le; vm_compute; reflexivity).
  split; [exact Nv | lia].
Qed.

(** Every finite duration that is not negative is below [2^1024]. *)
Lemma finite_below d : (0 <=? d) = true -> is_finite d = true -> below 1024 d.
Proof.
  intros H F. rewrite is_finite_ff in F. apply leb_0_iff in H. destruct H as [N H].
  split; [exact N|]. split; [exact H|].
  pose proof (SV_bounds (Prim2SF d) (Prim2SF_valid d)) as B.
  unfold FEV. rewrite (EV_finite _ F). change (1024 + 1074)%Z with 2098%Z. lia.
Qed.

(** On a finite duration and a CPU percentage that is a number, every
    quantity of the result is finite, so a result is returned. *)
Lemma estimate_total a d md cpu p :
  base_power a = Some p -> (0 <=? d) = true -> is_finite d = true -> is_nan cpu = false ->
  exists r, estimate a d md cpu = inr r.
Proof.
  intros Hp Hd Fd Nc. unfold estimate. rewrite Hp.
  assert (Hlt : (d <? 0) = false).
  { apply leb_iff in Hd. destruct Hd as (N0 & Nd & Hd).
    rewrite ltb_FEV by assumption. apply Z.ltb_ge. exact Hd. }
  rewrite Hlt. cbv zeta.
  set (factor := cpu_factor cpu).
  set (power := p * factor * quality_factor (quality md) * device_factor (device_type md)).
  set (energy := power * (d / 3600) / 1000).
  assert (Bf : below 1 factor) by (apply cpu_factor_below; exact Nc).
  assert (Bp : below 9 power).
  { unfold power. change 9%Z with (6 + 1 + 1 + 1)%Z.
    repeat apply mul_below; try lia.
    - eapply base_power_below; exact Hp.
    - exact Bf.
    - apply quality_below.
    - apply device_below. }
  assert (Bt : below 1013 (d / 3600)).
  { change 1013%Z with (1024 - 11)%Z. apply div_below; try lia; try reflexivity.
    - apply finite_below; assumption.
    - apply Z.leb_le. vm_compute. reflexivity. }
  assert (Be : below 1013 energy).
  { unfold energy. change 1013%Z with (9 + 1013 - 9)%Z. apply div_below; try lia; try reflexivity.
    - apply mul_below; try lia; assumption.
    - apply Z.leb_le. vm_compute. reflexivity. }
  assert (Bc : below 1022 (energy * GRID_INTENSITY)).
  { change 1022%Z with (1013 + 9)%Z. apply mul_below; try lia; [exact Be | below_const]. }
  assert (Hall : all_finite {| energy_kwh := energy; co2_grams := energy * GRID_INTENSITY;
                   power_watts := power; cpu_load_factor := factor |} = true).
  { unfold all_finite. cbn [energy_kwh co2_grams power_watts cpu_load_factor].
    rewrite !is_finite_ff.
    rewrite (below_ff 1013 energy), (below_ff 1022 (energy * GRID_INTENSITY)),
            (below_ff 9 power), (below_ff 1 factor) by (assumption || lia).
    reflexivity. }
  rewrite Hall. eexists. reflexivity.
Qed.

End EstimateBounds.

(** * The tracker's timer on Numbers (pages/Analyzer.jsx)

  The timer divides and takes remainders of binary64 Numbers.  For whole
  seconds below 2^52 the results are the integer quotient and remainder. *)

Module TimerFacts.
Import JS Analyzer Binary64 Binary64Facts FloatFacts JSFacts ChartFacts AnalyzerFacts.
Local Open Scope Z_scope.

(** An integer below [2^53] is a Number. *)
Lemma Z2float_FEV a : 0 <= a < 2 ^ 53 ->
  ff (Z2float a) = true /\ FEV (Z2float a) = a * 2 ^ 1074.
Proof.
  intros Ha.
  destruct (Z2float_SF a) as (Hv & _ & Hk). unfold fkey in Hk.
  destruct (Z.eq_dec a 0) as [->|Hne]; [split; reflexivity|].
  pose proof (Z.log2_spec a ltac:(lia)) as [L1 L2].
  pose proof (Z.log2_nonneg a) as L0.
  assert (L53 : Z.log2 a < 53) by (apply Z.log2_lt_pow2; lia).
  set (d := Z.log2 a) in *.
  set (m := a * 2 ^ (52 - d)).
  assert (Hp : 0 < 2 ^ (52 - d)) by (apply Z.pow_pos_nonneg; lia).
  assert (Hm1 : 2 ^ 52 <= m).
  { unfold m. replace 52 with (d + (52 - d)) at 1 by lia.
    rewrite Z.pow_add_r by lia. apply Z.mul_le_mono_nonneg_r; lia. }
  assert (Hm2 : m < 2 ^ 53).
  { unfold m. replace 53 with (Z.succ d + (52 - d)) at 1 by lia.
    rewrite Z.pow_add_r by lia. apply Z.mul_lt_mono_pos_r; lia. }
  assert (Hval : m * 2 ^ (d - 52 + 1074) = a * 2 ^ 1074).
  { unfold m. rewrite <- Z.mul_assoc, <- Z.pow_add_r by lia. f_equal. f_equal. lia. }
  assert (Hkey : sKV 1074 (a * 2 ^ 1074) = (d - 52 + 1074) * 2 ^ 52 + m).
  { pose proof (skey_SV (S754_finite false (Z.to_pos m) (d - 52))) as K.
    cbn [skey SV cond_Zopp is_finite_SF valid_binary] in K.
    rewrite Z2Pos.id in K by lia. rewrite Hval in K.
    specialize (K ltac:(apply bounded_intro; pow_consts; lia) eq_refl).
    apply Some_inj in K. symmetry. exact K. }
  rewrite Hkey in Hk.
  destruct (key_value _ m (d - 52) Hv ltac:(lia) ltac:(lia) ltac:(lia)
              ltac:(pow_consts; lia) Hk) as (F & V).
  split; [exact F|]. unfold FEV. rewrite (EV_finite _ F), V. exact Hval.
Qed.

Lemma Z2float_pos_SF a : 0 < a < 2 ^ 53 ->
  exists m e, Prim2SF (Z2float a) = S754_finite false m e /\ bounded prec emax m e = true
              /\ Zpos m * 2 ^ (e + 1074) = a * 2 ^ 1074.
Proof.
  intros Ha. destruct (Z2float_FEV a ltac:(lia)) as (F & V).
  assert (Hpos : (0 <? Z2float a)%float = true).
  { apply ltb_iff. split; [reflexivity|]. split; [apply ff_nn; exact F|].
    rewrite V. change (FEV 0) with 0. assert (0 < 2 ^ 1074) by (apply Z.pow_pos_nonneg; lia). nia. }
  destruct (pos_finite_SF _ Hpos F) as (m & e & E & B & Vm).
  exists m, e. repeat split; try assumption. rewrite <- Vm. exact V.
Qed.

Local Open Scope float_scope.

Lemma Z2float_0 : Z2float 0 = 0.
Proof. reflexivity. Qed.

(** [Math.floor] of a finite number that is not negative: the integer part
    of its value. *)
Lemma Math_floor_pos x m e :
  Prim2SF x = S754_finite false m e -> bounded prec emax m e = true ->
  Math_floor x = Z2float (Zpos m * 2 ^ (e + 1074) / 2 ^ 1074).
Proof.
  intros E B. destruct (valid_bounds m e B) as (He & Hm & _).
  assert (Fx : ff x = true) by (unfold ff; rewrite E; reflexivity).
  assert (Vx : FEV x = (Zpos m * 2 ^ (e + 1074))%Z) by (unfold FEV; rewrite E; reflexivity).
  unfold Math_floor. rewrite E. cbn [cond_Zopp].
  destruct (Z.leb_spec 0 e) as [H0|H0].
  - replace (e + 1074)%Z with (1074 + e)%Z by lia.
    rewrite (Z.pow_add_r 2 1074 e), (Z.mul_comm (2 ^ 1074)), Z.mul_assoc by lia.
    rewrite Z.div_mul by (apply Z.pow_nonzero; lia).
    apply Z2float_eq; [exact Fx | |].
    + rewrite Vx. replace (e + 1074)%Z with (e + 1074)%Z by lia.
      rewrite (Z.pow_add_r 2 e 1074) by lia. ring.
    + assert (0 < 2 ^ e)%Z by (apply Z.pow_pos_nonneg; lia). nia.
  - assert (Eq : (Zpos m * 2 ^ (e + 1074) / 2 ^ 1074 = Zpos m / 2 ^ (- e))%Z).
    { replace (2 ^ 1074)%Z with (2 ^ (- e) * 2 ^ (e + 1074))%Z
        by (rewrite <- Z.pow_add_r by lia; f_equal; lia).
      apply Z.div_mul_cancel_r; apply Z.pow_nonzero; lia. }
    rewrite Eq. destruct (Z.eqb_spec (Zpos m / 2 ^ (- e)) 0) as [->|Hn]; reflexivity.
Qed.

(** The integer quotient of two integers, computed on Numbers. *)
Lemma div_floor a c : (0 <= a < 2 ^ 52)%Z -> (0 < c < 2 ^ 53)%Z ->
  Math_floor (Z2float a / Z2float c) = Z2float (a / c).
Proof.
  intros Ha Hc.
  destruct (Z2float_pos_SF c Hc) as (my & ey & Ec & By & Vc).
  assert (Hp : (0 < 2 ^ 1074)%Z) by (apply Z.pow_pos_nonneg; lia).
  destruct (Z.eq_dec a 0) as [->|Hne].
  - rewrite Z.div_0_l by lia. rewrite Z2float_0.
    assert (E : Prim2SF (0 / Z2float c) = S754_zero false) by (rewrite div_spec, Ec; reflexivity).
    unfold Math_floor. rewrite E. apply Prim2SF_inj. rewrite E. reflexivity.
  - destruct (Z2float_pos_SF a ltac:(lia)) as (mx & ex & Ea & Bx & Va).
    pose proof (Z.div_mod a c ltac:(lia)) as Hdm.
    pose proof (Z.mod_pos_bound a c ltac:(lia)) as Hmod.
    assert (Hk0 : (0 <= a / c)%Z) by (apply Z.div_pos; lia).
    destruct (SFdiv_floor mx ex my ey (a / c) Bx By) as (Vr & Fr & Sr & Lo & Hi).
    + rewrite Va. replace (2 ^ 1126)%Z with (2 ^ 52 * 2 ^ 1074)%Z
        by (rewrite <- Z.pow_add_r by lia; reflexivity).
      apply Z.mul_lt_mono_pos_r; lia.
    + rewrite Vc. nia.
    + exact Hk0.
    + rewrite Va, Vc. rewrite Z.mul_assoc. apply Z.mul_le_mono_nonneg_r; nia.
    + rewrite Va, Vc. replace (a * 2 ^ 1074 + 2 ^ 1074)%Z with ((a + 1) * 2 ^ 1074)%Z by ring.
      rewrite Z.mul_assoc. apply Z.mul_le_mono_nonneg_r; nia.
    + rewrite <- Ea, <- Ec, <- div_spec in Vr, Fr, Sr, Lo, Hi.
      set (x := Z2float a / Z2float c) in *.
      destruct (Prim2SF x) as [s|s| |s m e] eqn:Ex; try discriminate.
      * cbn in Sr. subst s. cbn [SV] in Lo, Hi.
        assert (a / c = 0)%Z by nia.
        rewrite H, Z2float_0. unfold Math_floor. rewrite Ex.
        apply Prim2SF_inj. rewrite Ex. reflexivity.
      * cbn in Sr. subst s. cbn [valid_binary] in Vr.
        rewrite (Math_floor_pos x m e Ex Vr). cbn [SV cond_Zopp] in Lo, Hi.
        f_equal. symmetry. apply Z.div_unique with (r := (Zpos m * 2 ^ (e + 1074) - a / c * 2 ^ 1074)%Z).
        -- left. lia.
        -- ring.
Qed.

(** The remainder of two integers, computed on Numbers. *)
Lemma rem_int a c : (0 <= a < 2 ^ 53)%Z -> (0 < c < 2 ^ 53)%Z ->
  rem (Z2float a) (Z2float c) = Z2float (a mod c).
Proof.
  intros Ha Hc.
  destruct (Z2float_pos_SF c Hc) as (md & ed & Ec & Bd & Vc).
  destruct (Z.eq_dec a 0) as [->|Hne].
  - rewrite Z.mod_0_l by lia. unfold rem. rewrite Ec. reflexivity.
  - destruct (Z2float_pos_SF a ltac:(lia)) as (mn & en & Ea & Bn & Va).
    destruct (valid_bounds mn en Bn) as (Hen & _). destruct (valid_bounds md ed Bd) as (Hed & _).
    unfold rem. rewrite Ea, Ec. cbv zeta.
    set (e := Z.min en ed).
    assert (He : (-1074 <= e)%Z) by (unfold e; lia).
    set (U := (2 ^ (e + 1074))%Z).
    assert (HU : (0 < U)%Z) by (apply Z.pow_pos_nonneg; lia).
    assert (An : (Zpos mn * 2 ^ (en - e) * U = a * 2 ^ 1074)%Z).
    { unfold U. rewrite <- Z.mul_assoc, <- Z.pow_add_r by (unfold e; lia).
      replace (en - e + (e + 1074))%Z with (en + 1074)%Z by lia. exact Va. }
    assert (Ad : (Zpos md * 2 ^ (ed - e) * U = c * 2 ^ 1074)%Z).
    { unfold U. rewrite <- Z.mul_assoc, <- Z.pow_add_r by (unfold e; lia).
      replace (ed - e + (e + 1074))%Z with (ed + 1074)%Z by lia. exact Vc. }
    set (N := (Zpos mn * 2 ^ (en - e))%Z) in *.
    set (D := (Zpos md * 2 ^ (ed - e))%Z) in *.
    assert (HD : (0 < D)%Z) by (unfold D; apply Z.mul_pos_pos; [lia | apply Z.pow_pos_nonneg; unfold e; lia]).
    assert (Er : ((N mod D) * U = (a mod c) * 2 ^ 1074)%Z).
    { rewrite <- !Zmult_mod_distr_r. rewrite An, Ad. reflexivity. }
    pose proof (Z.mod_pos_bound N D HD) as Hr.
    pose proof (Z.mod_pos_bound a c ltac:(lia)) as Hac.
    assert (Hp : (0 < 2 ^ 1074)%Z) by (apply Z.pow_pos_nonneg; lia).
    destruct (Z.eqb_spec (N mod D) 0) as [E0|E0].
    + rewrite E0 in Er. assert (a mod c = 0)%Z by nia. rewrite H. reflexivity.
    + assert (Hne' : (a mod c <> 0)%Z) by (intros E'; rewrite E' in Er; nia).
      cbn [cond_Zopp].
      destruct (binary_normalize_key (N mod D) e 1074 ltac:(lia) ltac:(lia)) as (Vr & Kr).
      cbv zeta in Vr, Kr. fold U in Kr. rewrite Er in Kr.
      apply Z2float_eq.
      * unfold ff. rewrite Prim2SF_SF2Prim by exact Vr.
        destruct (Z2float_FEV (a mod c) ltac:(lia)) as (F & V).
        destruct (Z2float_SF (a mod c)) as (Hv & _ & Hk). unfold fkey in Hk.
        assert (EVeq : EV (binary_normalize prec emax (N mod D) e false)
                       = EV (Prim2SF (Z2float (a mod c)))).
        { apply skey_inj_EV; try assumption.
          - destruct (binary_normalize _ _ _ _ _); try discriminate; reflexivity.
          - apply finite_not_nan. exact F.
          - rewrite Kr, Hk. reflexivity. }
        fold (FEV (Z2float (a mod c))) in EVeq. rewrite V in EVeq.
        destruct (binary_normalize prec emax (N mod D) e false) as [s|s| |s m e0]; try discriminate; try reflexivity.
        exfalso. cbn [EV] in EVeq. pose proof BIG_gap. pose proof BIG_pos.
        assert (a mod c * 2 ^ 1074 < 2 ^ 53 * 2 ^ 1074)%Z by nia.
        assert (2 ^ 53 * 2 ^ 1074 <= 2 ^ 2098)%Z
          by (rewrite <- Z.pow_add_r by lia; apply Z.pow_le_mono_r; lia).
        assert (0 < 2 ^ 2098)%Z by (apply Z.pow_pos_nonneg; lia).
        destruct s; cbn [cond_Zopp] in EVeq; nia.
      * unfold FEV. rewrite Prim2SF_SF2Prim by exact Vr.
        destruct (Z2float_FEV (a mod c) ltac:(lia)) as (F & V).
        destruct (Z2float_SF (a mod c)) as (Hv & _ & Hk). unfold fkey in Hk.
        rewrite <- V. unfold FEV. apply skey_inj_EV; try assumption.
        -- destruct (binary_normalize _ _ _ _ _); try discriminate; reflexivity.
        -- apply finite_not_nan. exact F.
        -- rewrite Kr, Hk. reflexivity.
      * exact Hne'.
Qed.

(** An integer below [2^53] prints as its decimal digits. *)
Lemma toString_int n : (0 <= n < 2 ^ 53)%Z -> toString (Z2float n) = Some (digits n).
Proof.
  intros Hn. destruct (Z.eq_dec n 0) as [->|Hne]; [reflexivity|].
  destruct (Z2float_pos_SF n ltac:(lia)) as (m & e & E & B & V).
  destruct (valid_bounds m e B) as (He & Hm & Hnorm).
  unfold toString. rewrite E. cbn [append].
  destruct (Z.leb_spec 0 e) as [H0|H0].
  - assert (e = 0)%Z.
    { destruct (Z.eq_dec e 0) as [->|Hne0]; [reflexivity|]. exfalso.
      assert (H1 : (2 ^ 52 <= Zpos m)%Z) by (apply Hnorm; lia).
      assert (H2 : (2 ^ 1 <= 2 ^ e)%Z) by (apply Z.pow_le_mono_r; lia).
      assert (H3 : (Zpos m * 2 ^ (e + 1074) = Zpos m * 2 ^ e * 2 ^ 1074)%Z)
        by (rewrite (Z.pow_add_r 2 e 1074) by lia; ring).
      rewrite H3 in V. apply Z.mul_cancel_r in V; [|apply Z.pow_nonzero; lia].
      change (2 ^ 1)%Z with 2%Z in H2. pow_consts. nia. }
    subst e. cbn [Z.eqb]. rewrite Z.add_0_l in V.
    apply Z.mul_cancel_r in V; [|apply Z.pow_nonzero; lia]. rewrite V. reflexivity.
  - assert (Em : (Zpos m = n * 2 ^ (- e))%Z).
    { replace (2 ^ 1074)%Z with (2 ^ (- e) * 2 ^ (e + 1074))%Z in V
        by (rewrite <- Z.pow_add_r by lia; f_equal; lia).
      rewrite Z.mul_assoc in V. apply Z.mul_cancel_r in V; [exact V | apply Z.pow_nonzero; lia]. }
    rewrite Em, Z.mod_mul, Z.div_mul by (apply Z.pow_nonzero; lia). reflexivity.
Qed.

(** The difference of two timestamps is exact. *)
Lemma sub_int n s : (0 <= s <= n)%Z -> (n < 2 ^ 53)%Z ->
  Z2float n - Z2float s = Z2float (n - s).
Proof.
  intros Hs Hn.
  destruct (Z2float_FEV n ltac:(lia)) as (Fn & Vn).
  destruct (Z2float_FEV s ltac:(lia)) as (Fs & Vs).
  destruct (Z.eq_dec n s) as [->|Hne].
  - rewrite Z.sub_diag. apply Prim2SF_inj. rewrite sub_spec.
    destruct (Z.eq_dec s 0) as [->|Hs0]; [reflexivity|].
    destruct (Z2float_pos_SF s ltac:(lia)) as (m & e & E & _ & _).
    rewrite E. apply SFsub_diag.
  - pose proof (sub_fkey (Z2float n) (Z2float s) (ff_nn _ Fn) Fs) as K.
    rewrite Vn, Vs in K. replace (n * 2 ^ 1074 - s * 2 ^ 1074)%Z with ((n - s) * 2 ^ 1074)%Z in K by ring.
    destruct (Z2float_SF (n - s)) as (Hv & _ & Hk).
    destruct (Z2float_pos_SF (n - s) ltac:(lia)) as (m & e & E & B & _).
    symmetry. apply Prim2SF_inj. apply skey_inj.
    + exact Hv.
    + apply Prim2SF_valid.
    + unfold fkey in Hk, K. rewrite Hk, K. reflexivity.
    + rewrite E. reflexivity.
    + rewrite E. cbn [skey cond_Zopp]. pose proof (key_bounds m e B).
      intros H'. apply Some_inj in H'. lia.
Qed.

(** The three fields of the display for whole seconds. *)
Lemma formatTime_int s : (0 <= s < 2 ^ 52)%Z ->
  formatTime (Z2float s)
  = Some (padStart (digits (s / 3600)) 2 ++ ":" ++ padStart (digits ((s mod 3600) / 60)) 2
          ++ ":" ++ padStart (digits (s mod 60)) 2)%string.
Proof.
  intros Hs. unfold formatTime. cbv zeta.
  pose proof (Z.mod_pos_bound s 3600 ltac:(lia)) as H1.
  pose proof (Z.mod_pos_bound s 60 ltac:(lia)) as H2.
  assert (H3 : (0 <= s / 3600 <= s)%Z).
  { split; [apply Z.div_pos; lia|]. apply Z.div_le_upper_bound; lia. }
  assert (H4 : (0 <= (s mod 3600) / 60 <= s mod 3600)%Z).
  { split; [apply Z.div_pos; lia|]. apply Z.div_le_upper_bound; lia. }
  change 3600 with (Z2float 3600). change 60 with (Z2float 60).
  rewrite !rem_int by (pow_consts; lia).
  rewrite !div_floor by (pow_consts; lia).
  rewrite !toString_int by (pow_consts; lia).
  reflexivity.
Qed.

End TimerFacts.

(** * The value of the eco score (pages/Dashboard.jsx) *)

Module EcoScoreValues.
Import JS Dashboard Binary64 Binary64Facts FloatFacts JSFacts EcoScoreFacts TimerFacts.
Local Open Scope float_scope.

(** Two integers between 0 and 100 with the same key are equal. *)
Lemma small_int_key n n' : (0 <= n <= 100)%Z -> (0 <= n' <= 100)%Z ->
  fkey (Z2float n) = Some (sKV 1074 (n' * 2 ^ 1074)) -> n = n'.
Proof.
  intros Hn Hn' K.
  destruct (Z2float_FEV n ltac:(pow_consts; lia)) as (F & V).
  destruct (Z2float_FEV n' ltac:(pow_consts; lia)) as (F' & V').
  destruct (Z2float_SF n') as (_ & _ & K').
  assert (E : FEV (Z2float n) = FEV (Z2float n')).
  { apply skey_inj_EV; try apply Prim2SF_valid; try (apply finite_not_nan; assumption).
    unfold fkey in K, K'. rewrite K, K'. reflexivity. }
  rewrite V, V' in E. apply Z.mul_cancel_r in E; [exact E | apply Z.pow_nonzero; lia].
Qed.

(** Lines 207-213: the value returned is the integer nearest to the clamped
    score, a tie going to the larger integer. *)
Lemma scoreOfAverage_nearest a :
  let raw := bracketScore a 100 in
  let clamped := Math_max 0 (Math_min 100 raw) in
  exists n, (0 <= n <= 100)%Z /\ scoreOfAverage a = Z2float n
    /\ scoreOfAverage a = Math_round clamped
    /\ FEV clamped = Z.max 0 (Z.min (100 * 2 ^ 1074) (FEV raw))
    /\ ((2 * n - 1) * 2 ^ 1074 <= 2 * FEV clamped < (2 * n + 1) * 2 ^ 1074)%Z.
Proof.
  cbv zeta.
  destruct (scoreOfAverage_integer a) as (n & Hn & En).
  destruct (clamp_facts _ (bracketScore_number a)) as (Nc & Vc & Fc).
  set (c := Math_max 0 (Math_min 100 (bracketScore a 100))) in *.
  assert (Hp : (0 < 2 ^ 1074)%Z) by (apply Z.pow_pos_nonneg; lia).
  assert (Hc : (0 <= FEV c <= 100 * 2 ^ 1074)%Z) by lia.
  pose proof (RZ_mono _ _ (proj1 Hc)) as R0. pose proof (RZ_mono _ _ (proj2 Hc)) as R1.
  rewrite RZ_int in R1. change 0%Z with (0 * 2 ^ 1074)%Z in R0 at 1. rewrite RZ_int in R0.
  pose proof (Math_round_fkey c Fc) as K.
  unfold c in K. rewrite <- scoreOfAverage_value, En in K. fold c in K.
  pose proof (small_int_key n (RZ (FEV c)) Hn ltac:(lia) K) as E.
  exists n. split; [exact Hn|]. split; [exact En|].
  split; [apply scoreOfAverage_value|]. split; [exact Vc|].
  rewrite E. unfold RZ.
  assert (P75 : (2 ^ 1075 = 2 * 2 ^ 1074)%Z) by (rewrite <- Z.pow_succ_r by lia; reflexivity).
  pose proof (Z.mul_div_le (2 * FEV c + 2 ^ 1074) (2 ^ 1075) ltac:(lia)) as L1.
  pose proof (Z.mul_succ_div_gt (2 * FEV c + 2 ^ 1074) (2 ^ 1075) ltac:(lia)) as L2.
  set (q := ((2 * FEV c + 2 ^ 1074) / 2 ^ 1075)%Z) in *.
  rewrite P75 in L1, L2. lia.
Qed.

(** A daily average of at most 0.1, negative values and [-Infinity]
    included, scores 100. *)
Lemma scoreOfAverage_low a : (a <=? 0.1) = true -> scoreOfAverage a = 100.
Proof.
  intros H. rewrite scoreOfAverage_value, (val1 a H). vm_compute. reflexivity.
Qed.

(** A daily average of at least 10 scores 0, whether or not
    (avgDaily - 5) * 10 overflows. *)
Lemma scoreOfAverage_high a : (10 <=? a) = true -> scoreOfAverage a = 0.
Proof.
  intros H. pose proof (scoreOfAverage_anti 10 a H) as Hle.
  destruct (scoreOfAverage_integer a) as (n & Hn & En).
  assert (E10 : scoreOfAverage 10 = 0) by (vm_compute; reflexivity).
  rewrite E10, En in Hle. apply leb_iff in Hle. destruct Hle as (_ & _ & Hle).
  destruct (Z2float_FEV n ltac:(pow_consts; lia)) as (_ & V).
  rewrite V, FEV_0 in Hle.
  assert (Hp : (0 < 2 ^ 1074)%Z) by (apply Z.pow_pos_nonneg; lia).
  assert (n = 0)%Z by nia. subst n. exact En.
Qed.

End EcoScoreValues.

(** * The activity breakdown as a group-by (components/EmissionChart.jsx) *)

Module GroupByFacts.
Import JS EmissionChart GroupBy.
Local Open Scope string_scope.
Local Open Scope float_scope.

Lemma existsb_eqb_In t ks : existsb (String.eqb t) ks = true <-> In t ks.
Proof.
  rewrite existsb_exists. split.
  - intros (k & Hk & E). apply String.eqb_eq in E. subst. exact Hk.
  - intros H. exists t. split; [exact H | apply String.eqb_refl].
Qed.

Lemma firstKeys_snoc data log :
  firstKeys (data ++ [log])%list =
  let t := keyOf log in
  if inherited t || existsb (String.eqb t) (firstKeys data) then firstKeys data
  else (firstKeys data ++ [t])%list.
Proof. unfold firstKeys. rewrite fold_left_app. reflexivity. Qed.

Lemma firstKeys_In data t :
  In t (firstKeys data) <->
  inherited t = false /\ exists log, In log data /\ keyOf log = t.
Proof.
  induction data as [|log data IH] using rev_ind.
  - cbn. split; [tauto | intros (_ & l & [] & _)].
  - rewrite firstKeys_snoc. cbv zeta.
    destruct (inherited (keyOf log)) eqn:Hi; cbn [orb].
    + rewrite IH. split; intros (H1 & l & Hl & E); split; try assumption.
      * exists l. split; [apply in_or_app; left; exact Hl | exact E].
      * apply in_app_or in Hl. destruct Hl as [Hl|[<-|[]]]; [eauto|]. congruence.
    + destruct (existsb _ _) eqn:He.
      * apply existsb_eqb_In in He. rewrite IH. split; intros (H1 & l & Hl & E); split; try assumption.
        -- exists l. split; [apply in_or_app; left; exact Hl | exact E].
        -- apply in_app_or in Hl. destruct Hl as [Hl|[<-|[]]]; [eauto|].
           subst t. apply IH in He. exact (proj2 He).
      * rewrite in_app_iff, IH. cbn [In]. split.
        -- intros [(H1 & l & Hl & E)|[<-|[]]].
           ++ split; [assumption|]. exists l. split; [apply in_or_app; left; exact Hl | exact E].
           ++ split; [assumption|]. exists log. split; [apply in_or_app; right; left; reflexivity | reflexivity].
        -- intros (H1 & l & Hl & E). apply in_app_or in Hl. destruct Hl as [Hl|[<-|[]]].
           ++ left. eauto.
           ++ right. left. exact E.
Qed.

Lemma firstKeys_NoDup data : NoDup (firstKeys data).
Proof.
  induction data as [|log data IH] using rev_ind.
  - constructor.
  - rewrite firstKeys_snoc. cbv zeta.
    destruct (inherited _ || existsb _ _) eqn:H; [exact IH|].
    apply orb_false_iff in H. destruct H as [_ H].
    apply NoDup_app; [exact IH | repeat constructor; intros [] |].
    intros k Hk [<-|[]].
    apply existsb_eqb_In in Hk. congruence.
Qed.

Lemma own_map (g : string -> Slice) ks t :
  own (map (fun k => (k, g k)) ks) t = if existsb (String.eqb t) ks then Some (g t) else None.
Proof.
  induction ks as [|k ks IH]; cbn; [reflexivity|].
  rewrite (String.eqb_sym t k).
  destruct (String.eqb k t) eqn:E; cbn.
  - apply String.eqb_eq in E. subst. reflexivity.
  - exact IH.
Qed.

Lemma update_absent m t f : own m t = None -> update m t f = m.
Proof.
  induction m as [|[k v] m IH]; cbn; [reflexivity|].
  destruct (String.eqb k t); [discriminate|]. intros H. rewrite IH by exact H. reflexivity.
Qed.

Lemma update_app_absent m t f v : own m t = None ->
  update (m ++ [(t, v)])%list t f = (m ++ [(t, f v)])%list.
Proof.
  induction m as [|[k w] m IH]; cbn.
  - rewrite String.eqb_refl. reflexivity.
  - destruct (String.eqb k t); [discriminate|]. intros H. rewrite IH by exact H. reflexivity.
Qed.

Lemma update_map (g : string -> Slice) ks t f : NoDup ks ->
  update (map (fun k => (k, g k)) ks) t f
  = map (fun k => (k, if String.eqb k t then f (g k) else g k)) ks.
Proof.
  induction 1 as [|k ks Hk _ IH]; cbn; [reflexivity|].
  destruct (String.eqb k t) eqn:E.
  - apply String.eqb_eq in E. subst. f_equal.
    apply map_ext_in. intros a Ha.
    destruct (String.eqb a t) eqn:E'; [|reflexivity].
    apply String.eqb_eq in E'. subst. contradiction.
  - rewrite IH. reflexivity.
Qed.

Lemma logsOf_snoc t data log :
  logsOf t (data ++ [log])%list =
  if String.eqb (keyOf log) t then (logsOf t data ++ [log])%list else logsOf t data.
Proof.
  unfold logsOf. rewrite filter_app. cbn.
  destruct (String.eqb (keyOf log) t); [reflexivity | apply app_nil_r].
Qed.

Lemma sumOf_snoc f logs log :
  sumOf f (logs ++ [log])%list = sumOf f logs + or_default (f log) 0.
Proof. unfold sumOf. rewrite fold_left_app. reflexivity. Qed.

Lemma groupOf_snoc t data log :
  groupOf t (data ++ [log])%list =
  if String.eqb (keyOf log) t then accumulate log (groupOf t data) else groupOf t data.
Proof.
  unfold groupOf. rewrite logsOf_snoc.
  destruct (String.eqb (keyOf log) t); [|reflexivity].
  rewrite !sumOf_snoc. reflexivity.
Qed.

Lemma logsOf_absent t data : (forall log, In log data -> keyOf log <> t) -> logsOf t data = [].
Proof.
  intros H. unfold logsOf. induction data as [|l data IH]; cbn; [reflexivity|].
  destruct (String.eqb (keyOf l) t) eqn:E.
  - apply String.eqb_eq in E. exfalso. apply (H l); [left; reflexivity | exact E].
  - apply IH. intros log Hl. apply H. right. exact Hl.
Qed.

(** The aggregation loop is a group-by. *)
Lemma aggregate_snoc data log : aggregate (data ++ [log])%list = addLog (aggregate data) log.
Proof. unfold aggregate. rewrite fold_left_app. reflexivity. Qed.

Lemma aggregate_groups data :
  aggregate data = map (fun t => (t, groupOf t data)) (firstKeys data).
Proof.
  induction data as [|log data IH] using rev_ind; [reflexivity|].
  rewrite aggregate_snoc, IH, firstKeys_snoc. cbv zeta.
  unfold addLog. fold (keyOf log). cbv zeta.
  set (t := keyOf log). set (ks := firstKeys data).
  assert (Hks : forall k, In k ks -> inherited k = false).
  { intros k Hk. apply firstKeys_In in Hk. exact (proj1 Hk). }
  destruct (inherited t) eqn:Hi; cbn [orb].
  - apply map_ext_in. intros k Hk. rewrite groupOf_snoc. fold t.
    destruct (String.eqb t k) eqn:E; [|reflexivity].
    apply String.eqb_eq in E. subst k. rewrite (Hks _ Hk) in Hi. discriminate.
  - rewrite own_map. destruct (existsb (String.eqb t) ks) eqn:He.
    + rewrite update_map by apply firstKeys_NoDup.
      apply map_ext_in. intros k Hk. rewrite groupOf_snoc. fold t.
      rewrite (String.eqb_sym k t). reflexivity.
    + rewrite update_app_absent by (rewrite own_map, He; reflexivity).
      rewrite map_app. cbn [map]. f_equal.
      * apply map_ext_in. intros k Hk. rewrite groupOf_snoc. fold t.
        destruct (String.eqb t k) eqn:E; [|reflexivity].
        apply String.eqb_eq in E. subst k. apply existsb_eqb_In in Hk. fold ks in Hk. congruence.
      * rewrite groupOf_snoc. fold t. rewrite String.eqb_refl.
        unfold groupOf, accumulate. cbn.
        rewrite logsOf_absent; [reflexivity|].
        intros l Hl E.
        assert (In t ks) by (apply firstKeys_In; split; [exact Hi | eauto]).
        apply existsb_eqb_In in H. congruence.
Qed.

Lemma insert_index_perm e l : Permutation (insert_index e l) (e :: l).
Proof.
  induction l as [|h r IH]; cbn; [reflexivity|].
  destruct (fst e <? fst h)%N; [reflexivity|].
  rewrite IH. apply perm_swap.
Qed.

Lemma Object_values_perm m : Permutation (Object_values m) (map snd m).
Proof.
  unfold Object_values.
  induction m as [|[k v] m IH]; cbn; [reflexivity|].
  destruct (array_index k) as [i|] eqn:E; cbn.
  - rewrite (Permutation_map snd (insert_index_perm (i, v) _)). cbn.
    apply perm_skip. exact IH.
  - rewrite <- Permutation_middle. apply perm_skip. exact IH.
Qed.

Lemma Object_values_named m :
  (forall kv, In kv m -> array_index (fst kv) = None) -> Object_values m = map snd m.
Proof.
  unfold Object_values. induction m as [|[k v] m IH]; intros H; [reflexivity|].
  pose proof (H (k, v) (or_introl eq_refl)) as Hk. cbn [fst] in Hk.
  specialize (IH (fun kv Hkv => H kv (or_intror Hkv))).
  cbn [fold_right filter fst snd]. rewrite Hk.
  destruct (fold_right _ _ m) as [|e l].
  - cbn in *. f_equal. exact IH.
  - exfalso. apply (f_equal (@List.length Slice)) in IH.
    cbn in IH. rewrite length_app, !length_map in IH.
    assert (F : filter (fun kv : string * Slice =>
                  match array_index (fst kv) with Some _ => false | None => true end) m = m).
    { apply forallb_filter_id. apply forallb_forall. intros kv Hkv.
      rewrite (H kv (or_intror Hkv)). reflexivity. }
    rewrite F in IH. lia.
Qed.

Lemma breakdown_eq data :
  breakdown data =
  map (withPercent (totalMinutes (chartData (aggregate data)))) (chartData (aggregate data)).
Proof. destruct data; reflexivity. Qed.



Lemma map_type_breakdown data :
  map type (breakdown data)
  = map type (filter (fun item => gt (value item) 0) (Object_values (aggregate data))).
Proof.
  rewrite breakdown_eq. unfold chartData. rewrite !map_map. reflexivity.
Qed.

Lemma totalMinutes_withPercent total l :
  totalMinutes (map (withPercent total) l) = totalMinutes l.
Proof.
  unfold totalMinutes. generalize 0 as acc.
  induction l as [|a l IH]; intros acc; cbn; [reflexivity | apply IH].
Qed.

Lemma totalMinutes_breakdown data :
  totalMinutes (breakdown data) = totalMinutes (chartData (aggregate data)).
Proof. rewrite breakdown_eq. apply totalMinutes_withPercent. Qed.

End GroupByFacts.

(** * Results *)

Section EcoScore.
Import JS Dashboard Binary64 FloatFacts JSFacts EcoScoreFacts EcoScoreValues.
Local Open Scope float_scope.

(** C3: ten grams over a seven day period score exactly 83; the daily
    average lies in the bracket from 1 to 2, whose formula is
    85 - (avgDaily - 1) * 5. *)
Theorem ecoScore_ten_grams_seven_days :
  ecoScore (Some {| period_days := Some 7; daily_summaries := [];
                    total_emissions_grams := Some 10; total_energy_kwh := None |}) = 83
  /\ gt (avgDaily 10 7) 1 = true /\ (avgDaily 10 7 <=? 2) = true
  /\ bracketScore (avgDaily 10 7) 100 = 85 - ((avgDaily 10 7 - 1) * 5).
Proof. vm_compute. repeat split. Qed.

(** C8: with no summary loaded ([summary] is [null]) the score is the
    default 85. *)
Theorem ecoScore_no_summary : ecoScore None = 85.
Proof. reflexivity. Qed.

(** C6: for every summary input the value returned is an integer [n]
    between 0 and 100.  Unless a guard returns 85 or 100 before, it is
    [Math.round] of the piecewise score of the daily average clamped by
    [Math.max(0, Math.min(100, score))]: the clamped value is
    max(0, min(100, score)), and [n] is the integer nearest to it, a tie
    going to the larger integer ([FEV] is the value in units of 2^-1074). *)
Theorem ecoScore_integer_in_range :
  forall summary, exists n,
    (0 <= n <= 100)%Z /\ ecoScore summary = Z2float n /\
    match summary with
    | None => n = 85%Z
    | Some s =>
        let totalEmissions := or_default (total_emissions_grams s) 0 in
        let periodDays := or_default (period_days s) 7 in
        if strict_eq totalEmissions 0 then n = 100%Z
        else if strict_eq periodDays 0 || isNaN periodDays then n = 85%Z
        else
          let raw := bracketScore (avgDaily totalEmissions periodDays) 100 in
          let clamped := Math_max 0 (Math_min 100 raw) in
          ecoScore summary = Math_round clamped
          /\ FEV clamped = Z.max 0 (Z.min (100 * 2 ^ 1074) (FEV raw))
          /\ ((2 * n - 1) * 2 ^ 1074 <= 2 * FEV clamped < (2 * n + 1) * 2 ^ 1074)%Z
    end.
Proof.
  intros [s|]; cbn [ecoScore].
  - cbv zeta.
    destruct (strict_eq _ 0); [exists 100%Z; repeat split; lia|].
    destruct (_ || _); [exists 85%Z; repeat split; lia|].
    destruct (scoreOfAverage_nearest (avgDaily (or_default (total_emissions_grams s) 0)
                                               (or_default (period_days s) 7)))
      as (n & Hn & En & Er & Vc & Hb).
    exists n. repeat split; try assumption; lia.
  - exists 85%Z. repeat split; lia.
Qed.

(** C1, refuted as stated: a total of 1e308 grams over one day makes
    (avgDaily - 5) * 10 overflow to Infinity, and the score returned is 0,
    not 100. *)
Lemma ecoScore_overflow_is_zero :
  let s := Some {| period_days := Some 1; daily_summaries := [];
                   total_emissions_grams := Some 1e308; total_energy_kwh := None |} in
  isFinite ((avgDaily 1e308 1 - 5) * 10) = false
  /\ ecoScore s = 0 /\ strict_eq (ecoScore s) 100 = false.
Proof. vm_compute. repeat split. Qed.

(** C1, amended: the eco score is never NaN; for every summary input the
    value returned is a finite number.  No fallback is involved: the rounded
    clamped score is returned for every daily average (the guard of line 212
    never fires).  A daily average that is NaN scores 100, as does every
    daily average of at most 0.1, [-Infinity] included; every daily average
    of at least 10 scores 0, [+Infinity] and the averages at which
    (avgDaily - 5) * 10 overflows included. *)
Theorem ecoScore_never_nan :
  (forall summary, isNaN (ecoScore summary) = false /\ isFinite (ecoScore summary) = true)
  /\ (forall a, scoreOfAverage a
                = Math_round (Math_max 0 (Math_min 100 (bracketScore a 100))))
  /\ scoreOfAverage nan = 100 /\ scoreOfAverage infinity = 0
  /\ scoreOfAverage neg_infinity = 100
  /\ (forall a, (a <=? 0.1) = true -> scoreOfAverage a = 100)
  /\ (forall a, (10 <=? a) = true -> scoreOfAverage a = 0).
Proof.
  split; [|split; [exact scoreOfAverage_value|]].
  - intros [s|]; cbn [ecoScore]; [cbv zeta|split; reflexivity].
    destruct (strict_eq _ 0); [split; reflexivity|].
    destruct (_ || _); [split; reflexivity|].
    destruct (scoreOfAverage_integer (avgDaily (or_default (total_emissions_grams s) 0)
                                               (or_default (period_days s) 7)))
      as (n & Hn & ->).
    apply Z2float_small. exact Hn.
  - split; [vm_compute; reflexivity|]. split; [vm_compute; reflexivity|].
    split; [vm_compute; reflexivity|].
    split; [exact scoreOfAverage_low | exact scoreOfAverage_high].
Qed.

Lemma ecoScore_never_nan_witness :
  scoreOfAverage (-3) = 100 /\ scoreOfAverage 1e308 = 0.
Proof.
  destruct ecoScore_never_nan as (_ & _ & _ & _ & _ & Hlow & Hhigh).
  split; [apply Hlow | apply Hhigh]; reflexivity.
Defined.

(** C2, refuted as stated: ten grams with a day count of zero do not fail;
    the score 83 of ten grams over seven days is returned. *)
Lemma ecoScore_zero_days_returns :
  ecoScore (Some {| period_days := Some 0; daily_summaries := [];
                    total_emissions_grams := Some 10; total_energy_kwh := None |}) = 83.
Proof. vm_compute. reflexivity. Qed.

(** C2, amended: with total emissions above zero and a day count of zero
    the computation does not fail: the day count is replaced by the default
    of 7 and the score of total / 7 is returned. *)
Theorem ecoScore_zero_days s t d :
  total_emissions_grams s = Some t -> period_days s = Some d ->
  (0 <? t) = true -> strict_eq d 0 = true ->
  ecoScore (Some s) = scoreOfAverage (avgDaily t 7).
Proof.
  intros Et Ed Ht Hd. cbn [ecoScore]. cbv zeta. rewrite Et, Ed.
  rewrite (or_default_pos t 0 Ht).
  destruct (pos_not_zero t Ht) as [-> _].
  assert (E : or_default (Some d) 7 = 7).
  { unfold or_default, truthy, is_zero. unfold strict_eq in Hd.
    change zero with 0. rewrite Hd, orb_true_r. reflexivity. }
  rewrite E. reflexivity.
Qed.

Lemma ecoScore_zero_days_witness :
  ecoScore (Some {| period_days := Some 0; daily_summaries := [];
                    total_emissions_grams := Some 10; total_energy_kwh := None |})
  = scoreOfAverage (avgDaily 10 7).
Proof.
  apply (ecoScore_zero_days
           {| period_days := Some 0; daily_summaries := [];
              total_emissions_grams := Some 10; total_energy_kwh := None |} 10 0);
    reflexivity.
Defined.

(** C4: a summary whose list of daily summaries is empty, its total being
    the total of that list as the backend reports it, or whose total
    emissions are zero (or absent), scores exactly 100 over any period
    length. *)
Theorem ecoScore_zero_total s :
  (daily_summaries s = [] /\
   total_emissions_grams s = Some (totalOf (daily_summaries s)))
  \/ (exists t, total_emissions_grams s = Some t /\ strict_eq t 0 = true)
  \/ total_emissions_grams s = None ->
  ecoScore (Some s) = 100.
Proof.
  intros H. cbn [ecoScore]. cbv zeta.
  assert (E : or_default (total_emissions_grams s) 0 = 0).
  { destruct H as [[El ->]|[(t & -> & Ht)| ->]].
    - rewrite El. reflexivity.
    - unfold or_default, truthy, is_zero. unfold strict_eq in Ht.
      change zero with 0. rewrite Ht, orb_true_r. reflexivity.
    - reflexivity. }
  rewrite E. reflexivity.
Qed.

Lemma ecoScore_zero_total_witness :
  ecoScore (Some {| period_days := Some 30; daily_summaries := [];
                    total_emissions_grams := Some 0; total_energy_kwh := Some 0 |}) = 100
  /\ ecoScore (Some {| period_days := Some 7;
                       daily_summaries := [ {| date := "2025-01-01"; emissions_grams := 0;
                                               energy_kwh := 0; activity_count := 0 |} ];
                       total_emissions_grams := Some 0; total_energy_kwh := Some 0 |}) = 100.
Proof.
  split; apply ecoScore_zero_total.
  - left. split; reflexivity.
  - right. left. exists 0. split; reflexivity.
Defined.

(** C5: the eco score does not increase with the daily average: for two
    summaries with totals and day counts above zero, if the daily average
    (total divided by days) of the first is at most that of the second,
    the score of the first is at least the score of the second. *)
Theorem ecoScore_monotone s1 s2 t1 d1 t2 d2 :
  total_emissions_grams s1 = Some t1 -> period_days s1 = Some d1 ->
  total_emissions_grams s2 = Some t2 -> period_days s2 = Some d2 ->
  (0 <? t1) = true -> (0 <? d1) = true ->
  (0 <? t2) = true -> (0 <? d2) = true ->
  (avgDaily t1 d1 <=? avgDaily t2 d2) = true ->
  (ecoScore (Some s2) <=? ecoScore (Some s1)) = true.
Proof.
  intros Et1 Ed1 Et2 Ed2 Ht1 Hd1 Ht2 Hd2 H.
  rewrite (ecoScore_pos s1 t1 d1), (ecoScore_pos s2 t2 d2) by assumption.
  apply scoreOfAverage_anti. exact H.
Qed.

Lemma ecoScore_monotone_witness :
  (ecoScore (Some {| period_days := Some 7; daily_summaries := [];
                     total_emissions_grams := Some 35; total_energy_kwh := None |})
   <=? ecoScore (Some {| period_days := Some 7; daily_summaries := [];
                         total_emissions_grams := Some 10; total_energy_kwh := None |})) = true.
Proof.
  apply (ecoScore_monotone
           {| period_days := Some 7; daily_summaries := [];
              total_emissions_grams := Some 10; total_energy_kwh := None |}
           {| period_days := Some 7; daily_summaries := [];
              total_emissions_grams := Some 35; total_energy_kwh := None |}
           10 7 35 7); reflexivity.
Defined.

End EcoScore.

Section Estimate.
Import Estimator Binary64 FloatFacts EstimatorFacts EstimateBounds.
Local Open Scope string_scope.
Local Open Scope float_scope.

(** C7: for every activity type of the table and every duration that is
    at least zero, a result of [estimate] has a non-negative energy and a
    non-negative CO2 mass, the latter being the energy multiplied by
    [GRID_INTENSITY], and the only failure left is [EstimationError]; a
    result is returned whenever the duration is finite and the CPU
    percentage is a number. *)
Theorem estimate_nonnegative a d md cpu p :
  base_power a = Some p -> (0 <=? d) = true ->
  match estimate a d md cpu with
  | inr r => (0 <=? energy_kwh r) = true /\ (0 <=? co2_grams r) = true
             /\ co2_grams r = energy_kwh r * GRID_INTENSITY
  | inl e => e = EstimationError
  end
  /\ (is_finite d = true -> is_nan cpu = false -> exists r, estimate a d md cpu = inr r).
Proof.
  intros Hp Hd. split; [|intros Fd Nc; eapply estimate_total; eassumption].
  unfold estimate. rewrite Hp.
  assert (Hlt : (d <? 0) = false).
  { apply leb_iff in Hd. destruct Hd as (N0 & Nd & Hd).
    rewrite ltb_FEV by assumption. apply Z.ltb_ge. exact Hd. }
  rewrite Hlt. cbv zeta.
  set (power := p * cpu_factor cpu * quality_factor (quality md) * device_factor (device_type md)).
  set (energy := power * (d / 3600) / 1000).
  destruct (all_finite _) eqn:Hf; [|reflexivity].
  unfold all_finite in Hf. cbn [energy_kwh co2_grams power_watts cpu_load_factor] in *.
  rewrite !andb_true_iff in Hf. destruct Hf as [[[F1 F2] _] _].
  assert (Npow : nonneg power).
  { unfold power. repeat apply mul_nonneg.
    - eapply base_power_nonneg; eassumption.
    - apply clamp_nonneg.
    - apply quality_nonneg.
    - apply device_nonneg. }
  assert (Nen : nonneg energy).
  { unfold energy. eapply div_nonneg; [vm_compute; reflexivity|].
    apply mul_nonneg; [exact Npow|].
    eapply div_nonneg; [vm_compute; reflexivity | apply leb_0_nonneg; exact Hd]. }
  repeat split.
  - apply finite_nonneg_leb; assumption.
  - apply finite_nonneg_leb; [assumption|]. apply mul_nonneg; [exact Nen | vm_compute; auto].
Qed.

Lemma estimate_nonnegative_witness :
  match estimate "youtube" 3600 {| quality := None; device_type := None |} 50 with
  | inr r => (0 <=? energy_kwh r) = true /\ (0 <=? co2_grams r) = true
             /\ co2_grams r = energy_kwh r * GRID_INTENSITY
  | inl e => e = EstimationError
  end
  /\ (is_finite 3600 = true -> is_nan 50 = false ->
      exists r, estimate "youtube" 3600 {| quality := None; device_type := None |} 50 = inr r).
Proof.
  apply (estimate_nonnegative "youtube" 3600 {| quality := None; device_type := None |} 50 15);
    reflexivity.
Defined.

(** The example of the estimator's description: an hour of [youtube] at
    50% CPU with no metadata draws 15 W, that is 0.015 kWh and 7.125 g. *)
Example estimate_youtube_hour :
  estimate "youtube" 3600 {| quality := None; device_type := None |} 50
  = inr {| energy_kwh := 0.015; co2_grams := 7.125;
           power_watts := 15; cpu_load_factor := 1 |}.
Proof. vm_compute. reflexivity. Qed.

End Estimate.

Section Breakdown.
Import JS EmissionChart Binary64 FloatFacts JSFacts ChartFacts.
Local Open Scope string_scope.
Local Open Scope float_scope.

(** C9, refuted as stated: two logs of one activity lasting 1e308 seconds
    each add up to Infinity; the minutes and the total are infinite and the
    percentage is Infinity / Infinity * 100, which is NaN. *)
Lemma breakdown_percent_nan :
  map (fun item => (isNaN (percent item), isFinite (value item)))
      (breakdown [ {| activity_type := Some "youtube"; duration_seconds := Some 1e308;
                      co2_grams := None |};
                   {| activity_type := Some "youtube"; duration_seconds := Some 1e308;
                      co2_grams := None |} ])
  = [(true, false)].
Proof. vm_compute. reflexivity. Qed.

(** C9, amended: for every list of activity logs, the percentage of every
    activity whose rounded minutes are finite is a number between 0 and 100;
    and when the total of the rounded minutes is not above zero, every
    percentage is 0. *)
Theorem breakdown_percent_range data item :
  In item (breakdown data) ->
  (isFinite (value item) = true ->
     (0 <=? percent item) = true /\ (percent item <=? 100) = true)
  /\ (gt (totalMinutes (chartData (aggregate data))) 0 = false -> percent item = 0).
Proof.
  intros Hin. destruct (breakdown_In data item Hin) as (it & Hit & ->).
  cbn [withPercent value percent]. split.
  - intros F. apply percentOf_range; [eapply chartData_nonneg; eassumption | exact F |].
    apply (totalMinutes_bounds (chartData (aggregate data))
             (fun i Hi => chartData_nonneg _ i Hi) 0 eq_refl). exact Hit.
  - intros Hz. unfold percentOf. rewrite Hz. reflexivity.
Qed.

Lemma breakdown_percent_range_witness :
  let data := [ {| activity_type := Some "YouTube"; duration_seconds := Some 120;
                   co2_grams := Some 0.2 |};
                {| activity_type := Some "gmail"; duration_seconds := Some 360;
                   co2_grams := None |} ] in
  let item := {| name := "YouTube"; value := 2; emissions := 0.2; type := "youtube";
                 percent := 25 |} in
  In item (breakdown data) /\ (0 <=? percent item) = true /\ (percent item <=? 100) = true.
Proof.
  cbv zeta.
  assert (Hin : In {| name := "YouTube"; value := 2; emissions := 0.2; type := "youtube";
                      percent := 25 |}
                   (breakdown [ {| activity_type := Some "YouTube"; duration_seconds := Some 120;
                                   co2_grams := Some 0.2 |};
                                {| activity_type := Some "gmail"; duration_seconds := Some 360;
                                   co2_grams := None |} ]))
    by (vm_compute; left; reflexivity).
  split; [exact Hin|].
  destruct (breakdown_percent_range _ _ Hin) as [H _]. apply H. reflexivity.
Defined.

End Breakdown.

Section FormatTime.
Import JS Analyzer AnalyzerFacts TimerFacts.
Local Open Scope string_scope.

(** C10, refuted as stated: at 360000 seconds the hours field has three
    digits. *)
Lemma formatTime_hundred_hours : formatTime 360000 = Some "100:00:00".
Proof. vm_compute. reflexivity. Qed.

(** The fields are computed on Numbers: beyond 2^53 the quotient by 3600 is
    rounded before [Math.floor] sees it, and the fields no longer add up to
    the input. *)
Remark formatTime_beyond_safe_integers :
  let s := (3600 * 2 ^ 52 + 2048)%Z in
  formatTime (Z2float s) = Some "4503599627370497:34:08"
  /\ (4503599627370497 * 3600 + 34 * 60 + 8 <> s)%Z.
Proof. split; [vm_compute; reflexivity | discriminate]. Qed.

(** C10, amended: for every whole number of seconds [s] from 0 and below
    2^52, [formatTime] returns the fields HH = floor(s / 3600),
    MM = floor((s mod 3600) / 60) and SS = s mod 60 in decimal digits,
    separated by colons, with HH * 3600 + MM * 60 + SS = s; each field is
    padded with zeros to at least two digits, MM and SS have exactly two,
    and HH has exactly two if and only if s is below 360000. *)
Theorem formatTime_decomposes (s : Z) :
  (0 <= s < 2 ^ 52)%Z ->
  let HH := (s / 3600)%Z in
  let MM := ((s mod 3600) / 60)%Z in
  let SS := (s mod 60)%Z in
  formatTime (Z2float s)
  = Some (padStart (digits HH) 2 ++ ":" ++ padStart (digits MM) 2
          ++ ":" ++ padStart (digits SS) 2)
  /\ (HH * 3600 + MM * 60 + SS = s)%Z
  /\ (0 <= HH)%Z /\ (0 <= MM < 60)%Z /\ (0 <= SS < 60)%Z
  /\ String.length (padStart (digits MM) 2) = 2%nat
  /\ String.length (padStart (digits SS) 2) = 2%nat
  /\ (String.length (padStart (digits HH) 2) = 2%nat <-> (s < 360000)%Z).
Proof.
  intros Hs. cbv zeta.
  pose proof (Z.mod_pos_bound s 3600 ltac:(lia)) as H1.
  assert (HMM : (0 <= (s mod 3600) / 60 < 60)%Z).
  { split; [apply Z.div_pos; lia | apply Z.div_lt_upper_bound; lia]. }
  assert (HSS : (0 <= s mod 60 < 60)%Z) by (apply Z.mod_pos_bound; lia).
  assert (HHH : (0 <= s / 3600)%Z) by (apply Z.div_pos; lia).
  split; [apply formatTime_int; exact Hs|]. split.
  { pose proof (Z.div_mod s 3600 ltac:(lia)) as E1.
    pose proof (Z.div_mod (s mod 3600) 60 ltac:(lia)) as E2.
    assert (E3 : ((s mod 3600) mod 60 = s mod 60)%Z).
    { apply (Z.mod_unique s 60 (s / 3600 * 60 + (s mod 3600) / 60)).
      - left. apply Z.mod_pos_bound. lia.
      - lia. }
    lia. }
  split; [exact HHH|]. split; [exact HMM|]. split; [exact HSS|].
  split; [apply two_digits; lia|]. split; [apply two_digits; lia|].
  split.
  - intros L. destruct (Z_lt_ge_dec s 360000) as [Hlt|Hge]; [exact Hlt|].
    exfalso. assert (100 <= s / 3600)%Z by (apply Z.div_le_lower_bound; lia).
    pose proof (three_digits (s / 3600) ltac:(assumption)). lia.
  - intros Hlt. apply two_digits. split; [exact HHH|].
    apply Z.div_lt_upper_bound; lia.
Qed.

Lemma formatTime_decomposes_witness :
  formatTime 3661 = Some "01:01:01"
  /\ String.length (padStart (digits (3661 / 3600)) 2) = 2%nat.
Proof.
  destruct (formatTime_decomposes 3661 ltac:(split; [discriminate | reflexivity]))
    as (E & _ & _ & _ & _ & _ & _ & H).
  split; [exact E | apply H; reflexivity].
Defined.

End FormatTime.
(** * Further properties of the code *)

Section BreakdownGroups.
Import JS EmissionChart GroupBy GroupByFacts.
Local Open Scope string_scope.
Local Open Scope float_scope.

(** X1: the slices of the activity breakdown are the groups of the logs by
    lower-cased activity type: there is a slice of type [t] exactly when
    [t] is the key of some log, is not a name inherited from
    [Object.prototype], and the durations filed under [t], summed in input
    order, are above zero; its minutes are [Math.round] of that sum divided
    by 60, its emissions the sum of the CO2 of the same logs, its name the
    display name of [t], and its percentage is computed against the total
    of the minutes of all slices. *)
Theorem breakdown_slices data item :
  In item (breakdown data) <->
  exists t,
    inherited t = false /\ (exists log, In log data /\ keyOf log = t)
    /\ gt (sumOf duration_seconds (logsOf t data)) 0 = true
    /\ type item = t
    /\ name item = display_name t
    /\ value item = Math_round (sumOf duration_seconds (logsOf t data) / 60)
    /\ emissions item = sumOf co2_grams (logsOf t data)
    /\ percent item = percentOf (totalMinutes (breakdown data)) item.
Proof.
  rewrite totalMinutes_breakdown. rewrite breakdown_eq.
  set (total := totalMinutes _).
  rewrite in_map_iff. unfold chartData. split.
  - intros (it & <- & Hit). apply in_map_iff in Hit. destruct Hit as (g & <- & Hg).
    apply filter_In in Hg. destruct Hg as [Hg Hpos].
    apply (Permutation_in _ (Object_values_perm _)) in Hg.
    rewrite aggregate_groups, map_map in Hg. cbn [snd] in Hg.
    apply in_map_iff in Hg. destruct Hg as (t & <- & Ht).
    apply firstKeys_In in Ht. destruct Ht as [Hi Hl].
    exists t. cbn. repeat split; try assumption; reflexivity.
  - intros (t & Hi & Hl & Hpos & Ety & Ena & Eva & Eem & Epe).
    exists (toMinutes (groupOf t data)). split.
    + destruct item as [n v e ty p]. cbn in Ety, Ena, Eva, Eem, Epe.
      unfold percentOf in Epe. cbn in Epe. subst.
      unfold withPercent, percentOf. cbn. reflexivity.
    + apply in_map. apply filter_In. split; [|exact Hpos].
      apply (Permutation_in _ (Permutation_sym (Object_values_perm _))).
      rewrite aggregate_groups, map_map. cbn [snd].
      apply in_map_iff. exists t. split; [reflexivity|]. apply firstKeys_In. split; assumption.
Qed.


(** X3: when no activity type is an array index (a canonical decimal
    numeral), the slices appear in the order in which their types first
    occur in the logs. *)
Theorem breakdown_order data :
  (forall log, In log data -> array_index (keyOf log) = None) ->
  map type (breakdown data)
  = filter (fun t => gt (sumOf duration_seconds (logsOf t data)) 0) (firstKeys data).
Proof.
  intros H. rewrite map_type_breakdown.
  rewrite Object_values_named.
  - rewrite aggregate_groups, map_map. cbn [snd].
    induction (firstKeys data) as [|t ks IH]; [reflexivity|].
    cbn [map filter]. change (value (groupOf t data)) with (sumOf duration_seconds (logsOf t data)).
    destruct (gt (sumOf duration_seconds (logsOf t data)) 0); cbn [map]; rewrite IH; reflexivity.
  - intros [k v] Hkv. cbn [fst]. rewrite aggregate_groups in Hkv.
    apply in_map_iff in Hkv. destruct Hkv as (t & E & Ht). injection E as <- _.
    apply firstKeys_In in Ht. destruct Ht as (_ & log & Hl & <-). apply H. exact Hl.
Qed.

Lemma breakdown_order_witness :
  let data := [ {| activity_type := Some "YouTube"; duration_seconds := Some 120; co2_grams := Some 1 |};
                {| activity_type := Some "gmail"; duration_seconds := Some 60; co2_grams := None |};
                {| activity_type := Some "youtube"; duration_seconds := Some 60; co2_grams := Some 2 |};
                {| activity_type := Some "idle"; duration_seconds := None; co2_grams := None |} ] in
  map type (breakdown data) = ["youtube"; "gmail"].
Proof.
  cbv zeta. rewrite breakdown_order.
  - vm_compute. reflexivity.
  - intros log [<-|[<-|[<-|[<-|[]]]]]; reflexivity.
Defined.

End BreakdownGroups.

Section Timer.
Import JS Analyzer AnalyzerFacts TimerFacts.
Local Open Scope string_scope.

(** X4: the tracker's timer shows the whole seconds elapsed: for a start
    time and a current time in whole milliseconds, the latter not before
    the former and below 2^52, the interval callback computes the integer
    quotient of their difference by 1000, and [formatTime] displays that
    number of seconds as hours, minutes and seconds. *)
Theorem timer_shows_elapsed (now startTime : Z) :
  (0 <= startTime <= now)%Z -> (now < 2 ^ 52)%Z ->
  let secs := ((now - startTime) / 1000)%Z in
  elapsed (Z2float now) (Z2float startTime) = Z2float secs
  /\ formatTime (elapsed (Z2float now) (Z2float startTime))
     = Some (padStart (digits (secs / 3600)) 2 ++ ":"
             ++ padStart (digits ((secs mod 3600) / 60)) 2 ++ ":"
             ++ padStart (digits (secs mod 60)) 2).
Proof.
  intros Hs Hn. cbv zeta.
  assert (E : elapsed (Z2float now) (Z2float startTime)
              = Z2float ((now - startTime) / 1000)).
  { unfold elapsed. rewrite sub_int by (change (2 ^ 53)%Z with 9007199254740992%Z;
                                         change (2 ^ 52)%Z with 4503599627370496%Z in Hn; lia).
    change 1000%float with (Z2float 1000).
    apply div_floor; [lia | split; [lia | reflexivity]]. }
  split; [exact E|]. rewrite E. apply formatTime_int.
  split; [apply Z.div_pos; lia|].
  apply Z.le_lt_trans with (now - startTime)%Z; [|lia].
  apply Z.div_le_upper_bound; lia.
Qed.

Lemma timer_shows_elapsed_witness :
  elapsed 1700000012345 1700000000000 = 12%float
  /\ formatTime (elapsed 1700000012345 1700000000000) = Some "00:00:12".
Proof.
  apply (timer_shows_elapsed 1700000012345 1700000000000);
    [split; discriminate | reflexivity].
Defined.

End Timer.
